(** * UCAC-ICAM multi-agent pipeline: a shallow embedding

    The development follows the backend of the repository:

    - [parse_json.js]      -> Module [ParseJson]  (with the builtin [JSON.parse]
                              in Module [Json])
    - [agents/agent1_prosit_aller.js], [agents/agent2_prosit_retour.js],
      [agents/agent3_cer.js] -> Modules [Agent1], [Agent2], [Agent3]
    - [orchestrator.js]    -> Module [Orchestrator]
    - [server.js] (the kind of an imported document) -> Module [Server]
    - [structurer.js]      -> Module [Structurer]
    - [UCAC_MultiAgents.jsx] (reading an imported file) -> Module [Ui]

    A JavaScript string is its sequence of UTF-16 code units.  The calls to
    the language model, to the document generators and to the file system are
    the answers of an environment; everything else is computed. *)

From Stdlib Require Import String Ascii.
From Stdlib Require Import ZArith List Bool Arith Lia Floats.
Import Init.Datatypes ListNotations.

Set Implicit Arguments.
Set Warnings "-register-all".
Local Open Scope Z_scope.

(* ================================================================== *)
(** * JavaScript strings *)
(* ================================================================== *)

Module JsString.

(** A string is the list of its UTF-16 code units. *)
Definition jsstring := list Z.

(** ** Literals

    [js "..."] reads a literal of this file (UTF-8 bytes) as the code units
    JavaScript sees for the same source text. *)

Definition byte_of (a : ascii) : Z := Z.of_N (N_of_ascii a).

Definition units_of_code_point (cp : Z) : jsstring :=
  if cp <? 65536 then [cp]
  else let v := cp - 65536 in
       [55296 + Z.shiftr v 10; 56320 + Z.land v 1023].

Definition cont (b : Z) : Z := Z.land b 63.

Fixpoint js (s : string) : jsstring :=
  match s with
  | EmptyString => []
  | String a r =>
      let b := byte_of a in
      if b <? 128 then b :: js r
      else if b <? 224 then
        match r with
        | String a1 r1 =>
            units_of_code_point (Z.shiftl (Z.land b 31) 6 + cont (byte_of a1))
              ++ js r1
        | _ => [65533]
        end
      else if b <? 240 then
        match r with
        | String a1 (String a2 r2) =>
            units_of_code_point
              (Z.shiftl (Z.land b 15) 12 + Z.shiftl (cont (byte_of a1)) 6
               + cont (byte_of a2)) ++ js r2
        | _ => [65533]
        end
      else
        match r with
        | String a1 (String a2 (String a3 r3)) =>
            units_of_code_point
              (Z.shiftl (Z.land b 7) 18 + Z.shiftl (cont (byte_of a1)) 12
               + Z.shiftl (cont (byte_of a2)) 6 + cont (byte_of a3)) ++ js r3
        | _ => [65533]
        end
  end.
Arguments js s%_string.

(** ** Code units the code tests for *)

Definition ch_tab := 9.
Definition ch_lf := 10.
Definition ch_cr := 13.
Definition ch_space := 32.
Definition ch_quote := 34.  (* double quote *)
Definition ch_comma := 44.  (* comma *)
Definition ch_colon := 58.  (* colon *)
Definition ch_question := 63.  (* question mark *)
Definition ch_lbracket := 91.  (* opening bracket *)
Definition ch_backslash := 92.  (* backslash *)
Definition ch_rbracket := 93.  (* closing bracket *)
Definition ch_underscore := 95.  (* underscore *)
Definition ch_backtick := 96.  (* backtick *)
Definition ch_lbrace := 123.  (* opening brace *)
Definition ch_rbrace := 125.  (* closing brace *)

(** Equality of strings, [===] on two strings. *)
Fixpoint str_eqb (a b : jsstring) : bool :=
  match a, b with
  | [], [] => true
  | x :: a', y :: b' => (x =? y) && str_eqb a' b'
  | _, _ => false
  end.

(** ** White space

    [is_space] is the class [\s] of a regular expression, which is also what
    [trim] and [trimEnd] remove: WhiteSpace and LineTerminator. *)
Definition is_space (c : Z) : bool :=
  ((9 <=? c) && (c <=? 13)) || (c =? 32) || (c =? 160) || (c =? 5760)
  || ((8192 <=? c) && (c <=? 8202)) || (c =? 8232) || (c =? 8233)
  || (c =? 8239) || (c =? 8287) || (c =? 12288) || (c =? 65279).

Fixpoint dropWhile (p : Z -> bool) (s : jsstring) : jsstring :=
  match s with
  | [] => []
  | c :: t => if p c then dropWhile p t else s
  end.

Fixpoint takeWhile (p : Z -> bool) (s : jsstring) : jsstring :=
  match s with
  | [] => []
  | c :: t => if p c then c :: takeWhile p t else []
  end.

Definition trimStart (s : jsstring) : jsstring := dropWhile is_space s.
Definition trimEnd (s : jsstring) : jsstring := rev (dropWhile is_space (rev s)).
Definition trim (s : jsstring) : jsstring := trimEnd (trimStart s).

(** ** Prefixes, suffixes, substrings *)

Fixpoint startsWith (p s : jsstring) : bool :=
  match p, s with
  | [], _ => true
  | x :: p', y :: s' => (x =? y) && startsWith p' s'
  | _ :: _, [] => false
  end.

Definition endsWith (p s : jsstring) : bool := startsWith (rev p) (rev s).

(** [s.includes(p)] *)
Fixpoint includes (p s : jsstring) : bool :=
  startsWith p s ||
  match s with
  | [] => false
  | _ :: t => includes p t
  end.

(** [s.slice(0, n)] and [s.slice(n)] for [0 <= n]. *)
Definition slice_to (n : nat) (s : jsstring) : jsstring := firstn n s.
Definition slice_from (n : nat) (s : jsstring) : jsstring := skipn n s.

(** [xs.join(sep)] on strings. *)
Fixpoint join (sep : jsstring) (xs : list jsstring) : jsstring :=
  match xs with
  | [] => []
  | [x] => x
  | x :: r => x ++ sep ++ join sep r
  end.

(** Decimal digits of a natural number, as [String(n)] prints an index or a
    length. *)
Fixpoint digits_of_uint (d : Decimal.uint) : jsstring :=
  match d with
  | Decimal.Nil => []
  | Decimal.D0 r => 48 :: digits_of_uint r
  | Decimal.D1 r => 49 :: digits_of_uint r
  | Decimal.D2 r => 50 :: digits_of_uint r
  | Decimal.D3 r => 51 :: digits_of_uint r
  | Decimal.D4 r => 52 :: digits_of_uint r
  | Decimal.D5 r => 53 :: digits_of_uint r
  | Decimal.D6 r => 54 :: digits_of_uint r
  | Decimal.D7 r => 55 :: digits_of_uint r
  | Decimal.D8 r => 56 :: digits_of_uint r
  | Decimal.D9 r => 57 :: digits_of_uint r
  end.

Definition decimal (n : nat) : jsstring :=
  match Nat.to_uint n with
  | Decimal.Nil => [48]
  | d => digits_of_uint d
  end.

End JsString.
Export JsString.

(* ================================================================== *)
(** * JSON values and the builtin [JSON.parse] *)
(* ================================================================== *)

Module Json.

(** The values the documents are made of: the values of JSON, and
    [undefined], which [JSON.parse] never answers but which a missing property
    reads as.  [JObj props] is the object written [{k1: v1, k2: v2, ...}]: as
    in an object literal, a later binding of a key replaces an earlier one.
    [JArr elems props] is an array with its elements and the named properties
    assigned to it afterwards (none when it comes out of [JSON.parse]).  A
    number keeps the text it was written with. *)
Inductive JValue : Type :=
| JUndef
| JNull
| JBool (b : bool)
| JNum (lexeme : jsstring)
| JStr (s : jsstring)
| JArr (elems : list JValue) (props : list (jsstring * JValue))
| JObj (props : list (jsstring * JValue)).

Definition is_container (v : JValue) : bool :=
  match v with
  | JArr _ _ | JObj _ => true
  | _ => false
  end.

(** ** Tokens *)

Inductive token : Type :=
| TLBrace | TRBrace | TLBracket | TRBracket | TComma | TColon
| TStr (s : jsstring)
| TLit (v : JValue).   (* true, false, null or a number *)

Definition is_json_ws (c : Z) : bool :=
  (c =? ch_space) || (c =? ch_tab) || (c =? ch_lf) || (c =? ch_cr).

Definition is_digit (c : Z) : bool := (48 <=? c) && (c <=? 57).

Definition is_letter (c : Z) : bool :=
  ((65 <=? c) && (c <=? 90)) || ((97 <=? c) && (c <=? 122)).

(** The code units a literal or a number is made of: letters, digits, [+],
    [-] and [.]. *)
Definition is_word_char (c : Z) : bool :=
  is_letter c || is_digit c || (c =? 43) || (c =? 45) || (c =? 46).

Definition hex_value (c : Z) : option Z :=
  if is_digit c then Some (c - 48)
  else if (97 <=? c) && (c <=? 102) then Some (c - 87)
  else if (65 <=? c) && (c <=? 70) then Some (c - 55)
  else None.

Definition punct (c : Z) : option token :=
  if c =? ch_lbrace then Some TLBrace
  else if c =? ch_rbrace then Some TRBrace
  else if c =? ch_lbracket then Some TLBracket
  else if c =? ch_rbracket then Some TRBracket
  else if c =? ch_comma then Some TComma
  else if c =? ch_colon then Some TColon
  else None.

(** ** Numbers

    An optional minus sign; then a zero, or a digit from 1 to 9 followed by
    any digits; then, optionally, a dot and one digit or more; then,
    optionally, e or E, an optional sign and one digit or more. *)

Definition nonempty (s : jsstring) : bool :=
  match s with [] => false | _ => true end.

Definition number_exponent (r : jsstring) : bool :=
  match r with
  | [] => true
  | c :: r1 =>
      if (c =? 101) || (c =? 69) then
        let r2 := match r1 with
                  | d :: r' => if (d =? 43) || (d =? 45) then r' else r1
                  | [] => r1
                  end in
        nonempty r2 && forallb is_digit r2
      else false
  end.

Definition number_fraction (r : jsstring) : bool :=
  match r with
  | c :: r1 =>
      if c =? 46 then
        nonempty (takeWhile is_digit r1)
        && number_exponent (dropWhile is_digit r1)
      else number_exponent r
  | [] => true
  end.

Definition number_integer (r : jsstring) : bool :=
  match r with
  | c :: r1 =>
      if c =? 48 then number_fraction r1
      else if is_digit c then number_fraction (dropWhile is_digit r1)
      else false
  | [] => false
  end.

Definition valid_number (w : jsstring) : bool :=
  match w with
  | c :: r => if c =? 45 then number_integer r else number_integer w
  | [] => false
  end.

Definition classify (w : jsstring) : option token :=
  if str_eqb w (js "true") then Some (TLit (JBool true))
  else if str_eqb w (js "false") then Some (TLit (JBool false))
  else if str_eqb w (js "null") then Some (TLit JNull)
  else if valid_number w then Some (TLit (JNum w))
  else None.

(** ** The parser: a stack of the containers that are still open *)

Inductive frame : Type :=
| FArr (done : list JValue)
| FObj (done : list (jsstring * JValue)) (key : jsstring).

Inductive pstate : Type :=
| PValue (st : list frame)                       (* a value must come *)
| PArrOpen (st : list frame)                     (* after an opening bracket *)
| PObjOpen (st : list frame)                     (* after an opening brace *)
| PKey (ms : list (jsstring * JValue)) (st : list frame)     (* after a comma in an object *)
| PColon (ms : list (jsstring * JValue)) (k : jsstring) (st : list frame)
| PAfterArr (es : list JValue) (st : list frame) (* after an element *)
| PAfterObj (ms : list (jsstring * JValue)) (st : list frame)
| PDone (v : JValue).

(** A value is complete: it goes into the innermost open container. *)
Definition value_done (v : JValue) (st : list frame) : pstate :=
  match st with
  | [] => PDone v
  | FArr es :: st' => PAfterArr (es ++ [v]) st'
  | FObj ms k :: st' => PAfterObj (ms ++ [(k, v)]) st'
  end.

Definition feed_value (st : list frame) (t : token) : option pstate :=
  match t with
  | TLit v => Some (value_done v st)
  | TStr s => Some (value_done (JStr s) st)
  | TLBracket => Some (PArrOpen st)
  | TLBrace => Some (PObjOpen st)
  | _ => None
  end.

Definition feed (p : pstate) (t : token) : option pstate :=
  match p, t with
  | PValue st, _ => feed_value st t
  | PArrOpen st, TRBracket => Some (value_done (JArr [] []) st)
  | PArrOpen st, _ => feed_value (FArr [] :: st) t
  | PObjOpen st, TRBrace => Some (value_done (JObj []) st)
  | PObjOpen st, TStr k => Some (PColon [] k st)
  | PKey ms st, TStr k => Some (PColon ms k st)
  | PColon ms k st, TColon => Some (PValue (FObj ms k :: st))
  | PAfterArr es st, TComma => Some (PValue (FArr es :: st))
  | PAfterArr es st, TRBracket => Some (value_done (JArr es []) st)
  | PAfterObj ms st, TComma => Some (PKey ms st)
  | PAfterObj ms st, TRBrace => Some (value_done (JObj ms) st)
  | _, _ => None
  end.

(** ** The lexer, one code unit at a time *)

Inductive lstate : Type :=
| LNormal
| LWord (acc : jsstring)                 (* inside a literal or a number *)
| LStr (acc : jsstring)                  (* inside a string *)
| LEsc (acc : jsstring)                  (* after a backslash *)
| LUni (acc : jsstring) (hs : list Z).   (* after \u, digits read so far *)

Definition jstate : Type := (lstate * pstate)%type.

Definition start_char (p : pstate) (c : Z) : option jstate :=
  if is_json_ws c then Some (LNormal, p)
  else match punct c with
       | Some t => option_map (fun p' => (LNormal, p')) (feed p t)
       | None =>
           if c =? ch_quote then Some (LStr [], p)
           else if is_word_char c then Some (LWord [c], p)
           else None
       end.

Definition end_word (p : pstate) (acc : jsstring) : option pstate :=
  match classify acc with
  | Some t => feed p t
  | None => None
  end.

Definition escape_char (c : Z) : option Z :=
  if c =? ch_quote then Some ch_quote
  else if c =? ch_backslash then Some ch_backslash
  else if c =? 47 then Some 47
  else if c =? 98 then Some 8
  else if c =? 102 then Some 12
  else if c =? 110 then Some 10
  else if c =? 114 then Some 13
  else if c =? 116 then Some 9
  else None.

Definition jstep (s : jstate) (c : Z) : option jstate :=
  let (l, p) := s in
  match l with
  | LNormal => start_char p c
  | LWord acc =>
      if is_word_char c then Some (LWord (acc ++ [c]), p)
      else match end_word p acc with
           | Some p' => start_char p' c
           | None => None
           end
  | LStr acc =>
      if c =? ch_quote then option_map (fun p' => (LNormal, p')) (feed p (TStr acc))
      else if c =? ch_backslash then Some (LEsc acc, p)
      else if c <? 32 then None
      else Some (LStr (acc ++ [c]), p)
  | LEsc acc =>
      if c =? 117 then Some (LUni acc [], p)
      else match escape_char c with
           | Some e => Some (LStr (acc ++ [e]), p)
           | None => None
           end
  | LUni acc hs =>
      match hex_value c with
      | Some h =>
          match hs with
          | [h1; h2; h3] =>
              Some (LStr (acc ++ [((h1 * 16 + h2) * 16 + h3) * 16 + h]), p)
          | _ => Some (LUni acc (hs ++ [h]), p)
          end
      | None => None
      end
  end.

Fixpoint jrun (s : jstate) (text : jsstring) : option jstate :=
  match text with
  | [] => Some s
  | c :: t => match jstep s c with
              | Some s' => jrun s' t
              | None => None
              end
  end.

Definition jfinish (s : jstate) : option JValue :=
  let (l, p) := s in
  match l with
  | LNormal => match p with PDone v => Some v | _ => None end
  | LWord acc => match end_word p acc with
                 | Some (PDone v) => Some v
                 | _ => None
                 end
  | _ => None
  end.

Definition jinit : jstate := (LNormal, PValue []).

(** [JSON.parse(text)]: [None] stands for the [SyntaxError] it throws. *)
Definition JSON_parse (text : jsstring) : option JValue :=
  match jrun jinit text with
  | Some s => jfinish s
  | None => None
  end.

End Json.
Export Json.

(** Test inputs are written with an apostrophe where the JSON text has a
    double quote: [jsq "{'a':1}"] is the text [{"a":1}]. *)
Definition jsq (s : string) : jsstring :=
  map (fun c => if c =? 39 then ch_quote else c) (js s).
Arguments jsq s%_string.

(* ================================================================== *)
(** * Errors *)
(* ================================================================== *)

(** What the code can throw. *)
Inductive exn : Type :=
| ErrNonString        (* Error: parseJSON, the input is not a string *)
| ErrNoJson           (* Error: no JSON found in the answer *)
| ErrSyntax           (* the SyntaxError of JSON.parse *)
| ErrType             (* a TypeError of the language *)
| ErrNoPrositAller    (* Error of agent 2: no Prosit Aller in memory *)
| ErrExternal (n : nat).  (* thrown by callLLM, a generator or the file system *)

Definition result (A : Type) : Type := (exn + A)%type.

Definition rbind {A C} (r : result A) (k : A -> result C) : result C :=
  match r with
  | inl e => inl e
  | inr a => k a
  end.

(** [f] on the elements in turn, up to the first that throws. *)
Definition map_result {A C} (f : A -> result C) : list A -> result (list C) :=
  fix go (l : list A) : result (list C) :=
    match l with
    | [] => inr []
    | a :: r =>
        match f a with
        | inl e => inl e
        | inr c => match go r with
                   | inl e => inl e
                   | inr cs => inr (c :: cs)
                   end
        end
    end.

Declare Scope result_scope.
Delimit Scope result_scope with result.
Notation "'let?' x ':=' r 'in' k" := (rbind r (fun x => k))
  (at level 10, x name, r at level 100, k at level 200) : result_scope.

(* ================================================================== *)
(** * Regular expressions *)
(* ================================================================== *)

Module Regex.

(** A pattern is given by what it matches at a position: knowing whether the
    position is the start of the input, and the text from the position on, it
    answers the length of the match there.  Every pattern of the program
    is matched by at least one code unit. *)
Definition pattern : Type := bool -> jsstring -> option nat.

(** [s.replace(re, ...)] with a global [re]: the matches are taken from left
    to right, each search resuming after the previous match; [skip] counts
    the code units of the current match still to pass. *)
Fixpoint replace_from (re : pattern) (rep : jsstring -> jsstring)
    (at_start : bool) (skip : nat) (s : jsstring) : jsstring :=
  match s with
  | [] => []
  | c :: t =>
      match skip with
      | S k => replace_from re rep false k t
      | O =>
          match re at_start s with
          | Some (S n) => rep (firstn (S n) s) ++ replace_from re rep false n t
          | _ => c :: replace_from re rep false 0 t
          end
      end
  end.

Definition replace_all (re : pattern) (rep : jsstring -> jsstring)
    (s : jsstring) : jsstring :=
  replace_from re rep true 0 s.

(** [s.replace(re, ...)] with a [re] that is not global: the leftmost match
    only. *)
Fixpoint replace_first_from (re : pattern) (rep : jsstring -> jsstring)
    (at_start : bool) (s : jsstring) : jsstring :=
  match s with
  | [] => []
  | c :: t =>
      match re at_start s with
      | Some (S n) => rep (firstn (S n) s) ++ skipn n t
      | _ => c :: replace_first_from re rep false t
      end
  end.

Definition replace_first (re : pattern) (rep : jsstring -> jsstring)
    (s : jsstring) : jsstring :=
  replace_first_from re rep true s.

(** [re.test(s)]: is there a match anywhere. *)
Fixpoint test_from (re : pattern) (at_start : bool) (s : jsstring) : bool :=
  match s with
  | [] => false
  | _ :: t =>
      match re at_start s with
      | Some (S _) => true
      | _ => test_from re false t
      end
  end.

Definition regex_test (re : pattern) (s : jsstring) : bool :=
  test_from re true s.

(** A sequence of classes of code units at the start of [s]: what follows
    the code units they match. *)
Fixpoint match_units (units : list (Z -> bool)) (s : jsstring)
  : option jsstring :=
  match units with
  | [] => Some s
  | p :: units' =>
      match s with
      | c :: t => if p c then match_units units' t else None
      | [] => None
      end
  end.

End Regex.
Export Regex.

(* ================================================================== *)
(** * parse_json.js *)
(* ================================================================== *)

Module ParseJson.

Definition is_opener (c : Z) : bool := (c =? ch_lbrace) || (c =? ch_lbracket).
Definition is_closer (c : Z) : bool := (c =? ch_rbrace) || (c =? ch_rbracket).

(** [c] is the letter [lower] in either case. *)
Definition ci (lower c : Z) : bool := (c =? lower) || (c =? lower - 32).

Definition is_backtick (c : Z) : bool := c =? ch_backtick.

Definition fence_units : list (Z -> bool) :=
  [is_backtick; is_backtick; is_backtick].

Definition json_fence_units : list (Z -> bool) :=
  fence_units ++ [ci 106; ci 115; ci 111; ci 110].

(** The code units of a fence, then any white space. *)
Definition fence_pattern (units : list (Z -> bool)) : pattern := fun _ s =>
  match match_units units s with
  | Some r => Some (length units + length (takeWhile is_space r))%nat
  | None => None
  end.

(** The three backticks, then [json] in any case, then any white space. *)
Definition re_json_fence : pattern := fence_pattern json_fence_units.

(** The three backticks, then any white space. *)
Definition re_fence : pattern := fence_pattern fence_units.

(** A comma, any white space, a closing brace or bracket. *)
Definition re_trailing_comma : pattern := fun _ s =>
  match s with
  | c :: r =>
      if c =? ch_comma then
        match dropWhile is_space r with
        | d :: _ => if is_closer d
                    then Some (2 + length (takeWhile is_space r))%nat
                    else None
        | [] => None
        end
      else None
  | [] => None
  end.

(** The replacement [$1] of [re_trailing_comma]: the closing brace or bracket
    that ends the match. *)
Definition group_closer (m : jsstring) : jsstring :=
  match rev m with
  | d :: _ => [d]
  | [] => []
  end.

(** A comma, then white space up to the end of the input. *)
Definition re_comma_end : pattern := fun _ s =>
  match s with
  | c :: r => if (c =? ch_comma) && forallb is_space r
              then Some (length s) else None
  | [] => None
  end.

(** A colon, then white space up to the end of the input. *)
Definition re_colon_end : pattern := fun _ s =>
  match s with
  | c :: r => if (c =? ch_colon) && forallb is_space r
              then Some (length s) else None
  | [] => None
  end.

(** A double quote with no other double quote up to the end of the input. *)
Definition re_open_string : pattern := fun _ s =>
  match s with
  | c :: r => if (c =? ch_quote) && forallb (fun d => negb (d =? ch_quote)) r
              then Some (length s) else None
  | [] => None
  end.

Definition erase (_ : jsstring) : jsstring := [].

(** [s.search(/[{\[]/)]: [None] stands for -1. *)
Fixpoint search_opener (s : jsstring) : option nat :=
  match s with
  | [] => None
  | c :: t => if is_opener c then Some O else option_map S (search_opener t)
  end.

(** ** repairTruncated *)

(** The loop of [repairTruncated]; the top of [stack] is its head.  The
    answer is [result] and [stack] when the loop ends. *)
Fixpoint repair_loop (s : jsstring) (stack : list Z) (inStr escape : bool)
    (result : jsstring) : jsstring * list Z :=
  match s with
  | [] => (result, stack)
  | c :: t =>
      let result := result ++ [c] in
      if escape then repair_loop t stack inStr false result
      else if c =? ch_backslash then repair_loop t stack inStr true result
      else if c =? ch_quote then
        let inStr := negb inStr in
        if negb inStr && (length stack =? 0)%nat then (result, stack)
        else repair_loop t stack inStr false result
      else if inStr then repair_loop t stack inStr false result
      else if c =? ch_lbrace then
        repair_loop t (ch_rbrace :: stack) inStr false result
      else if c =? ch_lbracket then
        repair_loop t (ch_rbracket :: stack) inStr false result
      else if ((c =? ch_rbrace) || (c =? ch_rbracket))
              && (0 <? length stack)%nat then
        repair_loop t (tl stack) inStr false result
      else repair_loop t stack inStr false result
  end.

Definition repairTruncated (s : jsstring) : jsstring :=
  let (result, stack) := repair_loop s [] false false [] in
  let result :=
    replace_first re_open_string (fun _ => jsq "'...'")
      (replace_first re_colon_end (fun _ => jsq ": ''")
         (replace_first re_comma_end erase (trimEnd result))) in
  result ++ stack.

(** ** parseJSON *)

(** The bracket-matching loop: the index [end], [None] for -1.  [s] is the
    text from index [i] on. *)
Fixpoint find_end (opener closer : Z) (s : jsstring) (i : nat) (depth : Z)
    (inStr escape : bool) : option nat :=
  match s with
  | [] => None
  | c :: t =>
      if escape then find_end opener closer t (S i) depth inStr false
      else if c =? ch_backslash then
        find_end opener closer t (S i) depth inStr true
      else if c =? ch_quote then
        find_end opener closer t (S i) depth (negb inStr) false
      else if inStr then find_end opener closer t (S i) depth inStr false
      else
        let depth :=
          if (c =? opener) || (c =? ch_lbrace) || (c =? ch_lbracket)
          then depth + 1 else depth in
        if (c =? closer) || (c =? ch_rbrace) || (c =? ch_rbracket) then
          let depth := depth - 1 in
          if depth =? 0 then Some i
          else find_end opener closer t (S i) depth inStr false
        else find_end opener closer t (S i) depth inStr false
  end.

Definition strip_trailing_commas (s : jsstring) : jsstring :=
  replace_all re_trailing_comma group_closer s.

Definition strip_fences (raw : jsstring) : jsstring :=
  trim (replace_all re_fence erase (replace_all re_json_fence erase raw)).

(** [parseJSON(raw)] for a string [raw] (callLLM answers a string, so the
    first [throw] of the function is not reached from the agents). *)
Definition parseJSON (raw : jsstring) : result JValue :=
  let s := strip_fences raw in
  match search_opener s with
  | None => inl ErrNoJson
  | Some start =>
      let s := slice_from start s in
      let opener := hd 0 s in
      let closer := if opener =? ch_lbrace then ch_rbrace else ch_rbracket in
      let s :=
        match find_end opener closer s 0 0 false false with
        | None => repairTruncated s
        | Some e => slice_to (e + 1) s
        end in
      let s := strip_trailing_commas s in
      match JSON_parse s with
      | Some v => inr v
      | None =>
          let s := strip_trailing_commas (repairTruncated s) in
          match JSON_parse s with
          | Some v => inr v
          | None => inl ErrSyntax
          end
      end
  end.

End ParseJson.
Export ParseJson.

(* ================================================================== *)
(** * Operations of the language on values *)
(* ================================================================== *)

(** The builtins that rest on the tables of Unicode or on the arithmetic of
    doubles are parameters: [toLowerCase] and [normalize("NFD")] of a string,
    [String(x)] and the truth value of a number given by its text.  The
    theorems hold whatever they answer. *)
Class Builtins : Type := {
  toLowerCase : jsstring -> jsstring;
  normalizeNFD : jsstring -> jsstring;
  number_to_string : jsstring -> jsstring;
  number_truthy : jsstring -> bool
}.

Module Value.

Section WithBuiltins.
Context {B : Builtins}.

(** [!!v] *)
Definition truthy (v : JValue) : bool :=
  match v with
  | JUndef | JNull => false
  | JBool b => b
  | JNum n => number_truthy n
  | JStr s => nonempty s
  | JArr _ _ | JObj _ => true
  end.

(** [a || b] *)
Definition or_else (a b : JValue) : JValue := if truthy a then a else b.

(** [a ?? b] *)
Definition nullish (a b : JValue) : JValue :=
  match a with
  | JUndef | JNull => b
  | _ => a
  end.

Definition isArray (v : JValue) : bool :=
  match v with JArr _ _ => true | _ => false end.

Definition is_string (v : JValue) : bool :=
  match v with JStr _ => true | _ => false end.

(** [typeof v === "object"] *)
Definition typeof_object (v : JValue) : bool :=
  match v with JNull | JArr _ _ | JObj _ => true | _ => false end.

Fixpoint index_props (i : nat) (xs : list JValue) : list (jsstring * JValue) :=
  match xs with
  | [] => []
  | x :: r => (decimal i, x) :: index_props (S i) r
  end.

(** The own enumerable properties of a value, in the order they were
    written. *)
Definition own_props (v : JValue) : list (jsstring * JValue) :=
  match v with
  | JObj ps => ps
  | JArr es ps => index_props 0 es ++ ps
  | JStr s => index_props 0 (map (fun c => JStr [c]) s)
  | _ => []
  end.

(** The value bound to [k] in a list of bindings: the last one. *)
Fixpoint lookup (k : jsstring) (ps : list (jsstring * JValue)) : JValue :=
  match ps with
  | [] => JUndef
  | (k', v) :: r =>
      if existsb (fun kv => str_eqb k (fst kv)) r then lookup k r
      else if str_eqb k k' then v else JUndef
  end.

(** [v[k]] and [v.k] for a [v] that is neither [null] nor [undefined], read
    among the own enumerable properties of [v].  This is what the code reads
    at the fixed field names of the documents, the only names it uses: none
    of them is the [length] of an array or of a string (which [length_of]
    reads) or a member of a prototype. *)
Definition prop (v : JValue) (k : jsstring) : JValue := lookup k (own_props v).

(** [v?.k] *)
Definition opt_prop (v : JValue) (k : jsstring) : JValue :=
  match v with
  | JUndef | JNull => JUndef
  | _ => prop v k
  end.

(** The first occurrences, as a [Set] keeps them. *)
Fixpoint dedupe (xs : list jsstring) : list jsstring :=
  match xs with
  | [] => []
  | x :: r => x :: filter (fun y => negb (str_eqb x y)) (dedupe r)
  end.

(** [Object.keys(v)], which throws on [null] and [undefined].  The keys
    come in the order they were written (JavaScript lists the keys that are
    array indices first; the code only counts the keys and tests them one
    by one). *)
Definition Object_keys (v : JValue) : result (list jsstring) :=
  match v with
  | JUndef | JNull => inl ErrType
  | _ => inr (dedupe (map fst (own_props v)))
  end.

(** [{...a, ...b}] *)
Definition spread (a b : JValue) : JValue := JObj (own_props a ++ own_props b).

(** [v.theme = x] in strict mode, for the documents the agents build. *)
Definition assign_theme (v x : JValue) : result JValue :=
  match v with
  | JObj ps => inr (JObj (ps ++ [(js "theme", x)]))
  | JArr es ps => inr (JArr es (ps ++ [(js "theme", x)]))
  | _ => inl ErrType
  end.

(** The list of bindings has one for [k]. *)
Definition has_key (k : jsstring) (ps : list (jsstring * JValue)) : bool :=
  existsb (fun kv => str_eqb k (fst kv)) ps.

(** [String(v)], also the conversion inside a template and the one of [+].
    An object converts through its method [toString]: an own property of
    that name, which is no function, hides the method, and the conversion
    throws.  An array converts through [join], its elements in turn. *)
Fixpoint to_string (v : JValue) : result jsstring :=
  match v with
  | JUndef => inr (js "undefined")
  | JNull => inr (js "null")
  | JBool true => inr (js "true")
  | JBool false => inr (js "false")
  | JNum n => inr (number_to_string n)
  | JStr s => inr s
  | JArr es ps =>
      if has_key (js "toString") ps then inl ErrType
      else if has_key (js "join") ps then inr (js "[object Array]")
      else
        match map_result (fun e => match e with
                                   | JUndef | JNull => inr []
                                   | _ => to_string e
                                   end) es with
        | inl e => inl e
        | inr l => inr (join (js ",") l)
        end
  | JObj ps =>
      if has_key (js "toString") ps then inl ErrType
      else inr (js "[object Object]")
  end.

(** The values a template converts, in turn: it is built or it throws. *)
Definition template (vs : list JValue) : result unit :=
  match map_result to_string vs with
  | inl e => inl e
  | inr _ => inr tt
  end.

(** [v.length] for a [v] that is neither [null] nor [undefined]. *)
Definition length_of (v : JValue) : JValue :=
  match v with
  | JArr es _ => JNum (decimal (length es))
  | JStr s => JNum (decimal (length s))
  | _ => prop v (js "length")
  end.

(** [(v || []).length] *)
Definition list_length (v : JValue) : JValue :=
  length_of (or_else v (JArr [] [])).

(** [v?.join(sep)] calls [join], which only an array has: on any other
    value but [null] and [undefined] the call throws; on an array the
    elements are converted. *)
Definition opt_join (v : JValue) : result unit :=
  match v with
  | JUndef | JNull => inr tt
  | JArr es ps =>
      if has_key (js "join") ps then inl ErrType
      else template (map (fun e => match e with
                                   | JUndef | JNull => JStr []
                                   | _ => e
                                   end) es)
  | _ => inl ErrType
  end.

End WithBuiltins.
End Value.
Export Value.

(* ================================================================== *)
(** * The structural validator of the agents *)
(* ================================================================== *)

Module Validation.

Record rule : Type := {
  field : jsstring;
  check : JValue -> result bool;
  msg : jsstring
}.

Record ValidationResult : Type := {
  valid : bool;
  errors : list jsstring;
  score : Z
}.

(** [d => Array.isArray(d) && d.length >= n] *)
Definition array_min (n : nat) (d : JValue) : result bool :=
  inr (match d with
       | JArr es _ => (n <=? length es)%nat
       | _ => false
       end).

(** [d => typeof d === "string" && d.length >= n] *)
Definition string_min (n : nat) (d : JValue) : result bool :=
  inr (match d with
       | JStr s => (n <=? length s)%nat
       | _ => false
       end).

(** [d => typeof d === "string" && d.trim().endsWith("?")] *)
Definition ends_with_question (d : JValue) : result bool :=
  inr (match d with
       | JStr s => endsWith [ch_question] (trim s)
       | _ => false
       end).

(** [d => typeof d === "object" && Object.keys(d).length >= n] *)
Definition object_min_keys (n : nat) (d : JValue) : result bool :=
  if typeof_object d then
    match Object_keys d with
    | inl e => inl e
    | inr ks => inr (n <=? length ks)%nat
    end
  else inr false.

(** [Math.round(x)] for a double [x]: the integer nearest to [x], the upper
    one of two.  The double is read exactly, as mantissa and exponent. *)
Definition Math_round (x : float) : Z :=
  match Prim2SF x with
  | S754_finite neg m e =>
      let v := if neg then Z.neg m else Z.pos m in
      if 0 <=? e then Z.shiftl v e
      else let d := Z.shiftl 1 (- e) in (2 * v + d) / (2 * d)
  | _ => 0
  end.

Definition float_of_nat (n : nat) : float :=
  PrimFloat.of_uint63 (Uint63.of_Z (Z.of_nat n)).

(** [Math.round(((total - failed) / total) * 100)] on doubles. *)
Definition score_of (total failed : nat) : Z :=
  Math_round
    (PrimFloat.mul
       (PrimFloat.div (PrimFloat.sub (float_of_nat total) (float_of_nat failed))
                      (float_of_nat total))
       (float_of_nat 100)).

(** [rules.filter(r => !r.check(data[r.field] ?? ""))]: the checks run in
    the order of the rules, and a check that throws ends the filter. *)
Fixpoint failing (rules : list rule) (data : JValue) : result (list rule) :=
  match rules with
  | [] => inr []
  | r :: rs =>
      match check r (nullish (prop data (field r)) (JStr [])) with
      | inl e => inl e
      | inr ok =>
          match failing rs data with
          | inl e => inl e
          | inr l => inr (if ok then l else r :: l)
          end
      end
  end.

(** The text of an error: the field between brackets, a space, the message
    of the rule. *)
Definition error_text (r : rule) : jsstring :=
  js "[" ++ field r ++ js "] " ++ msg r.

(** The body the three [validate_structure] share, for their list of rules.
    Reading a field of [null] or [undefined] throws. *)
Definition validate (rules : list rule) (data : JValue)
  : result ValidationResult :=
  match data with
  | JUndef | JNull => inl ErrType
  | _ =>
      match failing rules data with
      | inl e => inl e
      | inr bad =>
          let errors := map error_text bad in
          inr {| valid := (length errors =? 0)%nat;
                 errors := errors;
                 score := score_of (length rules) (length errors) |}
      end
  end.

End Validation.
Export Validation.

(* ================================================================== *)
(** * Shared memory, the environment and the effects of a run *)
(* ================================================================== *)

Module Run.

Inductive agent_name : Type := orchestrator | agent1 | agent2 | agent3.

Inductive log_type : Type := thought | action | observation | result_.

(** An entry of [memory.logs].  The text of the message and the time stamp
    are left out; where building the text converts values of a document,
    which can throw, the agents say so with [template] and [opt_join]. *)
Record LogEntry : Type := { agent : agent_name; type : log_type }.

Record Files : Type := {
  file_prositAller : option jsstring;
  file_prositRetour : option jsstring;
  file_cer : option jsstring
}.

(** The object [createMemory] builds, without [startedAt]. *)
Record Memory : Type := {
  theme : jsstring;
  rawInput : jsstring;
  student : jsstring;
  promotion : jsstring;
  annee : jsstring;
  slug : jsstring;
  outputDir : jsstring;
  prositAller : JValue;
  prositRetour : JValue;
  cer : JValue;
  files : Files;
  logs : list LogEntry;
  coherenceWarnings : list jsstring
}.

Inductive document : Type := doc_prositAller | doc_prositRetour | doc_cer.

(** What is outside the program: the answer of the model to its n-th call
    (a text, or what [callLLM] throws), whether a generator throws, and
    whether [fs.mkdirSync] throws. *)
Record Env : Type := {
  llm : nat -> result jsstring;
  generator : document -> option exn;
  mkdir : option exn
}.

(** The state of a run: the shared memory, the number of calls made to the
    model, and the messages given to [onStep]. *)
Record World : Type := {
  memory : Memory;
  llm_calls : nat;
  steps : nat
}.

(** A computation that reads the environment, changes the state and answers
    or throws; the state reached when it throws is kept, as the object
    [memory] keeps what was written into it. *)
Definition M (A : Type) : Type := Env -> World -> result A * World.

Definition ret {A} (a : A) : M A := fun _ w => (inr a, w).

Definition throw {A} (e : exn) : M A := fun _ w => (inl e, w).

Definition bind {A C} (m : M A) (k : A -> M C) : M C :=
  fun env w =>
    match m env w with
    | (inl e, w') => (inl e, w')
    | (inr a, w') => k a env w'
    end.

Definition lift {A} (r : result A) : M A :=
  match r with
  | inl e => throw e
  | inr a => ret a
  end.

Definition get_memory : M Memory := fun _ w => (inr (memory w), w).

Definition update_memory (f : Memory -> Memory) : M unit :=
  fun _ w => (inr tt, {| memory := f (memory w);
                         llm_calls := llm_calls w;
                         steps := steps w |}).

Definition when (b : bool) (m : M unit) : M unit := if b then m else ret tt.

(** [await callLLM(...)]: the next answer of the model. *)
Definition callLLM : M jsstring :=
  fun env w =>
    (llm env (llm_calls w),
     {| memory := memory w; llm_calls := S (llm_calls w); steps := steps w |}).

(** [await generate...(doc, memory, outputPath)] *)
Definition generate (d : document) : M unit :=
  fun env w =>
    match generator env d with
    | Some e => (inl e, w)
    | None => (inr tt, w)
    end.

(** ** Writes to the memory *)

Definition set_prositAller (v : JValue) (m : Memory) : Memory :=
  {| theme := theme m; rawInput := rawInput m; student := student m;
     promotion := promotion m; annee := annee m; slug := slug m;
     outputDir := outputDir m; prositAller := v;
     prositRetour := prositRetour m; cer := cer m; files := files m;
     logs := logs m; coherenceWarnings := coherenceWarnings m |}.

Definition set_prositRetour (v : JValue) (m : Memory) : Memory :=
  {| theme := theme m; rawInput := rawInput m; student := student m;
     promotion := promotion m; annee := annee m; slug := slug m;
     outputDir := outputDir m; prositAller := prositAller m;
     prositRetour := v; cer := cer m; files := files m;
     logs := logs m; coherenceWarnings := coherenceWarnings m |}.

Definition set_cer (v : JValue) (m : Memory) : Memory :=
  {| theme := theme m; rawInput := rawInput m; student := student m;
     promotion := promotion m; annee := annee m; slug := slug m;
     outputDir := outputDir m; prositAller := prositAller m;
     prositRetour := prositRetour m; cer := v; files := files m;
     logs := logs m; coherenceWarnings := coherenceWarnings m |}.

Definition set_files (f : Files) (m : Memory) : Memory :=
  {| theme := theme m; rawInput := rawInput m; student := student m;
     promotion := promotion m; annee := annee m; slug := slug m;
     outputDir := outputDir m; prositAller := prositAller m;
     prositRetour := prositRetour m; cer := cer m; files := f;
     logs := logs m; coherenceWarnings := coherenceWarnings m |}.

Definition set_file (d : document) (path : jsstring) (m : Memory) : Memory :=
  let f := files m in
  set_files
    match d with
    | doc_prositAller =>
        {| file_prositAller := Some path;
           file_prositRetour := file_prositRetour f; file_cer := file_cer f |}
    | doc_prositRetour =>
        {| file_prositAller := file_prositAller f;
           file_prositRetour := Some path; file_cer := file_cer f |}
    | doc_cer =>
        {| file_prositAller := file_prositAller f;
           file_prositRetour := file_prositRetour f; file_cer := Some path |}
    end m.

(** [memory.logs.push(entry)] *)
Definition push_log (e : LogEntry) (m : Memory) : Memory :=
  {| theme := theme m; rawInput := rawInput m; student := student m;
     promotion := promotion m; annee := annee m; slug := slug m;
     outputDir := outputDir m; prositAller := prositAller m;
     prositRetour := prositRetour m; cer := cer m; files := files m;
     logs := logs m ++ [e]; coherenceWarnings := coherenceWarnings m |}.

(** [memory.coherenceWarnings.push(...issues)] *)
Definition push_warnings (issues : list jsstring) (m : Memory) : Memory :=
  {| theme := theme m; rawInput := rawInput m; student := student m;
     promotion := promotion m; annee := annee m; slug := slug m;
     outputDir := outputDir m; prositAller := prositAller m;
     prositRetour := prositRetour m; cer := cer m; files := files m;
     logs := logs m; coherenceWarnings := coherenceWarnings m ++ issues |}.

(** [path.join(dir, name)], without the normalisation of the result. *)
Definition path_join (dir name : jsstring) : jsstring := dir ++ js "/" ++ name.

End Run.
Export Run.

Declare Scope run_scope.
Delimit Scope run_scope with run.
Bind Scope run_scope with M.
Notation "x <- m ;; k" := (bind m (fun x => k))
  (at level 61, m at next level, right associativity) : run_scope.
Notation "m ;; k" := (bind m (fun _ => k))
  (at level 61, right associativity) : run_scope.

Local Open Scope run_scope.
Local Open Scope result_scope.

(* ================================================================== *)
(** * agents/agent1_prosit_aller.js *)
(* ================================================================== *)

Module Agent1.

Section WithBuiltins.
Context {B : Builtins}.

Definition rules : list rule := [
  {| field := js "mots_cles";          check := array_min 6;
     msg := js "≥6 mots clés requis" |};
  {| field := js "contexte";           check := string_min 100;
     msg := js "contexte trop court (≥100 car.)" |};
  {| field := js "definition_besoins"; check := array_min 2;
     msg := js "≥2 besoins requis" |};
  {| field := js "problematique";      check := ends_with_question;
     msg := js "doit être une question (finir par ?)" |};
  {| field := js "contraintes";        check := array_min 3;
     msg := js "≥3 contraintes requises" |};
  {| field := js "generalisation";     check := string_min 20;
     msg := js "généralisation trop courte" |};
  {| field := js "pistes_solution";    check := array_min 2;
     msg := js "≥2 pistes de solution requises" |};
  {| field := js "plan_action";        check := array_min 4;
     msg := js "plan d'action : ≥4 étapes" |}
].

Definition validate_structure (data : JValue) : result ValidationResult :=
  validate rules data.

(** The branch [if (!v1.valid) { ... } else { ... }] of [runAgent]: the
    answer is the document the agent goes on with. *)
Definition correction (onLog : log_type -> M unit) (pa : JValue)
    (v1 : ValidationResult) : M JValue :=
  if negb (valid v1) then
    onLog thought ;;
    onLog action ;;
    rawFixed <- callLLM ;;
    fixed <- lift (parseJSON rawFixed) ;;
    let pa := spread pa fixed in
    v2 <- lift (validate_structure pa) ;;
    onLog observation ;;
    onLog thought ;;
    ret pa
  else
    onLog thought ;;
    ret pa.

Definition runAgent (onLog : log_type -> M unit) : M JValue :=
  (* THOUGHT 1 *)
  onLog thought ;;
  onLog thought ;;
  (* ACTION 1 : analysis and planning *)
  onLog action ;;
  rawAnalysis <- callLLM ;;
  analysis <- lift (parseJSON rawAnalysis) ;;
  (* OBSERVATION 1 *)
  lift (template [prop analysis (js "domaine")]) ;;
  lift (opt_join (prop analysis (js "enjeux"))) ;;
  onLog observation ;;
  lift (template [prop analysis (js "angle_problematique")]) ;;
  onLog observation ;;
  (* THOUGHT 2 *)
  onLog thought ;;
  (* ACTION 2 : generation *)
  onLog action ;;
  rawPA <- callLLM ;;
  pa <- lift (parseJSON rawPA) ;;
  mem <- get_memory ;;
  pa <- lift (assign_theme pa
                (or_else (prop pa (js "theme")) (JStr (theme mem)))) ;;
  (* ACTION 3 : validation *)
  onLog action ;;
  v1 <- lift (validate_structure pa) ;;
  (* OBSERVATION 2 *)
  onLog observation ;;
  (* THOUGHT 3 *)
  pa <- correction onLog pa v1 ;;
  (* ACTION 5 : write to the shared memory *)
  update_memory (set_prositAller pa) ;;
  onLog action ;;
  (* ACTION 6 : the DOCX file *)
  mem <- get_memory ;;
  let outputPath :=
    path_join (outputDir mem)
              (js "01_Prosit_Aller_" ++ slug mem ++ js ".docx") in
  onLog action ;;
  generate doc_prositAller ;;
  update_memory (set_file doc_prositAller outputPath) ;;
  (* RESULT *)
  lift (template [list_length (prop pa (js "mots_cles"));
                  list_length (prop pa (js "plan_action"))]) ;;
  onLog result_ ;;
  ret pa.

End WithBuiltins.
End Agent1.

(* ================================================================== *)
(** * agents/agent2_prosit_retour.js *)
(* ================================================================== *)

Module Agent2.

Section WithBuiltins.
Context {B : Builtins}.

Definition rules : list rule := [
  {| field := js "definitions";           check := object_min_keys 4;
     msg := js "≥4 définitions requises" |};
  {| field := js "contexte_rappel";       check := string_min 80;
     msg := js "contexte_rappel trop court" |};
  {| field := js "besoins";               check := array_min 2;
     msg := js "≥2 besoins requis" |};
  {| field := js "contraintes";           check := array_min 2;
     msg := js "≥2 contraintes requises" |};
  {| field := js "problematique";         check := ends_with_question;
     msg := js "problematique doit finir par ?" |};
  {| field := js "validation_hypotheses"; check := array_min 2;
     msg := js "≥2 validations d'hypothèses requises" |};
  {| field := js "plan_action";           check := array_min 3;
     msg := js "≥3 étapes dans le plan d'action" |};
  {| field := js "solutions";             check := array_min 2;
     msg := js "≥2 solutions requises" |};
  {| field := js "bilan";                 check := string_min 60;
     msg := js "bilan trop court" |}
].

Definition validate_structure (data : JValue) : result ValidationResult :=
  validate rules data.

Record CoherenceResult : Type := {
  coherent : bool;
  issues : list jsstring
}.

(** [Array.isArray(v) ? v.length : 0] *)
Definition array_length (v : JValue) : nat :=
  match v with
  | JArr es _ => length es
  | _ => 0%nat
  end.

(** [(v || []).map(m => String(m).toLowerCase())]: only an array has [map]. *)
Definition lowered_keywords (v : JValue) : result (list jsstring) :=
  match or_else v (JArr [] []) with
  | JArr es _ =>
      map_result (fun m => let? t := to_string m in inr (toLowerCase t)) es
  | _ => inl ErrType
  end.

Definition theme_issue (pa pr : JValue) : result jsstring :=
  let? a := to_string (prop pa (js "theme")) in
  let? r := to_string (opt_prop pr (js "theme")) in
  inr (jsq "Thème incohérent : PA='" ++ a ++ jsq "' vs PR='" ++ r ++ jsq "'").

Definition count_issue (prValidations paHypos : nat) : jsstring :=
  js "Nombre de validations (" ++ decimal prValidations
  ++ js ") < pistes PA (" ++ decimal paHypos ++ js ")".

Definition keywords_issue (missing : list jsstring) : jsstring :=
  js "Mots clés PA non définis dans PR : " ++ join (js ", ") (firstn 3 missing).

Definition check_coherence (pa pr : JValue) : result CoherenceResult :=
  if negb (truthy pa) then
    inr {| coherent := false;
           issues := [js "Prosit Aller absent de la mémoire"] |}
  else
    let? paText := to_string (or_else (prop pa (js "theme")) (JStr [])) in
    let paTheme := toLowerCase paText in
    let? prText := to_string (or_else (opt_prop pr (js "theme")) (JStr [])) in
    let prTheme := toLowerCase prText in
    let? issues1 :=
      (if nonempty prTheme && negb (str_eqb prTheme paTheme)
          && negb (includes (slice_to 10 paTheme) prTheme)
       then let? i := theme_issue pa pr in inr [i]
       else inr []) in
    let paHypos := array_length (prop pa (js "pistes_solution")) in
    let prValidations :=
      array_length (opt_prop pr (js "validation_hypotheses")) in
    let issues2 :=
      if (0 <? paHypos)%nat && (0 <? prValidations)%nat
         && (prValidations <? paHypos)%nat
      then [count_issue prValidations paHypos] else [] in
    let? mots := lowered_keywords (prop pa (js "mots_cles")) in
    let paMots := dedupe mots in
    let? ks := Object_keys (or_else (opt_prop pr (js "definitions")) (JObj [])) in
    let prDefs := dedupe (map toLowerCase ks) in
    let missing :=
      filter (fun m =>
                negb (existsb (fun d => includes (slice_to 5 m) d) prDefs))
             paMots in
    let issues3 :=
      if (2 <? length missing)%nat then [keywords_issue missing] else [] in
    let issues := issues1 ++ issues2 ++ issues3 in
    inr {| coherent := (length issues =? 0)%nat; issues := issues |}.

(** The branch [if (!v1.valid) { ... } else { ... }] of [runAgent]. *)
Definition correction (onLog : log_type -> M unit) (pr : JValue)
    (v1 : ValidationResult) : M JValue :=
  if negb (valid v1) then
    onLog thought ;;
    onLog action ;;
    rawFixed <- callLLM ;;
    fixed <- lift (parseJSON rawFixed) ;;
    let pr := spread pr fixed in
    v2 <- lift (validate_structure pr) ;;
    onLog observation ;;
    ret pr
  else
    onLog thought ;;
    ret pr.

Definition runAgent (onLog : log_type -> M unit) : M JValue :=
  (* THOUGHT 1 : reading the memory *)
  mem <- get_memory ;;
  when (negb (truthy (prositAller mem))) (throw ErrNoPrositAller) ;;
  let pa := prositAller mem in
  lift (template [prop pa (js "theme")]) ;;
  onLog thought ;;
  lift (template [list_length (prop pa (js "mots_cles"));
                  list_length (prop pa (js "pistes_solution"))]) ;;
  onLog thought ;;
  (* ACTION 1 : planning *)
  onLog action ;;
  rawPlan <- callLLM ;;
  plan <- lift (parseJSON rawPlan) ;;
  (* OBSERVATION 1 *)
  lift (opt_join (prop plan (js "themes_a_approfondir"))) ;;
  onLog observation ;;
  lift (template [prop plan (js "point_critique")]) ;;
  onLog observation ;;
  (* ACTION 2 : coherence of the Prosit Aller alone *)
  onLog action ;;
  coherence0 <- lift (check_coherence pa JNull) ;;
  onLog observation ;;
  (* THOUGHT 2 *)
  onLog thought ;;
  (* ACTION 3 : generation *)
  onLog action ;;
  lift (opt_join (prop plan (js "themes_a_approfondir"))) ;;
  rawPR <- callLLM ;;
  pr <- lift (parseJSON rawPR) ;;
  pr <- lift (assign_theme pr
                (or_else (prop pr (js "theme")) (prop pa (js "theme")))) ;;
  (* ACTION 4 : validation *)
  onLog action ;;
  v1 <- lift (validate_structure pr) ;;
  onLog observation ;;
  (* ACTION 5 : coherence PA <-> PR *)
  onLog action ;;
  coherence <- lift (check_coherence pa pr) ;;
  (if negb (coherent coherence) then
     onLog observation ;;
     update_memory (push_warnings (issues coherence))
   else
     onLog observation) ;;
  (* THOUGHT 3 *)
  pr <- correction onLog pr v1 ;;
  (* ACTION 7 : write to the shared memory *)
  update_memory (set_prositRetour pr) ;;
  onLog action ;;
  (* ACTION 8 : the PPTX file *)
  mem <- get_memory ;;
  let outputPath :=
    path_join (outputDir mem)
              (js "02_Prosit_Retour_" ++ slug mem ++ js ".pptx") in
  onLog action ;;
  generate doc_prositRetour ;;
  update_memory (set_file doc_prositRetour outputPath) ;;
  (* RESULT *)
  lift (Object_keys (or_else (prop pr (js "definitions")) (JObj []))) ;;
  lift (template [list_length (prop pr (js "validation_hypotheses"));
                  list_length (prop pr (js "solutions"))]) ;;
  onLog result_ ;;
  ret pr.

End WithBuiltins.
End Agent2.

(* ================================================================== *)
(** * agents/agent3_cer.js *)
(* ================================================================== *)

Module Agent3.

Section WithBuiltins.
Context {B : Builtins}.

Definition rules : list rule := [
  {| field := js "contexte";                    check := string_min 100;
     msg := js "contexte trop court (≥100 car.)" |};
  {| field := js "objectifs_savoir";            check := array_min 4;
     msg := js "≥4 objectifs savoir requis" |};
  {| field := js "objectifs_savoir_faire";      check := array_min 4;
     msg := js "≥4 objectifs savoir-faire requis" |};
  {| field := js "besoins";                     check := array_min 2;
     msg := js "≥2 besoins requis" |};
  {| field := js "problematique";               check := ends_with_question;
     msg := js "problematique doit finir par ?" |};
  {| field := js "contraintes";                 check := array_min 3;
     msg := js "≥3 contraintes requises" |};
  {| field := js "realisation";                 check := array_min 3;
     msg := js "≥3 sections de réalisation" |};
  {| field := js "validation_hypotheses";       check := array_min 2;
     msg := js "≥2 validations d'hypothèses" |};
  {| field := js "conclusion";                  check := string_min 100;
     msg := js "conclusion trop courte (≥100 car.)" |};
  {| field := js "synthese";                    check := string_min 200;
     msg := js "synthèse trop courte (≥200 car.)" |};
  {| field := js "methodes_utilisees";          check := array_min 2;
     msg := js "≥2 méthodes/outils" |};
  {| field := js "references_bibliographiques"; check := array_min 3;
     msg := js "≥3 références bibliographiques" |}
].

Definition validate_structure (data : JValue) : result ValidationResult :=
  validate rules data.

(** What [analyze_memory] answers, without the mean of the scores it reads
    back from the text of the log messages (it only goes into a message). *)
Record MemoryAnalysis : Type := {
  source : jsstring;
  warnings : nat;
  richness : jsstring;
  hasPR : bool
}.

Definition analyze_memory (mem : Memory) : result MemoryAnalysis :=
  let hasPR := truthy (prositRetour mem) in
  let hasPA := truthy (prositAller mem) in
  let source :=
    if hasPA && hasPR then js "PA + PR"
    else if hasPR then js "PR seul"
    else if hasPA then js "PA seul"
    else js "mémoire minimale" in
  let warnings := length (coherenceWarnings mem) in
  match (if hasPR then Object_keys (prositRetour mem)
         else if hasPA then Object_keys (prositAller mem)
         else inr []) with
  | inl e => inl e
  | inr ks =>
      let paFields := length ks in
      let richness :=
        if (10 <=? paFields)%nat then js "riche"
        else if (6 <=? paFields)%nat then js "moyenne"
        else js "minimale" in
      inr {| source := source; warnings := warnings;
             richness := richness; hasPR := hasPR |}
  end.

(** The branch [if (!v1.valid) { ... } else { ... }] of [runAgent]. *)
Definition correction (onLog : log_type -> M unit) (cer : JValue)
    (v1 : ValidationResult) : M JValue :=
  if negb (valid v1) then
    onLog thought ;;
    onLog action ;;
    rawFixed <- callLLM ;;
    fixed <- lift (parseJSON rawFixed) ;;
    let cer := spread cer fixed in
    v2 <- lift (validate_structure cer) ;;
    onLog observation ;;
    onLog thought ;;
    ret cer
  else
    onLog thought ;;
    ret cer.

Definition runAgent (onLog : log_type -> M unit) : M JValue :=
  (* THOUGHT 1 : the memory *)
  mem <- get_memory ;;
  let hasPR := truthy (prositRetour mem) in
  let sourceData :=
    if hasPR then prositRetour mem else or_else (prositAller mem) (JObj []) in
  onLog thought ;;
  onLog thought ;;
  (* ACTION 1 : analysis of the memory *)
  onLog action ;;
  memAnalysis <- lift (analyze_memory mem) ;;
  onLog observation ;;
  when (0 <? warnings memAnalysis)%nat (onLog observation) ;;
  (* ACTION 2 : planning *)
  onLog action ;;
  rawPlan <- callLLM ;;
  plan <- lift (parseJSON rawPlan) ;;
  lift (opt_join (prop plan (js "sections_prioritaires"))) ;;
  onLog observation ;;
  lift (template [prop plan (js "niveau_detail");
                  prop plan (js "nombre_objectifs_recommande")]) ;;
  onLog observation ;;
  (* THOUGHT 2 *)
  onLog thought ;;
  (* ACTION 3 : generation *)
  onLog action ;;
  rawCER <- callLLM ;;
  cer <- lift (parseJSON rawCER) ;;
  cer <- lift (assign_theme cer
                 (or_else (or_else (prop cer (js "theme"))
                                   (prop sourceData (js "theme")))
                          (JStr (theme mem)))) ;;
  (* ACTION 4 : validation *)
  onLog action ;;
  v1 <- lift (validate_structure cer) ;;
  onLog observation ;;
  (* THOUGHT 3 *)
  cer <- correction onLog cer v1 ;;
  (* ACTION 6 : write to the shared memory *)
  update_memory (set_cer cer) ;;
  onLog action ;;
  (* ACTION 7 : the DOCX file *)
  mem <- get_memory ;;
  let outputPath :=
    path_join (outputDir mem) (js "03_CER_" ++ slug mem ++ js ".docx") in
  onLog action ;;
  generate doc_cer ;;
  update_memory (set_file doc_cer outputPath) ;;
  (* RESULT *)
  lift (template [list_length (prop cer (js "objectifs_savoir"));
                  list_length (prop cer (js "objectifs_savoir_faire"));
                  list_length (prop cer (js "realisation"));
                  list_length (prop cer (js "references_bibliographiques"))]) ;;
  onLog result_ ;;
  ret cer.

End WithBuiltins.
End Agent3.

(* ================================================================== *)
(** * orchestrator.js *)
(* ================================================================== *)

Module Orchestrator.

Section WithBuiltins.
Context {B : Builtins}.

(** ** createMemory *)

(** The argument of [createMemory].  A field that is a string is the empty
    string when it is not given; a document is [JUndef] when it is not
    given.  [dirname] is the directory of the module. *)
Record Params : Type := {
  p_theme : jsstring;
  p_rawInput : jsstring;
  p_student : jsstring;
  p_promotion : jsstring;
  p_annee : jsstring;
  p_outputDir : jsstring;
  p_prositAller : JValue;
  p_prositRetour : JValue
}.

(** [a || b] on strings *)
Definition str_or (a b : jsstring) : jsstring := if nonempty a then a else b.

Definition is_slug_alnum (c : Z) : bool :=
  ((97 <=? c) && (c <=? 122)) || is_digit c.

(** The combining marks from U+0300 to U+036F. *)
Definition re_combining : pattern := fun _ s =>
  match s with
  | c :: _ => if (768 <=? c) && (c <=? 879) then Some 1%nat else None
  | [] => None
  end.

(** One code unit or more, none of them a lower-case letter or a digit. *)
Definition re_not_alnum : pattern := fun _ s =>
  match s with
  | c :: r =>
      if negb (is_slug_alnum c)
      then Some (1 + length (takeWhile (fun d => negb (is_slug_alnum d)) r))%nat
      else None
  | [] => None
  end.

(** An underscore at the start of the input, or an underscore at its end. *)
Definition re_edge_underscore : pattern := fun at_start s =>
  match s with
  | c :: r =>
      if (c =? ch_underscore) && (at_start || negb (nonempty r))
      then Some 1%nat else None
  | [] => None
  end.

Definition slug_of (theme : jsstring) : jsstring :=
  slice_to 35
    (replace_all re_edge_underscore erase
       (replace_all re_not_alnum (fun _ => [ch_underscore])
          (replace_all re_combining erase
             (normalizeNFD (toLowerCase theme))))).

Definition no_files : Files :=
  {| file_prositAller := None; file_prositRetour := None; file_cer := None |}.

Definition createMemory (dirname : jsstring) (params : Params) : Memory :=
  let theme := str_or (p_theme params) (js "Prosit") in
  {| theme := theme;
     rawInput := str_or (p_rawInput params) [];
     student := str_or (p_student params) (js "MAYACK ETIENNE");
     promotion := str_or (p_promotion params) (js "X2027");
     annee := str_or (p_annee params) (js "2025 – 2026");
     slug := slug_of theme;
     outputDir := str_or (p_outputDir params) (path_join dirname (js "output"));
     prositAller := or_else (p_prositAller params) JNull;
     prositRetour := or_else (p_prositRetour params) JNull;
     cer := JNull;
     files := no_files;
     logs := [];
     coherenceWarnings := [] |}.

(** ** run *)

(** [fs.mkdirSync(memory.outputDir, { recursive: true })] *)
Definition mkdirSync : M unit :=
  fun env w =>
    match mkdir env with
    | Some e => (inl e, w)
    | None => (inr tt, w)
    end.

(** The wrapper [log] of [run]: the entry goes into [memory.logs]. *)
Definition log (a : agent_name) (t : log_type) : M unit :=
  update_memory (push_log {| agent := a; type := t |}).

(** The wrapper [step] of [run]. *)
Definition step : M unit :=
  fun _ w => (inr tt, {| memory := memory w; llm_calls := llm_calls w;
                         steps := S (steps w) |}).

(** What [run] answers: the fields of the memory it reads at its end. *)
Record RunResult : Type := {
  r_prositAller : JValue;
  r_prositRetour : JValue;
  r_cer : JValue;
  r_files : Files;
  r_logs : list LogEntry
}.

(** The decision of the orchestrator, logged before the first agent. *)
Definition prelude : M unit :=
  mkdirSync ;;
  log orchestrator thought ;;
  log orchestrator thought ;;
  log orchestrator observation ;;
  log orchestrator observation.

(** What [run] does around the call of each agent. *)
Definition before_agent1 : M unit :=
  step ;; log orchestrator action.

Definition before_agent2 : M unit :=
  step ;; log orchestrator action.

Definition before_agent3 : M unit :=
  step ;; log orchestrator action.

Definition stage1 (mode : jsstring) : M unit :=
  if str_eqb mode (js "full") then
    before_agent1 ;;
    Agent1.runAgent (log agent1) ;;
    log orchestrator observation
  else
    log orchestrator observation ;;
    step.

Definition stage2 (mode : jsstring) (skipPR : bool) : M unit :=
  if str_eqb mode (js "from_pr") then
    log orchestrator observation ;;
    step
  else if skipPR then
    log orchestrator observation ;;
    step
  else
    before_agent2 ;;
    Agent2.runAgent (log agent2) ;;
    log orchestrator observation.

Definition stage3 : M unit :=
  before_agent3 ;;
  Agent3.runAgent (log agent3) ;;
  log orchestrator observation.

Definition final : M RunResult :=
  log orchestrator result_ ;;
  mem <- get_memory ;;
  when (0 <? length (coherenceWarnings mem))%nat
       (log orchestrator observation) ;;
  mem <- get_memory ;;
  ret {| r_prositAller := prositAller mem;
         r_prositRetour := prositRetour mem;
         r_cer := cer mem;
         r_files := files mem;
         r_logs := logs mem |}.

Definition run (mode : jsstring) (skipPR : bool) : M RunResult :=
  prelude ;;
  stage1 mode ;;
  stage2 mode skipPR ;;
  stage3 ;;
  final.

End WithBuiltins.
End Orchestrator.

(* ================================================================== *)
(** * Builtins for the examples *)
(* ================================================================== *)

Module Latin1.

(** The builtins on the strings of the examples.  [lower] and [nfd] answer
    what [toLowerCase] and [normalize("NFD")] answer on a string whose code
    units are below U+0100, and leave the other code units as they are;
    [plain_number] and [nonzero_number] answer what [String] and [!!] answer
    on a number written as a plain integer. *)

Definition lower_unit (c : Z) : Z :=
  if ((65 <=? c) && (c <=? 90))
     || ((192 <=? c) && (c <=? 222) && negb (c =? 215))
  then c + 32 else c.

Definition lower (s : jsstring) : jsstring := map lower_unit s.

(** The base letter and the combining mark of a letter of Latin-1. *)
Definition decompose_upper (c : Z) : option (Z * Z) :=
  match c with
  | 192 => Some (65, 768) | 193 => Some (65, 769) | 194 => Some (65, 770)
  | 195 => Some (65, 771) | 196 => Some (65, 776) | 197 => Some (65, 778)
  | 199 => Some (67, 807)
  | 200 => Some (69, 768) | 201 => Some (69, 769) | 202 => Some (69, 770)
  | 203 => Some (69, 776)
  | 204 => Some (73, 768) | 205 => Some (73, 769) | 206 => Some (73, 770)
  | 207 => Some (73, 776)
  | 209 => Some (78, 771)
  | 210 => Some (79, 768) | 211 => Some (79, 769) | 212 => Some (79, 770)
  | 213 => Some (79, 771) | 214 => Some (79, 776)
  | 217 => Some (85, 768) | 218 => Some (85, 769) | 219 => Some (85, 770)
  | 220 => Some (85, 776)
  | 221 => Some (89, 769)
  | _ => None
  end.

Definition decompose (c : Z) : jsstring :=
  match decompose_upper c with
  | Some (b, m) => [b; m]
  | None =>
      if c =? 255 then [121; 776]
      else match decompose_upper (c - 32) with
           | Some (b, m) => if (224 <=? c) && (c <=? 253) then [b + 32; m]
                            else [c]
           | None => [c]
           end
  end.

Definition nfd (s : jsstring) : jsstring := flat_map decompose s.

Definition plain_number (n : jsstring) : jsstring := n.

Definition nonzero_number (n : jsstring) : bool :=
  existsb (fun c => (49 <=? c) && (c <=? 57)) n.

End Latin1.

#[export] Instance latin1_builtins : Builtins := {
  toLowerCase := Latin1.lower;
  normalizeNFD := Latin1.nfd;
  number_to_string := Latin1.plain_number;
  number_truthy := Latin1.nonzero_number
}.

(* ================================================================== *)
(** * What the properties are stated with *)
(* ================================================================== *)

(** ** The structural validator *)

(** The check of a rule holds on a document: it answers [true] on the field,
    a missing field being read as the empty string. *)
Definition rule_holds (r : rule) (data : JValue) : bool :=
  match check r (nullish (prop data (field r)) (JStr [])) with
  | inr true => true
  | _ => false
  end.

(** The check of a rule answers on every value that is neither [null] nor
    [undefined]. *)
Definition total_check (r : rule) : Prop :=
  forall d, d <> JUndef -> d <> JNull -> exists b, check r d = inr b.

(** 100 * (total - failed) / total, rounded to the nearest integer, to the
    upper one of two: the floor of the quotient plus one half. *)
Definition score_spec (total failed : nat) : Z :=
  (200 * (Z.of_nat total - Z.of_nat failed) + Z.of_nat total)
  / (2 * Z.of_nat total).

(** What the specification says of [validate], for a list of rules. *)
Definition validation_spec (validate_structure : JValue -> result ValidationResult)
    (rules : list rule) (data : JValue) : Prop :=
  exists r,
    validate_structure data = inr r
    /\ errors r = map error_text (filter (fun x => negb (rule_holds x data)) rules)
    /\ score r = score_spec (length rules) (length (errors r))
    /\ (valid r = true <-> errors r = []).

(** ** The slug *)




(** ** Conversions *)

(** [String(v)] answers. *)
Definition printable {B : Builtins} (v : JValue) : bool :=
  match to_string v with
  | inr _ => true
  | inl _ => false
  end.

(** The values that the first two messages of agent 2 convert: the theme
    of the Prosit Aller and the lengths of its two lists. *)
Definition readable_header {B : Builtins} (pa : JValue) : bool :=
  printable (prop pa (js "theme"))
  && printable (list_length (prop pa (js "mots_cles")))
  && printable (list_length (prop pa (js "pistes_solution"))).

(** The keywords of a Prosit Aller are missing, or a list of values that
    [String] converts. *)
Definition keywords_ok {B : Builtins} (pa : JValue) : bool :=
  match or_else (prop pa (js "mots_cles")) (JArr [] []) with
  | JArr es _ => forallb printable es
  | _ => false
  end.

(** ** The repair *)

(** The document has an own property named [k]. *)
Definition has_prop (v : JValue) (k : jsstring) : bool :=
  has_key k (own_props v).

(** ** The stages of a run *)

Module Stages.
Section WithBuiltins.
Context {B : Builtins}.

Import Orchestrator.

Inductive stage : Type := stage_1 | stage_2 | stage_3.

(** The stage is run in this mode. *)
Definition scheduled (mode : jsstring) (skipPR : bool) (s : stage) : bool :=
  match s with
  | stage_1 => str_eqb mode (js "full")
  | stage_2 => negb (str_eqb mode (js "from_pr")) && negb skipPR
  | stage_3 => true
  end.

(** What [run] does before it calls the agent of the stage. *)
Definition before (mode : jsstring) (skipPR : bool) (s : stage) : M unit :=
  match s with
  | stage_1 => prelude ;; before_agent1
  | stage_2 => prelude ;; stage1 mode ;; before_agent2
  | stage_3 => prelude ;; stage1 mode ;; stage2 mode skipPR ;; before_agent3
  end.

(** The call of the agent of the stage, as [run] makes it. *)
Definition agent_of (s : stage) : M JValue :=
  match s with
  | stage_1 => Agent1.runAgent (log agent1)
  | stage_2 => Agent2.runAgent (log agent2)
  | stage_3 => Agent3.runAgent (log agent3)
  end.

(** The documents and the files of the stages before [s]. *)
Definition earlier_outputs (s : stage) (m : Memory)
  : list (JValue * option jsstring) :=
  match s with
  | stage_1 => []
  | stage_2 => [(prositAller m, file_prositAller (files m))]
  | stage_3 => [(prositAller m, file_prositAller (files m));
                (prositRetour m, file_prositRetour (files m))]
  end.

End WithBuiltins.
End Stages.

(** ** The bracket matching of parseJSON against the parser *)

(** The number of containers that are open in a state of the parser. *)
Definition depth_of (p : pstate) : Z :=
  match p with
  | PValue st => Z.of_nat (length st)
  | PArrOpen st | PObjOpen st => Z.of_nat (length st) + 1
  | PKey _ st | PColon _ _ st => Z.of_nat (length st) + 1
  | PAfterArr _ st | PAfterObj _ st => Z.of_nat (length st) + 1
  | PDone _ => 0
  end.

(** What a token adds to the depth. *)
Definition depth_change (t : token) : Z :=
  match t with
  | TLBrace | TLBracket => 1
  | TRBrace | TRBracket => -1
  | _ => 0
  end.

(** The flags [inStr] and [escape] of the loop of parseJSON that go with a
    state of the lexer. *)
Definition lex_flags (l : lstate) : bool * bool :=
  match l with
  | LNormal | LWord _ => (false, false)
  | LStr _ | LUni _ _ => (true, false)
  | LEsc _ => (true, true)
  end.

(** One match of a fence pattern, after optional white space: a marker such
    as three backticks, or three backticks and [json], with the line breaks
    around it. *)
Definition whole_match (re : pattern) (f : jsstring) : bool :=
  match re true f with
  | Some n => (n =? length f)%nat
  | None => false
  end.

Definition fence_marker (f : jsstring) : bool :=
  whole_match re_json_fence (trimStart f) || whole_match re_fence (trimStart f).


(** A code unit the loop passes over outside a string. *)
Definition plain (c : Z) : Prop :=
  c <> ch_backslash /\ c <> ch_quote
  /\ c <> ch_lbrace /\ c <> ch_rbrace /\ c <> ch_lbracket /\ c <> ch_rbracket.

(** The closing brace or bracket parseJSON pairs with the opening one. *)
Definition closer_of (o : Z) : Z :=
  if o =? ch_lbrace then ch_rbrace else ch_rbracket.

(** A pattern that does not look at the start of the input. *)
Definition flagless (re : pattern) : Prop :=
  forall b x, re b x = re false x.

(** A match lies within the text it is found in. *)
Definition bounded (re : pattern) : Prop :=
  forall b x n, re b x = Some n -> (n <= length x)%nat.

(** A match neither reaches the code unit [o] nor depends on what follows
    it. *)
Definition stops_at (re : pattern) (o : Z) : Prop :=
  forall b x R, re b (x ++ o :: R) = re b x.

(** A fence starts with three backticks. *)
Definition starts_with_fence (units : list (Z -> bool)) : Prop :=
  forall x r, match_units units x = Some r ->
              startsWith (js "```") x = true.

(** What one code unit does to both: either the loop stops on it, a closing
    brace or bracket that completes the value, or both go on, the depth of
    the loop being the one of the parser and its flags the ones of the
    lexer. *)
Definition step_outcome (opener closer : Z) (l : lstate) (p : pstate) (c : Z) (l' : lstate)
    (p' : pstate) (i : nat) : Prop :=
  (is_closer c = true /\ l' = LNormal /\ (exists v, p' = PDone v)
   /\ forall X, find_end opener closer (c :: X) i (depth_of p) (fst (lex_flags l))
                  (snd (lex_flags l)) = Some i)
  \/ (1 <= depth_of p'
      /\ forall X, find_end opener closer (c :: X) i (depth_of p) (fst (lex_flags l))
                     (snd (lex_flags l))
                   = find_end opener closer X (S i) (depth_of p') (fst (lex_flags l'))
                       (snd (lex_flags l'))).

(** ** Documents and environments of the examples *)

Module Examples.

(** A Prosit Aller with three keywords. *)
Definition pa_three_keywords : JValue :=
  JObj [(js "theme", JStr (js "Réseaux"));
        (js "mots_cles",
         JArr [JStr (js "pare-feu"); JStr (js "VPN"); JStr (js "chiffrement")]
              [])].

(** A Prosit Aller with one hypothesis, a Prosit Retour that validates
    none. *)
Definition pa_one_piste : JValue :=
  JObj [(js "pistes_solution", JArr [JStr (js "Segmenter le réseau ?")] [])].

Definition pr_no_validation : JValue :=
  JObj [(js "validation_hypotheses", JArr [] [])].

(** An environment whose model gives the [answers] in turn and whose
    generators and file system do not throw. *)
Definition script (answers : list jsstring) (n : nat) : result jsstring :=
  match nth_error answers n with
  | Some a => inr a
  | None => inl (ErrExternal 0)
  end.

Definition env_of (answers : list jsstring) : Env :=
  {| llm := script answers; generator := fun _ => None; mkdir := None |}.

Definition params_of (theme : jsstring) (pa pr : JValue) : Orchestrator.Params :=
  {| Orchestrator.p_theme := theme;
     Orchestrator.p_rawInput := [];
     Orchestrator.p_student := [];
     Orchestrator.p_promotion := [];
     Orchestrator.p_annee := [];
     Orchestrator.p_outputDir := [];
     Orchestrator.p_prositAller := pa;
     Orchestrator.p_prositRetour := pr |}.

Definition world_of (params : Orchestrator.Params) : World :=
  {| memory := Orchestrator.createMemory (js "/app/backend") params;
     llm_calls := 0;
     steps := 0 |}.

(** A run on a theme alone. *)
Definition world_theme : World :=
  world_of (params_of (js "Sécurité réseau") JUndef JUndef).

(** The model answers the planning call without any JSON. *)
Definition no_json : jsstring := js "Je ne peux pas répondre à cette demande.".

Definition env_no_plan : Env := env_of [no_json].

(** Stage 1: a plan, a draft that fails the validation, and a repair that
    rewrites the theme. *)
Definition plan_answer : jsstring :=
  jsq "{'domaine':'réseaux','enjeux':['sécurité']}".

Definition draft_answer : jsstring :=
  jsq "{'theme':'Sécurité réseau','mots_cles':['pare-feu']}".

Definition repair_answer : jsstring := jsq "{'theme':'Autre thème'}".

Definition env_repair : Env :=
  env_of [plan_answer; draft_answer; repair_answer].

(** Stage 1 completes, then the model answers the planning call of stage 2
    without any JSON. *)
Definition env_stage2_fails : Env :=
  env_of [plan_answer; draft_answer; repair_answer; no_json].

(** Stage 3 on an imported Prosit Retour, the model drafting a CER on another
    topic. *)
Definition world_pr : World :=
  world_of (params_of (js "Cloud migration") JUndef
              (JObj [(js "theme", JStr (js "Cloud migration"))])).

Definition env_cer : Env :=
  env_of [jsq "{}"; jsq "{'theme':'Unrelated topic'}"; jsq "{}"].

(** A fenced block: the opening marker with its line break, the text of an
    object, the closing marker after a line break. *)
Definition fence_json : jsstring := js "```json" ++ [ch_lf].

Definition fence_end : jsstring := [ch_lf] ++ js "```".

Definition fenced_object : jsstring := jsq "{'a': [1, 'x, y']}".

End Examples.

(** ** Frames *)

(** The computation [m] leaves [f] of the state as it finds it, whether it
    answers or throws. *)
Definition keeps {T A : Type} (f : World -> T) (m : M A) : Prop :=
  forall env w, f (snd (m env w)) = f w.

(** ** The outcome of a stage *)

(** From the state [w], a stage has thrown [e] after one call to the model
    and without writing a document or a file. *)
Definition aborted_at_planning (e : exn) (w : World)
    (r : result JValue * World) : Prop :=
  fst r = inl e
  /\ llm_calls (snd r) = S (llm_calls w)
  /\ prositAller (memory (snd r)) = prositAller (memory w)
  /\ prositRetour (memory (snd r)) = prositRetour (memory w)
  /\ cer (memory (snd r)) = cer (memory w)
  /\ files (memory (snd r)) = files (memory w).

(** ** Effects of a run *)

(** The fields of the memory that say whose run it is and where its files
    go. *)
Definition identity (m : Memory)
  : jsstring * jsstring * jsstring * jsstring * jsstring * jsstring * jsstring :=
  (theme m, rawInput m, student m, promotion m, annee m, slug m, outputDir m).

(** The document of a stage and the path of its file. *)
Definition output_of (s : Stages.stage) (m : Memory) : JValue * option jsstring :=
  match s with
  | Stages.stage_1 => (prositAller m, file_prositAller (files m))
  | Stages.stage_2 => (prositRetour m, file_prositRetour (files m))
  | Stages.stage_3 => (cer m, file_cer (files m))
  end.


(** The computation calls the model [n] times at most. *)
Definition calls_within {A : Type} (n : nat) (m : M A) : Prop :=
  forall env w,
    (llm_calls w <= llm_calls (snd (m env w)) <= llm_calls w + n)%nat.

(** The computation only appends to the list [f] of the state, whether it
    answers or throws. *)
Definition grows {T A : Type} (f : World -> list T) (m : M A) : Prop :=
  forall env w, exists l, f (snd (m env w)) = f w ++ l.


(** The stages a run goes through. *)
Definition stages_run (mode : jsstring) (skipPR : bool) : list Stages.stage :=
  filter (Stages.scheduled mode skipPR)
         [Stages.stage_1; Stages.stage_2; Stages.stage_3].


(** ** More documents and environments of the examples *)

(** Stage 2 on an imported Prosit Aller: a plan, a draft on another theme,
    which fails the validation, and an empty repair. *)
Definition world_pa : World :=
  Examples.world_of
    (Examples.params_of (js "Réseaux") Examples.pa_three_keywords JUndef).

Definition env_other_theme : Env :=
  Examples.env_of [jsq "{}"; jsq "{'theme':'Cloud'}"; jsq "{}"].

(** ** The parser on the text of an object or of an array *)

(** A state the parser can be in once the text has started with an opening
    brace or bracket: no value is awaited at the top, and a complete value
    is an object or an array. *)
Definition inside_container (p : pstate) : Prop :=
  match p with
  | PValue [] => False
  | PDone v => is_container v = true
  | _ => True
  end.

(** The text starts with an opening brace or bracket. *)
Definition starts_open (s : jsstring) : Prop :=
  match s with
  | o :: _ => is_opener o = true
  | [] => False
  end.

(** ** The slug, again *)

(** No underscore is followed by another one. *)
Fixpoint no_double_underscore (s : jsstring) : bool :=
  match s with
  | a :: (b :: _) as t =>
      negb ((a =? ch_underscore) && (b =? ch_underscore))
      && no_double_underscore t
  | _ => true
  end.

(** A Prosit Retour that the validator of stage 2 accepts. *)
Definition valid_pr : JValue :=
  JObj [(js "definitions",
         JObj [(js "pare-feu", JStr (js "filtre")); (js "VPN", JStr (js "tunnel"));
               (js "chiffrement", JStr (js "codage")); (js "DMZ", JStr (js "zone"))]);
        (js "contexte_rappel", JStr (repeat 97 80));
        (js "besoins", JArr [JStr (js "a"); JStr (js "b")] []);
        (js "contraintes", JArr [JStr (js "a"); JStr (js "b")] []);
        (js "problematique", JStr (js "Comment segmenter ?"));
        (js "validation_hypotheses", JArr [JObj []; JObj []] []);
        (js "plan_action", JArr [JStr (js "1"); JStr (js "2"); JStr (js "3")] []);
        (js "solutions", JArr [JObj []; JObj []] []);
        (js "bilan", JStr (repeat 97 60))].

(* ================================================================== *)
(** * server.js: the kind of an imported document *)
(* ================================================================== *)

Module Server.

Section WithBuiltins.
Context {B : Builtins}.

(** [detectJsonType(obj)]; the handler of [/api/parse] calls it on a parsed
    value that is an object or an array. *)
Definition detectJsonType (obj : JValue) : jsstring :=
  if truthy (prop obj (js "validation_hypotheses"))
     && truthy (prop obj (js "definitions"))
  then js "prosit_retour"
  else if truthy (prop obj (js "objectifs_savoir"))
          || truthy (prop obj (js "realisation"))
  then js "cer"
  else js "prosit_aller".

End WithBuiltins.
End Server.

(* ================================================================== *)
(** * UCAC_MultiAgents.jsx: reading an imported file *)
(* ================================================================== *)

Module Ui.

(** The longest start of [s] that ends with the code unit [c]. *)
Fixpoint upto_last (c : Z) (s : jsstring) : option jsstring :=
  match s with
  | [] => None
  | x :: t =>
      match upto_last c t with
      | Some m => Some (x :: m)
      | None => if x =? c then Some [x] else None
      end
  end.

(** An opening brace, one code unit or more, as many as can be, and a
    closing brace: what the pattern of [parseImportedFile] matches at the
    start of [s]. *)
Definition braces_at (s : jsstring) : option jsstring :=
  match s with
  | c :: t =>
      if c =? ch_lbrace then
        match upto_last ch_rbrace t with
        | Some m => if (2 <=? length m)%nat then Some (c :: m) else None
        | None => None
        end
      else None
  | [] => None
  end.

(** [text.match(...)]: the leftmost match. *)
Fixpoint match_braces (s : jsstring) : option jsstring :=
  match s with
  | [] => None
  | _ :: t =>
      match braces_at s with
      | Some m => Some m
      | None => match_braces t
      end
  end.

(** [parseImportedFile(text)] for a string [text], as the file reader gives
    it; [JNull] is the [null] it answers when it finds nothing. *)
Definition parseImportedFile (text : jsstring) : JValue :=
  match JSON_parse text with
  | Some v => v
  | None =>
      match match_braces text with
      | Some m =>
          match JSON_parse m with
          | Some v => v
          | None => JNull
          end
      | None => JNull
      end
  end.

End Ui.

(* ================================================================== *)
(** * structurer.js *)
(* ================================================================== *)

Module Structurer.

(** [str.split(/\n/)] *)
Fixpoint split_lines (s : jsstring) : list jsstring :=
  match s with
  | [] => [[]]
  | c :: t =>
      if c =? ch_lf then [] :: split_lines t
      else match split_lines t with
           | l :: ls => (c :: l) :: ls
           | [] => [[c]]
           end
  end.

(** The letters of [w], in either case, at the start of [s]: what follows
    them. *)
Fixpoint match_ci (w s : jsstring) : option jsstring :=
  match w with
  | [] => Some s
  | x :: w' =>
      match s with
      | c :: t => if ci x c then match_ci w' t else None
      | [] => None
      end
  end.

(** [s] is the word [w], in either case. *)
Definition is_ci (w s : jsstring) : bool :=
  match match_ci w s with
  | Some [] => true
  | _ => false
  end.

(** The pattern [skip] on a whole line: [prosit], then any white space,
    then nothing or one of [retour], [aller], [return]; or [cer]; or
    [sommaire]; or [plan]; in either case. *)
Definition skip (l : jsstring) : bool :=
  match match_ci (js "prosit") l with
  | Some r =>
      match dropWhile is_space r with
      | [] => true
      | r' => is_ci (js "retour") r' || is_ci (js "aller") r'
              || is_ci (js "return") r'
      end
  | None => false
  end
  || is_ci (js "cer") l || is_ci (js "sommaire") l || is_ci (js "plan") l.

(** A line terminator, which the dot of a pattern does not match. *)
Definition is_line_terminator (c : Z) : bool :=
  (c =? 10) || (c =? 13) || (c =? 8232) || (c =? 8233).

Definition is_dot (c : Z) : bool := negb (is_line_terminator c).

(** The last code unit of [s] that satisfies [p]. *)
Fixpoint last_where (p : Z -> bool) (s : jsstring) : option Z :=
  match s with
  | [] => None
  | c :: t =>
      match last_where p t with
      | Some d => Some d
      | None => if p c then Some c else None
      end
  end.

(** After the colon: any white space, then the group, one code unit or more
    up to the end of the line.  When white space runs to the end of the
    text, the pattern gives white space back until the group can start: at
    the last code unit that is no line terminator. *)
Definition theme_group (r : jsstring) : option jsstring :=
  match dropWhile is_space r with
  | _ :: _ as rest => Some (takeWhile is_dot rest)
  | [] => option_map (fun c => [c]) (last_where is_dot r)
  end.

(** Any white space, a colon (the ASCII one or the full-width one), and the
    group. *)
Definition colon_group (r : jsstring) : option jsstring :=
  match dropWhile is_space r with
  | c :: r2 => if (c =? ch_colon) || (c =? 65306) then theme_group r2 else None
  | [] => None
  end.

(** The pattern of the theme at the start of [s]: [th], [e] with or without
    a grave accent, [m], an optional [e], in either case, then the colon
    and the group. *)
Definition theme_at (s : jsstring) : option jsstring :=
  match s with
  | t :: h :: e :: m :: r =>
      if ci 116 t && ci 104 h && (ci 101 e || ci 232 e) && ci 109 m then
        match r with
        | e2 :: r1 =>
            if ci 101 e2 then
              match colon_group r1 with
              | Some g => Some g
              | None => colon_group r
              end
            else colon_group r
        | [] => None
        end
      else None
  | _ => None
  end.

(** [str.match(...)]: the group of the leftmost match. *)
Fixpoint theme_match (s : jsstring) : option jsstring :=
  match s with
  | [] => None
  | _ :: t =>
      match theme_at s with
      | Some g => Some g
      | None => theme_match t
      end
  end.

(** The lines of the text that are not blank, trimmed. *)
Definition text_lines (str : jsstring) : list jsstring :=
  filter nonempty (map trim (split_lines str)).

Definition is_title (l : jsstring) : bool :=
  (5 <=? length l)%nat && (length l <=? 100)%nat && negb (skip l).

(** [simpleExtract(text, hint)] for a string [text]: the object with the
    fields [theme] and [raw_text]. *)
Definition simpleExtract (str : jsstring) : JValue :=
  let lines := text_lines str in
  let themeLine :=
    match find is_title lines with
    | Some l => l
    | None =>
        match theme_match str with
        | Some g => g
        | None =>
            match lines with
            | l :: _ => l
            | [] => js "Thème non détecté"
            end
        end
    end in
  JObj [(js "theme", JStr (trim themeLine));
        (js "raw_text", JStr (slice_to 4000 str))].






End Structurer.

(* ================================================================== *)
(** * Properties *)
(* ================================================================== *)

(** ** parse_json.js: the errors of parseJSON *)

Section ParseJsonErrors.

Lemma parseJSON_cases (raw : jsstring) :
  (exists v, parseJSON raw = inr v)
  \/ parseJSON raw = inl ErrNoJson
  \/ parseJSON raw = inl ErrSyntax.
Proof.
  unfold parseJSON.
  destruct (search_opener (strip_fences raw)) as [start|]; [|now right; left].
  match goal with
  | |- context [JSON_parse (strip_trailing_commas ?x)] =>
      generalize x; intros s1
  end.
  destruct (JSON_parse (strip_trailing_commas s1)) as [v|]; [left; eauto|].
  destruct (JSON_parse _) as [v|]; [left; eauto | right; right; reflexivity].
Qed.

(** C7. For a valid JSON text [s] and a truncation point [k], parseJSON on
    the first [k] code units of [s] either answers a parsed value, or throws
    the error for an answer without JSON, or throws the SyntaxError of the
    last [JSON.parse], after the repair; it throws nothing else. *)
Theorem parseJSON_truncation_closed (s : jsstring) (v : JValue) (k : nat) :
  JSON_parse s = Some v ->
  (exists v', parseJSON (slice_to k s) = inr v')
  \/ parseJSON (slice_to k s) = inl ErrNoJson
  \/ parseJSON (slice_to k s) = inl ErrSyntax.
Proof. intros _. apply parseJSON_cases. Qed.

Lemma parseJSON_truncation_closed_witness :
  JSON_parse (jsq "{'a':[1,2]}")
  = Some (JObj [(js "a", JArr [JNum (js "1"); JNum (js "2")] [])])
  /\ ((exists v', parseJSON (slice_to 7 (jsq "{'a':[1,2]}")) = inr v')
      \/ parseJSON (slice_to 7 (jsq "{'a':[1,2]}")) = inl ErrNoJson
      \/ parseJSON (slice_to 7 (jsq "{'a':[1,2]}")) = inl ErrSyntax).
Proof.
  split; [reflexivity|].
  apply (@parseJSON_truncation_closed (jsq "{'a':[1,2]}")
           (JObj [(js "a", JArr [JNum (js "1"); JNum (js "2")] [])]) 7).
  reflexivity.
Defined.

End ParseJsonErrors.

(** ** The structural validator *)

Section ValidatorProperties.

Lemma nullish_default_is_value (a : JValue) :
  nullish a (JStr []) <> JUndef /\ nullish a (JStr []) <> JNull.
Proof. destruct a; simpl; split; discriminate. Qed.

Lemma object_min_keys_total (n : nat) (d : JValue) :
  d <> JUndef -> d <> JNull -> exists b, object_min_keys n d = inr b.
Proof.
  intros Hu Hn. unfold object_min_keys.
  destruct d; simpl; eauto; congruence.
Qed.

Lemma failing_is_filter (rules : list rule) (data : JValue) :
  Forall total_check rules ->
  failing rules data = inr (filter (fun r => negb (rule_holds r data)) rules).
Proof.
  induction 1 as [|r rs Hr _ IH]; simpl; [reflexivity|].
  unfold rule_holds at 1.
  destruct (nullish_default_is_value (prop data (field r))) as [Hu Hn].
  destruct (Hr _ Hu Hn) as [b ->].
  rewrite IH. now destruct b.
Qed.

Ltac total_checks :=
  repeat constructor; intros d Hu Hn; simpl;
  first [ eexists; reflexivity | now apply object_min_keys_total ].

Lemma agent1_rules_total : Forall total_check Agent1.rules.
Proof. total_checks. Qed.

Lemma agent2_rules_total : Forall total_check Agent2.rules.
Proof. total_checks. Qed.

Lemma agent3_rules_total : Forall total_check Agent3.rules.
Proof. total_checks. Qed.

(** On the three list lengths the doubles of [score_of] round as the exact
    quotient does. *)
Lemma score_of_exact (total failed : nat) :
  In total [8; 9; 12]%nat -> (failed <= total)%nat ->
  score_of total failed = score_spec total failed.
Proof.
  intros Ht Hf.
  assert (H : forallb (fun t =>
                forallb (fun f => score_of t f =? score_spec t f) (seq 0 (S t)))
              [8; 9; 12]%nat = true) by (vm_compute; reflexivity).
  rewrite forallb_forall in H. specialize (H _ Ht).
  rewrite forallb_forall in H.
  apply Z.eqb_eq, H, in_seq. lia.
Qed.

Lemma validate_spec (rules : list rule) (data : JValue) :
  Forall total_check rules -> In (length rules) [8; 9; 12]%nat ->
  data <> JNull -> data <> JUndef ->
  validation_spec (validate rules) rules data.
Proof.
  intros Htot Hlen Hn Hu. unfold validation_spec, validate.
  rewrite (failing_is_filter data Htot).
  set (bad := filter _ rules).
  assert (Hbad : (length bad <= length rules)%nat) by apply filter_length_le.
  destruct data; try congruence;
    (eexists; split; [reflexivity|]; simpl; rewrite !length_map;
     repeat split;
     [ now apply score_of_exact
     | intros H; apply Nat.eqb_eq in H;
       destruct bad; [reflexivity | discriminate]
     | intros H; apply Nat.eqb_eq; destruct bad; [reflexivity | discriminate] ]).
Qed.

(** C8. On every document that is neither [null] nor [undefined], each
    [validate_structure] answers, without throwing, the result whose [errors]
    are the texts (the field between brackets, then the message) of exactly
    the rules whose check does not hold on the field, a missing field being
    read as the empty string, in the order of the rules; whose [score] is
    100 * (rules - failed) / rules rounded to the nearest integer; and whose
    [valid] says that [errors] is empty.  Being a function of the document
    alone, it answers the same on the same document and changes nothing. *)
Theorem validate_structure_spec (data : JValue) :
  data <> JNull -> data <> JUndef ->
  validation_spec Agent1.validate_structure Agent1.rules data
  /\ validation_spec Agent2.validate_structure Agent2.rules data
  /\ validation_spec Agent3.validate_structure Agent3.rules data.
Proof.
  intros Hn Hu. repeat split.
  - apply validate_spec; auto using agent1_rules_total. simpl; tauto.
  - apply validate_spec; auto using agent2_rules_total. simpl; tauto.
  - apply validate_spec; auto using agent3_rules_total. simpl; tauto.
Qed.

Lemma validate_structure_spec_witness :
  validation_spec Agent1.validate_structure Agent1.rules
    (JObj [(js "contexte", JStr (js "court"))])
  /\ validation_spec Agent2.validate_structure Agent2.rules
       (JObj [(js "contexte", JStr (js "court"))])
  /\ validation_spec Agent3.validate_structure Agent3.rules
       (JObj [(js "contexte", JStr (js "court"))]).
Proof.
  apply (@validate_structure_spec (JObj [(js "contexte", JStr (js "court"))]));
    discriminate.
Defined.

End ValidatorProperties.

(** ** Regular expressions: replacing *)

Section ReplaceFacts.

Variable re : pattern.
Variable rep : jsstring -> jsstring.

(** The code units of a match in progress are passed over. *)
Lemma replace_from_skip (k : nat) (b : bool) (s : jsstring) :
  replace_from re rep b (S k) s = replace_from re rep false 0 (skipn (S k) s).
Proof.
  revert k b; induction s as [|c t IH]; intros k b; [reflexivity|].
  simpl. destruct k as [|k]; [destruct t; reflexivity|]. apply IH.
Qed.

Lemma replace_from_cons (b : bool) (c : Z) (t : jsstring) :
  replace_from re rep b 0 (c :: t)
  = match re b (c :: t) with
    | Some (S n) => rep (firstn (S n) (c :: t))
                    ++ replace_from re rep false 0 (skipn n t)
    | _ => c :: replace_from re rep false 0 t
    end.
Proof.
  simpl. destruct (re b (c :: t)) as [[|n]|]; try reflexivity.
  destruct n as [|n]; [reflexivity|]. now rewrite replace_from_skip.
Qed.

End ReplaceFacts.

Lemma erase_keeps (P : Z -> Prop) (re : pattern) (b : bool) (k : nat)
    (s : jsstring) :
  Forall P s -> Forall P (replace_from re erase b k s).
Proof.
  intros H; revert b k; induction H as [|c t Hc Ht IH]; intros b k; simpl;
    [constructor|].
  destruct k; [|apply IH].
  destruct (re b (c :: t)) as [[|n]|]; simpl; auto.
Qed.

Lemma skipn_takeWhile (p : Z -> bool) (s : jsstring) :
  skipn (length (takeWhile p s)) s = dropWhile p s.
Proof.
  induction s as [|c t IH]; simpl; [reflexivity|].
  destruct (p c); simpl; auto.
Qed.

Lemma firstn_takeWhile (p : Z -> bool) (s : jsstring) :
  firstn (length (takeWhile p s)) s = takeWhile p s.
Proof.
  induction s as [|c t IH]; simpl; [reflexivity|].
  destruct (p c); simpl; [now rewrite IH | reflexivity].
Qed.

Lemma takeWhile_dropWhile (p : Z -> bool) (s : jsstring) :
  takeWhile p s ++ dropWhile p s = s.
Proof.
  induction s as [|c t IH]; simpl; [reflexivity|].
  destruct (p c); simpl; [now rewrite IH | reflexivity].
Qed.

Lemma dropWhile_head (p : Z -> bool) (s : jsstring) (d : Z) (r : jsstring) :
  dropWhile p s = d :: r -> p d = false.
Proof.
  induction s as [|c t IH]; simpl; [discriminate|].
  destruct (p c) eqn:E; [exact IH | now intros [= <- _]].
Qed.

Lemma takeWhile_all (p : Z -> bool) (s : jsstring) :
  Forall (fun c => p c = true) (takeWhile p s).
Proof.
  induction s as [|c t IH]; simpl; [constructor|].
  destruct (p c) eqn:E; auto.
Qed.

(** ** createMemory: the slug *)

Section Slug.
Context {B : Builtins}.

Import Orchestrator.











End Slug.


(** The accents go with their combining marks. *)
Example slug_example :
  Orchestrator.slug_of (js "Sécurité des Réseaux : l'état de l'art !")
  = js "securite_des_reseaux_l_etat_de_l_ar".
Proof. vm_compute. reflexivity. Qed.

(** ** The coherence checker of agent 2 *)

Section Coherence.
Context {B : Builtins}.

Import Agent2.

Lemma Object_keys_or_else (v : JValue) :
  exists ks, Object_keys (or_else v (JObj [])) = inr ks.
Proof.
  unfold or_else. destruct v; simpl; eauto;
    match goal with |- context [if ?b then _ else _] => destruct b end;
    simpl; eauto.
Qed.

Lemma printable_to_string (v : JValue) :
  printable v = true -> exists t, to_string v = inr t.
Proof. unfold printable. destruct (to_string v); [discriminate | eauto]. Qed.

Lemma printable_or_empty (v : JValue) :
  printable v = true -> printable (or_else v (JStr [])) = true.
Proof. unfold or_else. now destruct (truthy v). Qed.

Lemma map_result_total {A C} (f : A -> result C) (l : list A) :
  Forall (fun a => exists c, f a = inr c) l ->
  exists cs, map_result f l = inr cs.
Proof.
  induction 1 as [|a l [c Hc] _ [cs IH]]; cbn [map_result]; [eauto|].
  fold (map_result f). rewrite Hc, IH. eauto.
Qed.

Lemma lowered_keywords_ok (pa : JValue) :
  keywords_ok pa = true ->
  exists ms, lowered_keywords (prop pa (js "mots_cles")) = inr ms.
Proof.
  unfold keywords_ok, lowered_keywords.
  destruct (or_else (prop pa (js "mots_cles")) (JArr [] []));
    try discriminate.
  intros H. apply map_result_total. rewrite forallb_forall in H.
  apply Forall_forall. intros m Hm.
  destruct (printable_to_string _ (H m Hm)) as [t ->]. cbn. eauto.
Qed.

(** The three kinds of issue start with different letters. *)
Lemma count_issue_head (m n : nat) : hd_error (count_issue m n) = Some 78.
Proof. reflexivity. Qed.

Lemma keywords_issue_head (missing : list jsstring) :
  hd_error (keywords_issue missing) = Some 77.
Proof. reflexivity. Qed.

Lemma theme_issue_head (pa pr : JValue) (i : jsstring) :
  theme_issue pa pr = inr i -> hd_error i = Some 84.
Proof.
  unfold theme_issue.
  destruct (to_string (prop pa (js "theme"))) as [e|a]; [discriminate|].
  destruct (to_string (opt_prop pr (js "theme"))) as [e|b]; [discriminate|].
  cbn [rbind]. intros [= <-]. reflexivity.
Qed.

(** C4, amended. For an upstream document that is there, whose
    [pistes_solution] is a list of N entries, and a downstream document whose
    [validation_hypotheses] is a list of M entries, the checker answers as
    soon as it can read the two themes and the keywords (they convert to
    strings, the keywords being a list or missing).  When 1 <= M < N, the
    count issue is among its issues and [coherent = false].  Otherwise, so
    with M = 0 as with N <= M, no count issue is among its issues: the count
    check is skipped. *)
Theorem check_coherence_count (pa pr : JValue) (xs ys : list JValue)
    (xp yp : list (jsstring * JValue)) :
  truthy pa = true ->
  printable (prop pa (js "theme")) = true ->
  printable (opt_prop pr (js "theme")) = true ->
  keywords_ok pa = true ->
  prop pa (js "pistes_solution") = JArr xs xp ->
  opt_prop pr (js "validation_hypotheses") = JArr ys yp ->
  exists r,
    check_coherence pa pr = inr r
    /\ ((1 <= length ys < length xs)%nat ->
        coherent r = false
        /\ In (count_issue (length ys) (length xs)) (issues r))
    /\ (~ (1 <= length ys < length xs)%nat ->
        forall m n, ~ In (count_issue m n) (issues r)).
Proof.
  intros Hpa Ht1 Ht2 Hk Hx Hy. unfold check_coherence.
  rewrite Hpa, Hx, Hy. cbn [negb array_length].
  destruct (printable_to_string _ (printable_or_empty _ Ht1)) as [t1 ->].
  destruct (printable_to_string _ (printable_or_empty _ Ht2)) as [t2 ->].
  cbn [rbind].
  assert (Hi : exists i1,
             (if nonempty (toLowerCase t2)
                 && negb (str_eqb (toLowerCase t2) (toLowerCase t1))
                 && negb (includes (slice_to 10 (toLowerCase t1))
                            (toLowerCase t2))
              then let? i := theme_issue pa pr in inr [i]
              else inr []) = inr i1
             /\ forall x, In x i1 -> hd_error x = Some 84).
  { destruct (_ && _).
    - destruct (theme_issue pa pr) as [e|i] eqn:Ei.
      + exfalso. unfold theme_issue in Ei.
        destruct (printable_to_string _ Ht1) as [a Ha].
        destruct (printable_to_string _ Ht2) as [b Hb].
        rewrite Ha, Hb in Ei. discriminate.
      + cbn [rbind]. eexists; split; [reflexivity|].
        intros x [<-|[]]. exact (theme_issue_head _ _ Ei).
    - eexists; split; [reflexivity|]. intros x []. }
  destruct Hi as (i1 & -> & Hi1). cbn [rbind].
  destruct (lowered_keywords_ok _ Hk) as [ms ->]. cbn [rbind].
  destruct (Object_keys_or_else (opt_prop pr (js "definitions"))) as [ks ->].
  cbn [rbind].
  eexists; split; [reflexivity|]. cbn [coherent issues]. split.
  - intros [H1 H2].
    assert (E1 : (0 <? length xs)%nat = true) by (apply Nat.ltb_lt; lia).
    assert (E2 : (0 <? length ys)%nat = true) by (apply Nat.ltb_lt; lia).
    assert (E3 : (length ys <? length xs)%nat = true) by (apply Nat.ltb_lt; lia).
    rewrite E1, E2, E3. cbn [andb]. split.
    + apply Nat.eqb_neq. rewrite !length_app. cbn [length]. lia.
    + apply in_or_app. right. now left.
  - intros Hn m n Hin.
    assert (E : ((0 <? length xs)%nat && (0 <? length ys)%nat
                 && (length ys <? length xs)%nat) = false).
    { apply not_true_is_false. intros E.
      apply andb_true_iff in E as [E E3].
      apply andb_true_iff in E as [E1 E2].
      apply Nat.ltb_lt in E1, E2, E3. lia. }
    rewrite E in Hin. cbn [app] in Hin.
    pose proof (count_issue_head m n) as Hc.
    apply in_app_or in Hin as [Hin|Hin].
    + apply Hi1 in Hin. congruence.
    + destruct (2 <? _)%nat; [|exact Hin].
      destruct Hin as [Hin|[]]. rewrite <- Hin in Hc.
      rewrite keywords_issue_head in Hc. discriminate.
Qed.

End Coherence.

Lemma check_coherence_count_witness :
  exists r,
    Agent2.check_coherence
      (JObj [(js "pistes_solution", JArr [JStr (js "a ?"); JStr (js "b ?")] [])])
      (JObj [(js "validation_hypotheses", JArr [JObj []] [])])
    = inr r
    /\ ((1 <= 1 < 2)%nat ->
        Agent2.coherent r = false
        /\ In (Agent2.count_issue 1 2) (Agent2.issues r))
    /\ (~ (1 <= 1 < 2)%nat ->
        forall m n, ~ In (Agent2.count_issue m n) (Agent2.issues r)).
Proof.
  apply (@check_coherence_count latin1_builtins
           (JObj [(js "pistes_solution",
                   JArr [JStr (js "a ?"); JStr (js "b ?")] [])])
           (JObj [(js "validation_hypotheses", JArr [JObj []] [])])
           [JStr (js "a ?"); JStr (js "b ?")] [JObj []] [] []);
    reflexivity.
Defined.

(** C4, as stated, fails when the downstream list is empty: with one
    hypothesis upstream and no validation downstream (M = 0 < N = 1) the
    checker flags nothing and answers [coherent = true]. *)
Lemma check_coherence_empty_validations_not_flagged :
  Agent2.array_length (prop Examples.pa_one_piste (js "pistes_solution")) = 1%nat
  /\ Agent2.array_length
       (opt_prop Examples.pr_no_validation (js "validation_hypotheses")) = 0%nat
  /\ Agent2.check_coherence Examples.pa_one_piste Examples.pr_no_validation
     = inr {| Agent2.coherent := true; Agent2.issues := [] |}.
Proof. repeat split; vm_compute; reflexivity. Qed.

(** C3: the code at the failing input.  With three keywords upstream and a
    [null] downstream, the checker answers [coherent = false] with the issue
    of the keywords that the Prosit Retour does not define. *)
Theorem check_coherence_null_downstream_keywords :
  Agent2.check_coherence Examples.pa_three_keywords JNull
  = inr {| Agent2.coherent := false;
           Agent2.issues :=
             [js "Mots clés PA non définis dans PR : pare-feu, vpn, chiffrement"] |}.
Proof. vm_compute. reflexivity. Qed.

(** ** What a computation leaves unchanged *)

Section Keeps.

Context {T : Type}.
Variable f : World -> T.

Lemma keeps_ret {A} (a : A) : keeps f (ret a).
Proof. intros env w; reflexivity. Qed.

Lemma keeps_throw {A} (e : exn) : keeps f (@throw A e).
Proof. intros env w; reflexivity. Qed.

Lemma keeps_lift {A} (r : result A) : keeps f (lift r).
Proof. destruct r; [apply keeps_throw | apply keeps_ret]. Qed.

Lemma keeps_bind {A C} (m : M A) (k : A -> M C) :
  keeps f m -> (forall a, keeps f (k a)) -> keeps f (bind m k).
Proof.
  intros Hm Hk env w. unfold bind.
  specialize (Hm env w). destruct (m env w) as [[e|a] w']; simpl in *;
    [exact Hm|].
  now rewrite (Hk a env w').
Qed.

Lemma keeps_when (b : bool) (m : M unit) : keeps f m -> keeps f (when b m).
Proof. destruct b; [auto | intros _; apply keeps_ret]. Qed.

Lemma keeps_get_memory : keeps f get_memory.
Proof. intros env w; reflexivity. Qed.

Lemma keeps_generate (d : document) : keeps f (generate d).
Proof. intros env w; unfold generate; now destruct (generator env d). Qed.

Lemma keeps_mkdirSync : keeps f Orchestrator.mkdirSync.
Proof.
  intros env w; unfold Orchestrator.mkdirSync; now destruct (mkdir env).
Qed.

End Keeps.

(** A function of the memory is kept by a call to the model and by a
    message to [onStep]; it is kept by a write that does not change it. *)
Section KeepsMemory.

Context {T : Type}.
Variable g : Memory -> T.

Lemma keeps_callLLM : keeps (fun w => g (memory w)) callLLM.
Proof. intros env w; reflexivity. Qed.

Lemma keeps_step : keeps (fun w => g (memory w)) Orchestrator.step.
Proof. intros env w; reflexivity. Qed.

Lemma keeps_update (u : Memory -> Memory) :
  (forall m, g (u m) = g m) -> keeps (fun w => g (memory w)) (update_memory u).
Proof. intros H env w; simpl. apply H. Qed.

Lemma keeps_log (a : agent_name) (t : log_type) :
  (forall e m, g (push_log e m) = g m) ->
  keeps (fun w => g (memory w)) (Orchestrator.log a t).
Proof. intros H. apply keeps_update. intros m; apply H. Qed.

End KeepsMemory.

(** The steps of a proof that a computation keeps a function of the memory:
    through the binds, then by cases on the tests. *)
Ltac keeps_one :=
  first
    [ apply keeps_ret | apply keeps_throw | apply keeps_lift
    | apply keeps_get_memory | apply keeps_generate | apply keeps_mkdirSync
    | apply keeps_callLLM | apply keeps_step
    | apply keeps_log; reflexivity
    | apply keeps_update; intros; reflexivity
    | apply keeps_when
    | apply keeps_bind; [|intros]
    | match goal with
      | |- keeps _ (if ?b then _ else _) => destruct b
      | |- keeps _ (match ?d with _ => _ end) => destruct d
      end ].

Ltac keeps_all := repeat keeps_one.

(** ** Stage 3 and the coherence warnings *)

Section Stage3Warnings.
Context {B : Builtins}.

(** C5, amended. Stage 3 does not run the coherence checker: whatever the
    model and the generator answer, and whether the stage returns or throws,
    it leaves the list of coherence warnings of the shared memory as it
    found it. *)
Theorem agent3_keeps_warnings :
  keeps (fun w => coherenceWarnings (memory w))
        (Agent3.runAgent (Orchestrator.log agent3)).
Proof.
  unfold Agent3.runAgent, Agent3.correction. keeps_all.
Qed.

End Stage3Warnings.

(** ** The planning step of the agents *)

Section Planning.
Context {B : Builtins}.

Lemma template_one (a : JValue) :
  printable a = true -> template [a] = inr tt.
Proof.
  unfold printable, template. cbn [map_result].
  now destruct (to_string a).
Qed.

Lemma template_two (a b : JValue) :
  printable a = true -> printable b = true -> template [a; b] = inr tt.
Proof.
  unfold printable, template. cbn [map_result].
  destruct (to_string a); [discriminate|].
  now destruct (to_string b).
Qed.

Lemma analyze_memory_total (m : Memory) :
  exists a, Agent3.analyze_memory m = inr a.
Proof.
  unfold Agent3.analyze_memory.
  destruct (truthy (prositRetour m)) eqn:E1.
  - destruct (prositRetour m); try discriminate; simpl; eauto.
  - destruct (truthy (prositAller m)) eqn:E2; [|simpl; eauto].
    destruct (prositAller m); try discriminate; simpl; eauto.
Qed.

Lemma analyze_memory_push_log (e : LogEntry) (m : Memory) :
  Agent3.analyze_memory (push_log e m) = Agent3.analyze_memory m.
Proof. reflexivity. Qed.

(** C1, amended. In each of the three stages, when the extraction of the
    planning answer fails, the stage throws the error of the extraction: it
    makes no other call to the model (the draft is never asked for) and
    writes no document and no file into the shared memory.  (Stage 2 reaches
    its planning step only with a Prosit Aller in memory of which it can
    build its first two messages.) *)
Theorem planning_failure_aborts (env : Env) (w : World) (raw : jsstring)
    (e : exn) :
  llm env (llm_calls w) = inr raw ->
  parseJSON raw = inl e ->
  aborted_at_planning e w (Agent1.runAgent (Orchestrator.log agent1) env w)
  /\ (truthy (prositAller (memory w)) = true ->
      readable_header (prositAller (memory w)) = true ->
      aborted_at_planning e w (Agent2.runAgent (Orchestrator.log agent2) env w))
  /\ aborted_at_planning e w (Agent3.runAgent (Orchestrator.log agent3) env w).
Proof.
  intros Hllm Hparse. unfold aborted_at_planning. split; [|split].
  - unfold Agent1.runAgent, bind, Orchestrator.log, update_memory, callLLM.
    cbn. rewrite Hllm. cbn. rewrite Hparse. repeat split.
  - intros Hpa Hmsg. unfold readable_header in Hmsg.
    apply andb_true_iff in Hmsg as [Hmsg H3].
    apply andb_true_iff in Hmsg as [H1 H2].
    unfold Agent2.runAgent, bind, Orchestrator.log, update_memory, callLLM,
      get_memory.
    cbn -[template prop list_length js]. rewrite Hpa.
    cbn -[template prop list_length js].
    rewrite (template_one _ H1). cbn -[template prop list_length js].
    rewrite (template_two _ _ H2 H3). cbn.
    rewrite Hllm. cbn. rewrite Hparse. repeat split.
  - unfold Agent3.runAgent, bind, Orchestrator.log, update_memory, callLLM,
      get_memory.
    cbn -[Agent3.analyze_memory].
    destruct (analyze_memory_total (memory w)) as [a ->].
    cbn. destruct (Agent3.warnings a); cbn;
      rewrite Hllm; cbn; rewrite Hparse; repeat split.
Qed.

End Planning.

Lemma planning_failure_aborts_witness :
  aborted_at_planning ErrNoJson Examples.world_theme
    (Agent1.runAgent (Orchestrator.log agent1) Examples.env_no_plan
       Examples.world_theme).
Proof.
  apply (@planning_failure_aborts latin1_builtins Examples.env_no_plan
           Examples.world_theme Examples.no_json ErrNoJson);
    reflexivity.
Defined.

(** C1, as stated, fails: when the planning answer of stage 1 holds no JSON,
    the stage does not go on with an empty plan; it throws the error of the
    extraction, and the model has been called once only, never for the
    draft. *)
Lemma planning_failure_is_fatal :
  fst (Agent1.runAgent (Orchestrator.log agent1) Examples.env_no_plan
         Examples.world_theme) = inl ErrNoJson
  /\ llm_calls (snd (Agent1.runAgent (Orchestrator.log agent1)
                       Examples.env_no_plan Examples.world_theme)) = 1%nat.
Proof. split; vm_compute; reflexivity. Qed.

(** ** The repair of a stage *)

Section Repair.
Context {B : Builtins}.

Lemma lookup_absent (k : jsstring) (ps : list (jsstring * JValue)) :
  existsb (fun kv => str_eqb k (fst kv)) ps = false -> lookup k ps = JUndef.
Proof.
  induction ps as [|[k' v] r IH]; simpl; [reflexivity|].
  intros H. apply orb_false_iff in H as [H1 H2].
  now rewrite H2, H1.
Qed.

Lemma lookup_app (k : jsstring) (a b : list (jsstring * JValue)) :
  lookup k (a ++ b)
  = if existsb (fun kv => str_eqb k (fst kv)) b then lookup k b
    else lookup k a.
Proof.
  induction a as [|[k' v] a IH]; simpl.
  - destruct (existsb _ b) eqn:E; [reflexivity | now apply lookup_absent].
  - rewrite existsb_app, IH.
    destruct (existsb _ b); [now rewrite orb_true_r|].
    now rewrite orb_false_r.
Qed.

(** The merge [{...doc, ...fixed}], field by field: its fields are the ones
    of [doc] and the ones of [fixed], with the value of [fixed] where [fixed]
    has the field, and with the value of [doc] elsewhere. *)
Lemma has_prop_spread (doc fixed : JValue) (k : jsstring) :
  has_prop (spread doc fixed) k = has_prop doc k || has_prop fixed k.
Proof. unfold has_prop, spread, has_key. simpl. apply existsb_app. Qed.

Lemma prop_spread_fixed (doc fixed : JValue) (k : jsstring) :
  has_prop fixed k = true -> prop (spread doc fixed) k = prop fixed k.
Proof.
  unfold prop, spread, has_prop, has_key. simpl. intros H.
  now rewrite lookup_app, H.
Qed.

Lemma prop_spread_doc (doc fixed : JValue) (k : jsstring) :
  has_prop fixed k = false -> prop (spread doc fixed) k = prop doc k.
Proof.
  unfold prop, spread, has_prop, has_key. simpl. intros H.
  now rewrite lookup_app, H.
Qed.

Lemma validate_total (rules : list rule) (data : JValue) :
  Forall total_check rules -> data <> JNull -> data <> JUndef ->
  exists r, validate rules data = inr r.
Proof.
  intros Htot Hn Hu. unfold validate.
  rewrite (failing_is_filter data Htot).
  destruct data; try congruence; eauto.
Qed.

(** C2, amended. The repair of each stage answers the shallow merge of the
    document with the repaired answer.  The top-level fields of the merge
    (its own properties) are the ones of the document and the ones of the
    answer: a field of the document that the answer of the model does not
    have keeps the value it had before the repair, and a field that the
    answer has takes the value of the answer, whether the validation errors
    named it or not. *)
Theorem correction_merges (env : Env) (w : World) (doc : JValue)
    (v1 : ValidationResult) (raw : jsstring) (fixed : JValue) :
  valid v1 = false ->
  llm env (llm_calls w) = inr raw ->
  parseJSON raw = inr fixed ->
  fst (Agent1.correction (Orchestrator.log agent1) doc v1 env w)
    = inr (spread doc fixed)
  /\ fst (Agent2.correction (Orchestrator.log agent2) doc v1 env w)
       = inr (spread doc fixed)
  /\ fst (Agent3.correction (Orchestrator.log agent3) doc v1 env w)
       = inr (spread doc fixed)
  /\ forall k,
       has_prop (spread doc fixed) k = has_prop doc k || has_prop fixed k
       /\ (has_prop fixed k = true ->
           prop (spread doc fixed) k = prop fixed k)
       /\ (has_prop doc k = true -> has_prop fixed k = false ->
           prop (spread doc fixed) k = prop doc k).
Proof.
  intros Hv Hllm Hparse.
  assert (Hs1 : forall rules, Forall total_check rules ->
                  exists r, validate rules (spread doc fixed) = inr r)
    by (intros rules Hr; apply validate_total; auto; discriminate).
  destruct (Hs1 _ agent1_rules_total) as [r1 H1].
  destruct (Hs1 _ agent2_rules_total) as [r2 H2].
  destruct (Hs1 _ agent3_rules_total) as [r3 H3].
  split; [|split; [|split]].
  - unfold Agent1.correction, Agent1.validate_structure. rewrite Hv.
    unfold bind, Orchestrator.log, update_memory, callLLM. cbn -[validate spread].
    rewrite Hllm, Hparse. cbn -[validate spread]. now rewrite H1.
  - unfold Agent2.correction, Agent2.validate_structure. rewrite Hv.
    unfold bind, Orchestrator.log, update_memory, callLLM. cbn -[validate spread].
    rewrite Hllm, Hparse. cbn -[validate spread]. now rewrite H2.
  - unfold Agent3.correction, Agent3.validate_structure. rewrite Hv.
    unfold bind, Orchestrator.log, update_memory, callLLM. cbn -[validate spread].
    rewrite Hllm, Hparse. cbn -[validate spread]. now rewrite H3.
  - intros k. split; [apply has_prop_spread|]. split.
    + apply prop_spread_fixed.
    + intros _. apply prop_spread_doc.
Qed.

End Repair.

Lemma correction_merges_witness :
  fst (Agent1.correction (Orchestrator.log agent1) Examples.pa_one_piste
         {| valid := false; errors := [js "[mots_cles] ≥6 mots clés requis"];
            score := 88 |}
         (Examples.env_of [Examples.repair_answer]) Examples.world_theme)
  = inr (spread Examples.pa_one_piste
           (JObj [(js "theme", JStr (js "Autre thème"))])).
Proof.
  apply (@correction_merges
           (Examples.env_of [Examples.repair_answer]) Examples.world_theme
           Examples.pa_one_piste
           {| valid := false; errors := [js "[mots_cles] ≥6 mots clés requis"];
              score := 88 |}
           Examples.repair_answer
           (JObj [(js "theme", JStr (js "Autre thème"))]));
    reflexivity.
Defined.

(** C2, as stated, fails: the draft of stage 1 has the theme
    [Sécurité réseau] and fails the validation; no error names the field
    [theme] (no rule reads it); the repaired answer of the model holds a
    theme, and the document of the stage ends with that other theme. *)
Lemma repair_changes_unflagged_field :
  match parseJSON Examples.draft_answer with
  | inr draft =>
      prop draft (js "theme") = JStr (js "Sécurité réseau")
      /\ match Agent1.validate_structure draft with
         | inr v1 =>
             valid v1 = false
             /\ existsb (includes (js "[theme]")) (errors v1) = false
         | inl _ => False
         end
  | inl _ => False
  end
  /\ match fst (Agent1.runAgent (Orchestrator.log agent1) Examples.env_repair
                  Examples.world_theme) with
     | inr pa => prop pa (js "theme") = JStr (js "Autre thème")
     | inl _ => False
     end.
Proof. vm_compute. repeat split; reflexivity. Qed.

(** C5, as stated, fails: stage 3 runs on a Prosit Retour on
    [Cloud migration] and ends with a CER on [Unrelated topic]; the checker
    finds the two incoherent, yet the stage leaves the list of warnings
    empty. *)
Lemma agent3_runs_no_coherence_check :
  truthy (prositRetour (memory Examples.world_pr)) = true
  /\ match fst (Agent3.runAgent (Orchestrator.log agent3) Examples.env_cer
                  Examples.world_pr) with
     | inr c =>
         Agent2.check_coherence (prositRetour (memory Examples.world_pr)) c
         = inr {| Agent2.coherent := false;
                  Agent2.issues :=
                    [jsq "Thème incohérent : PA='Cloud migration' vs PR='Unrelated topic'"] |}
     | inl _ => False
     end
  /\ coherenceWarnings
       (memory (snd (Agent3.runAgent (Orchestrator.log agent3) Examples.env_cer
                       Examples.world_pr))) = [].
Proof. vm_compute. repeat split; reflexivity. Qed.

(** ** The orchestrator: a stage that throws *)

Section Propagation.
Context {B : Builtins}.

Import Orchestrator Stages.

Lemma agent2_keeps_earlier :
  keeps (fun w => earlier_outputs stage_2 (memory w))
        (Agent2.runAgent (log agent2)).
Proof. unfold Agent2.runAgent, Agent2.correction. keeps_all. Qed.

Lemma agent3_keeps_earlier :
  keeps (fun w => earlier_outputs stage_3 (memory w))
        (Agent3.runAgent (log agent3)).
Proof. unfold Agent3.runAgent, Agent3.correction. keeps_all. Qed.

Lemma agent_keeps_earlier (s : stage) :
  keeps (fun w => earlier_outputs s (memory w)) (agent_of s).
Proof.
  destruct s; simpl.
  - intros env w; reflexivity.
  - apply agent2_keeps_earlier.
  - apply agent3_keeps_earlier.
Qed.

(** C9. When the agent of a stage that [run] reaches throws, [run] throws
    the same error and ends in the very state the agent left: nothing is
    run after the throw, no later stage and no log.  In that state the
    documents and the files of the earlier stages are the ones the stage
    found. *)
Theorem run_propagates (env : Env) (mode : jsstring) (skipPR : bool)
    (s : stage) (w w1 w2 : World) (e : exn) :
  scheduled mode skipPR s = true ->
  before mode skipPR s env w = (inr tt, w1) ->
  agent_of s env w1 = (inl e, w2) ->
  run mode skipPR env w = (inl e, w2)
  /\ earlier_outputs s (memory w2) = earlier_outputs s (memory w1).
Proof.
  intros Hs Hb Ha. split.
  - unfold run. destruct s; cbn [scheduled before agent_of] in Hs, Hb, Ha.
    + unfold stage1. rewrite Hs.
      unfold bind in *.
      destruct (prelude env w) as [[e0|[]] w0]; [discriminate|].
      destruct (before_agent1 env w0) as [[e1|[]] w0']; [discriminate|].
      injection Hb as ->. now rewrite Ha.
    + apply andb_true_iff in Hs as [Hm Hk].
      apply negb_true_iff in Hm, Hk. subst skipPR.
      unfold stage2. rewrite Hm.
      unfold bind in *.
      destruct (prelude env w) as [[e0|[]] w0]; [discriminate|].
      destruct (stage1 mode env w0) as [[e1|[]] w0']; [discriminate|].
      destruct (before_agent2 env w0') as [[e2|[]] w0'']; [discriminate|].
      injection Hb as ->. now rewrite Ha.
    + unfold stage3. unfold bind in *.
      destruct (prelude env w) as [[e0|[]] w0]; [discriminate|].
      destruct (stage1 mode env w0) as [[e1|[]] w0']; [discriminate|].
      destruct (stage2 mode skipPR env w0') as [[e2|[]] w0'']; [discriminate|].
      destruct (before_agent3 env w0'') as [[e3|[]] w0''']; [discriminate|].
      injection Hb as ->. now rewrite Ha.
  - pose proof (agent_keeps_earlier s env w1) as H.
    now rewrite Ha in H.
Qed.

End Propagation.

Lemma run_propagates_witness :
  exists w1 w2,
    Stages.before (js "full") false Stages.stage_2 Examples.env_stage2_fails
      Examples.world_theme = (inr tt, w1)
    /\ Stages.agent_of Stages.stage_2 Examples.env_stage2_fails w1
       = (inl ErrNoJson, w2)
    /\ Orchestrator.run (js "full") false Examples.env_stage2_fails
         Examples.world_theme = (inl ErrNoJson, w2)
    /\ Stages.earlier_outputs Stages.stage_2 (memory w2)
       = Stages.earlier_outputs Stages.stage_2 (memory w1).
Proof.
  eexists; eexists.
  assert (Hb : Stages.before (js "full") false Stages.stage_2
                 Examples.env_stage2_fails Examples.world_theme
               = (inr tt,
                  snd (Stages.before (js "full") false Stages.stage_2
                         Examples.env_stage2_fails Examples.world_theme)))
    by (vm_compute; reflexivity).
  assert (Ha : Stages.agent_of Stages.stage_2 Examples.env_stage2_fails
                 (snd (Stages.before (js "full") false Stages.stage_2
                         Examples.env_stage2_fails Examples.world_theme))
               = (inl ErrNoJson,
                  snd (Stages.agent_of Stages.stage_2 Examples.env_stage2_fails
                         (snd (Stages.before (js "full") false Stages.stage_2
                                 Examples.env_stage2_fails
                                 Examples.world_theme)))))
    by (vm_compute; reflexivity).
  split; [exact Hb|]. split; [exact Ha|].
  apply (@run_propagates latin1_builtins Examples.env_stage2_fails
           (js "full") false Stages.stage_2 Examples.world_theme _ _ ErrNoJson
           eq_refl Hb Ha).
Defined.

Section ParserDepth.

Lemma depth_value_done (v : JValue) (st : list frame) :
  depth_of (value_done v st) = Z.of_nat (length st).
Proof.
  destruct st as [|[es|ms k] st]; cbn [value_done depth_of length];
    rewrite ?Nat2Z.inj_succ; lia.
Qed.

Ltac depth_arith :=
  cbn [depth_of depth_change length]; rewrite ?depth_value_done;
  cbn [length]; rewrite ?Nat2Z.inj_succ; lia.

Lemma feed_value_depth (st : list frame) (t : token) (p' : pstate) :
  feed_value st t = Some p' ->
  depth_of p' = Z.of_nat (length st) + depth_change t.
Proof.
  destruct t; cbn [feed_value]; try discriminate; intros [= <-]; depth_arith.
Qed.

Lemma feed_depth (p : pstate) (t : token) (p' : pstate) :
  feed p t = Some p' -> depth_of p' = depth_of p + depth_change t.
Proof.
  destruct p; cbn [feed].
  - apply feed_value_depth.
  - destruct t;
      try (intros H; apply feed_value_depth in H; rewrite H; depth_arith).
    intros [= <-]; depth_arith.
  - destruct t; try discriminate; intros [= <-]; depth_arith.
  - destruct t; try discriminate; intros [= <-]; depth_arith.
  - destruct t; try discriminate; intros [= <-]; depth_arith.
  - destruct t; try discriminate; intros [= <-]; depth_arith.
  - destruct t; try discriminate; intros [= <-]; depth_arith.
  - discriminate.
Qed.

Lemma depth_nonneg (p : pstate) : 0 <= depth_of p.
Proof. destruct p; simpl; lia. Qed.

Lemma feed_done (v : JValue) (t : token) : feed (PDone v) t = None.
Proof. reflexivity. Qed.

(** After a closing token the depth is zero only when the value is
    complete. *)
Lemma value_done_not_value (v : JValue) (st st' : list frame) :
  value_done v st <> PValue st'.
Proof. destruct st as [|[?|? ?] ?]; discriminate. Qed.

Lemma feed_closer_done (p : pstate) (t : token) (p' : pstate) :
  feed p t = Some p' -> depth_change t = -1 -> depth_of p' = 0 ->
  exists v, p' = PDone v.
Proof.
  intros Hf Ht Hd.
  destruct p'; cbn [depth_of] in Hd; try lia; eauto.
  (* [PValue []] cannot follow a closing token *)
  exfalso.
  destruct p, t; cbn [feed feed_value depth_change] in *;
    try discriminate; try lia;
    injection Hf as Hf; now apply value_done_not_value in Hf.
Qed.

End ParserDepth.

(** ** The lexer after the value is complete, and on a scalar *)

Section LexerFacts.

Lemma end_word_done (v : JValue) (acc : jsstring) :
  end_word (PDone v) acc = None.
Proof. unfold end_word. now destruct (classify acc). Qed.

Lemma start_char_done (v : JValue) (c : Z) (l : lstate) (p : pstate) :
  start_char (PDone v) c = Some (l, p) ->
  p = PDone v /\ (l = LNormal -> is_json_ws c = true).
Proof.
  unfold start_char.
  destruct (is_json_ws c); [now intros [= <- <-]|].
  destruct (punct c); [discriminate|].
  destruct (c =? ch_quote); [intros [= <- <-]; split; [auto|discriminate]|].
  destruct (is_word_char c); [|discriminate].
  intros [= <- <-]; split; [auto|discriminate].
Qed.

(** Once the value is complete, only white space may follow. *)
Lemma after_done (text : jsstring) :
  forall (l : lstate) (v : JValue) (st : jstate) (v' : JValue),
    jrun (l, PDone v) text = Some st -> jfinish st = Some v' ->
    l = LNormal /\ Forall (fun c => is_json_ws c = true) text /\ v' = v.
Proof.
  induction text as [|c t IH]; intros l v st v'.
  - cbn [jrun]. intros [= <-]. destruct l; cbn [jfinish]; try discriminate.
    + now intros [= <-].
    + now rewrite end_word_done.
  - cbn [jrun]. destruct (jstep (l, PDone v) c) as [[l' p']|] eqn:Hs;
      [|discriminate].
    intros Hr Hf. cbn [jstep] in Hs. destruct l.
    + apply start_char_done in Hs as [-> Hl].
      destruct (IH _ _ _ _ Hr Hf) as (-> & Ht & ->).
      repeat split; auto.
    + destruct (is_word_char c).
      * injection Hs as <- <-. now destruct (IH _ _ _ _ Hr Hf).
      * now rewrite end_word_done in Hs.
    + destruct (c =? ch_quote); [discriminate|].
      destruct (c =? ch_backslash);
        [injection Hs as <- <-; now destruct (IH _ _ _ _ Hr Hf)|].
      destruct (c <? 32); [discriminate|].
      injection Hs as <- <-. now destruct (IH _ _ _ _ Hr Hf).
    + destruct (c =? 117);
        [injection Hs as <- <-; now destruct (IH _ _ _ _ Hr Hf)|].
      destruct (escape_char c); [|discriminate].
      injection Hs as <- <-. now destruct (IH _ _ _ _ Hr Hf).
    + destruct (hex_value c); [|discriminate].
      destruct hs as [|h1 [|h2 [|h3 [|h4 hs]]]];
        injection Hs as <- <-; now destruct (IH _ _ _ _ Hr Hf).
Qed.

Lemma classify_literal (w : jsstring) (t : token) :
  classify w = Some t ->
  exists lit, t = TLit lit /\ is_container lit = false.
Proof.
  unfold classify.
  repeat match goal with
         | |- context [if ?b then _ else _] => destruct b
         end; try discriminate; intros [= <-]; eauto.
Qed.

Lemma end_word_depth (p : pstate) (acc : jsstring) (p' : pstate) :
  end_word p acc = Some p' -> depth_of p' = depth_of p.
Proof.
  unfold end_word. destruct (classify acc) as [t|] eqn:E; [|discriminate].
  destruct (classify_literal _ E) as (lit & -> & _).
  intros H. apply feed_depth in H. cbn [depth_change] in H. lia.
Qed.

Lemma end_word_top (acc : jsstring) (p' : pstate) :
  end_word (PValue []) acc = Some p' ->
  exists lit, p' = PDone lit /\ is_container lit = false.
Proof.
  unfold end_word. destruct (classify acc) as [t|] eqn:E; [|discriminate].
  destruct (classify_literal _ E) as (lit & -> & Hl).
  cbn. intros [= <-]. eauto.
Qed.

(** A text that starts with a string, a literal or a number is a scalar. *)
Lemma scalar_run (text : jsstring) :
  forall (l : lstate) (st : jstate) (v : JValue),
    l <> LNormal ->
    jrun (l, PValue []) text = Some st -> jfinish st = Some v ->
    is_container v = false.
Proof.
  induction text as [|c t IH]; intros l st v Hl.
  - cbn [jrun]. intros [= <-]. destruct l; cbn [jfinish]; try discriminate;
      try congruence.
    destruct (end_word (PValue []) acc) as [p'|] eqn:E; [|discriminate].
    destruct (end_word_top _ E) as (lit & -> & Hlit). intros [= <-]. exact Hlit.
  - cbn [jrun]. destruct (jstep (l, PValue []) c) as [[l' p']|] eqn:Hs;
      [|discriminate].
    intros Hr Hf. cbn [jstep] in Hs. destruct l; [congruence| | | |].
    + destruct (is_word_char c).
      * injection Hs as <- <-. (eapply IH; [|exact Hr|exact Hf]; discriminate).
      * destruct (end_word (PValue []) acc) as [p1|] eqn:E; [|discriminate].
        destruct (end_word_top _ E) as (lit & -> & Hlit).
        apply start_char_done in Hs as [-> _].
        destruct (@after_done _ _ _ _ _ Hr Hf) as (_ & _ & ->). exact Hlit.
    + destruct (c =? ch_quote).
      * cbn in Hs. injection Hs as <- <-.
        destruct (@after_done _ _ _ _ _ Hr Hf) as (_ & _ & ->). reflexivity.
      * destruct (c =? ch_backslash);
          [injection Hs as <- <-; (eapply IH; [|exact Hr|exact Hf]; discriminate)|].
        destruct (c <? 32); [discriminate|].
        injection Hs as <- <-; (eapply IH; [|exact Hr|exact Hf]; discriminate).
    + destruct (c =? 117);
        [injection Hs as <- <-; (eapply IH; [|exact Hr|exact Hf]; discriminate)|].
      destruct (escape_char c); [|discriminate].
      injection Hs as <- <-; (eapply IH; [|exact Hr|exact Hf]; discriminate).
    + destruct (hex_value c); [|discriminate].
      destruct hs as [|h1 [|h2 [|h3 [|h4 hs]]]];
        injection Hs as <- <-; (eapply IH; [|exact Hr|exact Hf]; discriminate).
Qed.

Lemma jfinish_depth (l : lstate) (p : pstate) (v : JValue) :
  jfinish (l, p) = Some v -> depth_of p = 0.
Proof.
  cbn [jfinish]. destruct l; try discriminate.
  - destruct p; try discriminate. reflexivity.
  - destruct (end_word p acc) as [p'|] eqn:E; [|discriminate].
    apply end_word_depth in E. destruct p'; try discriminate.
    intros _. cbn [depth_of] in E. lia.
Qed.

End LexerFacts.

(** ** One step of the loop of parseJSON *)

Section ScannerSteps.

Variables opener closer : Z.
Hypothesis opener_ok : is_opener opener = true.
Hypothesis closer_ok : is_closer closer = true.


Lemma opener_cases : opener = ch_lbrace \/ opener = ch_lbracket.
Proof.
  unfold is_opener in opener_ok.
  apply orb_true_iff in opener_ok as [H|H]; apply Z.eqb_eq in H; auto.
Qed.

Lemma closer_cases : closer = ch_rbrace \/ closer = ch_rbracket.
Proof.
  unfold is_closer in closer_ok.
  apply orb_true_iff in closer_ok as [H|H]; apply Z.eqb_eq in H; auto.
Qed.

Ltac eqb_false :=
  repeat match goal with
         | |- context [?a =? ?b] =>
             rewrite (proj2 (Z.eqb_neq a b))
               by (unfold ch_backslash, ch_quote, ch_lbrace, ch_rbrace,
                     ch_lbracket, ch_rbracket in *; lia)
         end.

Lemma find_end_plain (c : Z) (X : jsstring) (i : nat) (d : Z) :
  plain c ->
  find_end opener closer (c :: X) i d false false
  = find_end opener closer X (S i) d false false.
Proof.
  intros (H1 & H2 & H3 & H4 & H5 & H6).
  destruct opener_cases as [-> | ->], closer_cases as [-> | ->];
    cbn [find_end]; eqb_false; reflexivity.
Qed.

Lemma find_end_in_string (c : Z) (X : jsstring) (i : nat) (d : Z) :
  c <> ch_backslash -> c <> ch_quote ->
  find_end opener closer (c :: X) i d true false
  = find_end opener closer X (S i) d true false.
Proof. intros H1 H2. cbn [find_end]. eqb_false. reflexivity. Qed.

Lemma find_end_escape (c : Z) (X : jsstring) (i : nat) (d : Z) (inStr : bool) :
  find_end opener closer (c :: X) i d inStr true
  = find_end opener closer X (S i) d inStr false.
Proof. reflexivity. Qed.

Lemma find_end_backslash (X : jsstring) (i : nat) (d : Z) (inStr : bool) :
  find_end opener closer (ch_backslash :: X) i d inStr false
  = find_end opener closer X (S i) d inStr true.
Proof. reflexivity. Qed.

Lemma find_end_quote (X : jsstring) (i : nat) (d : Z) (inStr : bool) :
  find_end opener closer (ch_quote :: X) i d inStr false
  = find_end opener closer X (S i) d (negb inStr) false.
Proof. reflexivity. Qed.

Lemma find_end_opener (c : Z) (X : jsstring) (i : nat) (d : Z) :
  is_opener c = true ->
  find_end opener closer (c :: X) i d false false
  = find_end opener closer X (S i) (d + 1) false false.
Proof.
  intros Hc. unfold is_opener in Hc.
  apply orb_true_iff in Hc as [Hc|Hc]; apply Z.eqb_eq in Hc; subst c;
    destruct opener_cases as [-> | ->], closer_cases as [-> | ->];
    reflexivity.
Qed.

Lemma find_end_closer (c : Z) (X : jsstring) (i : nat) (d : Z) :
  is_closer c = true ->
  find_end opener closer (c :: X) i d false false
  = if d - 1 =? 0 then Some i
    else find_end opener closer X (S i) (d - 1) false false.
Proof.
  intros Hc. unfold is_closer in Hc.
  apply orb_true_iff in Hc as [Hc|Hc]; apply Z.eqb_eq in Hc; subst c;
    destruct opener_cases as [-> | ->], closer_cases as [-> | ->];
    reflexivity.
Qed.

End ScannerSteps.

Lemma json_ws_plain (c : Z) : is_json_ws c = true -> plain c.
Proof.
  unfold is_json_ws, plain, ch_space, ch_tab, ch_lf, ch_cr, ch_backslash,
    ch_quote, ch_lbrace, ch_rbrace, ch_lbracket, ch_rbracket.
  rewrite !orb_true_iff, !Z.eqb_eq. lia.
Qed.

Lemma word_char_plain (c : Z) : is_word_char c = true -> plain c.
Proof.
  unfold is_word_char, is_letter, is_digit, plain, ch_backslash,
    ch_quote, ch_lbrace, ch_rbrace, ch_lbracket, ch_rbracket.
  rewrite !orb_true_iff, !andb_true_iff, !Z.eqb_eq, !Z.leb_le. lia.
Qed.

Lemma hex_not_special (c h : Z) :
  hex_value c = Some h -> c <> ch_backslash /\ c <> ch_quote.
Proof.
  unfold hex_value, is_digit, ch_backslash, ch_quote.
  destruct ((48 <=? c) && (c <=? 57)) eqn:E1;
    [apply andb_true_iff in E1; rewrite !Z.leb_le in E1; lia|].
  destruct ((97 <=? c) && (c <=? 102)) eqn:E2;
    [apply andb_true_iff in E2; rewrite !Z.leb_le in E2; lia|].
  destruct ((65 <=? c) && (c <=? 70)) eqn:E3;
    [apply andb_true_iff in E3; rewrite !Z.leb_le in E3; lia|].
  discriminate.
Qed.

(** The token of a punctuation mark, and what the loop does on the mark. *)
Lemma punct_cases (c : Z) (t : token) :
  punct c = Some t ->
  (is_opener c = true /\ depth_change t = 1)
  \/ (is_closer c = true /\ depth_change t = -1)
  \/ (plain c /\ depth_change t = 0).
Proof.
  unfold punct.
  destruct (c =? ch_lbrace) eqn:E1;
    [apply Z.eqb_eq in E1; subst; intros [= <-]; left; split; reflexivity|].
  destruct (c =? ch_rbrace) eqn:E2;
    [apply Z.eqb_eq in E2; subst; intros [= <-]; right; left; split;
     reflexivity|].
  destruct (c =? ch_lbracket) eqn:E3;
    [apply Z.eqb_eq in E3; subst; intros [= <-]; left; split; reflexivity|].
  destruct (c =? ch_rbracket) eqn:E4;
    [apply Z.eqb_eq in E4; subst; intros [= <-]; right; left; split;
     reflexivity|].
  destruct (c =? ch_comma) eqn:E5;
    [apply Z.eqb_eq in E5; subst; intros [= <-]; right; right; split;
     [repeat split; discriminate | reflexivity]|].
  destruct (c =? ch_colon) eqn:E6;
    [apply Z.eqb_eq in E6; subst; intros [= <-]; right; right; split;
     [repeat split; discriminate | reflexivity]|].
  discriminate.
Qed.

(** ** The loop of parseJSON follows the parser *)

Section Simulation.

Variables opener closer : Z.
Hypothesis opener_ok : is_opener opener = true.
Hypothesis closer_ok : is_closer closer = true.


Lemma sim_start (p : pstate) (c : Z) (l' : lstate) (p' : pstate) (i : nat) :
  start_char p c = Some (l', p') -> 1 <= depth_of p ->
  step_outcome opener closer LNormal p c l' p' i.
Proof.
  unfold start_char, step_outcome. intros Hs Hd. cbn [lex_flags fst snd].
  destruct (is_json_ws c) eqn:Ews.
  { injection Hs as <- <-. right. split; [exact Hd|]. intros X.
    now apply find_end_plain, json_ws_plain. }
  destruct (punct c) as [t|] eqn:Ep.
  { destruct (feed p t) as [p1|] eqn:Ef; [|discriminate].
    cbn in Hs. injection Hs as <- <-.
    pose proof (feed_depth _ _ Ef) as Hdep.
    destruct (punct_cases _ Ep) as [[Hc Ht]|[[Hc Ht]|[Hc Ht]]];
      rewrite Ht in Hdep.
    - right. split; [lia|]. intros X.
      rewrite find_end_opener by assumption.
      now rewrite Hdep.
    - destruct (depth_of p - 1 =? 0) eqn:E0.
      + left. apply Z.eqb_eq in E0.
        repeat split; auto.
        * apply (feed_closer_done _ _ Ef Ht). lia.
        * intros X.
          rewrite find_end_closer by assumption.
          now rewrite (proj2 (Z.eqb_eq _ _) E0).
      + right. apply Z.eqb_neq in E0. split; [lia|]. intros X.
        rewrite find_end_closer by assumption.
        rewrite (proj2 (Z.eqb_neq _ _) E0).
        now replace (depth_of p1) with (depth_of p - 1) by lia.
    - right. split; [lia|]. intros X.
      rewrite find_end_plain by assumption.
      now replace (depth_of p1) with (depth_of p) by lia. }
  destruct (c =? ch_quote) eqn:Eq.
  { injection Hs as <- <-. apply Z.eqb_eq in Eq; subst c.
    right. split; [exact Hd|]. intros X. apply find_end_quote. }
  destruct (is_word_char c) eqn:Ew; [|discriminate].
  injection Hs as <- <-. right. split; [exact Hd|]. intros X.
  now apply find_end_plain, word_char_plain.
Qed.

Lemma sim_step (l : lstate) (p : pstate) (c : Z) (l' : lstate) (p' : pstate)
    (i : nat) :
  jstep (l, p) c = Some (l', p') -> 1 <= depth_of p ->
  step_outcome opener closer l p c l' p' i.
Proof.
  intros Hs Hd. cbn [jstep] in Hs. destruct l.
  - now apply sim_start.
  - destruct (is_word_char c) eqn:Ew.
    + injection Hs as <- <-. right. split; [exact Hd|]. intros X.
      now apply find_end_plain, word_char_plain.
    + destruct (end_word p acc) as [p1|] eqn:E; [|discriminate].
      pose proof (end_word_depth _ _ E) as Hp1.
      assert (H1 : 1 <= depth_of p1) by lia.
      pose proof (sim_start _ _ i Hs H1) as Ho.
      unfold step_outcome in *. cbn [lex_flags fst snd] in *.
      now rewrite Hp1 in Ho.
  - unfold step_outcome. cbn [lex_flags fst snd].
    destruct (c =? ch_quote) eqn:Eq.
    + destruct (feed p (TStr acc)) as [p1|] eqn:Ef; [|discriminate].
      cbn in Hs. injection Hs as <- <-. apply Z.eqb_eq in Eq; subst c.
      pose proof (feed_depth _ _ Ef) as Hdep. cbn [depth_change] in Hdep.
      right. split; [lia|]. intros X. rewrite find_end_quote.
      now replace (depth_of p1) with (depth_of p) by lia.
    + apply Z.eqb_neq in Eq. destruct (c =? ch_backslash) eqn:Eb.
      * injection Hs as <- <-. apply Z.eqb_eq in Eb; subst c.
        right. split; [exact Hd|]. intros X. apply find_end_backslash.
      * apply Z.eqb_neq in Eb. destruct (c <? 32); [discriminate|].
        injection Hs as <- <-. right. split; [exact Hd|]. intros X.
        now apply find_end_in_string.
  - unfold step_outcome. cbn [lex_flags fst snd].
    right. split.
    + destruct (c =? 117); [now injection Hs as <- <-|].
      destruct (escape_char c); [|discriminate]. now injection Hs as <- <-.
    + intros X. rewrite find_end_escape.
      destruct (c =? 117); [now injection Hs as <- <-|].
      destruct (escape_char c); [|discriminate]. now injection Hs as <- <-.
  - unfold step_outcome. cbn [lex_flags fst snd].
    destruct (hex_value c) as [h|] eqn:Eh; [|discriminate].
    destruct (hex_not_special _ Eh) as [H1 H2].
    right. split.
    + destruct hs as [|h1 [|h2 [|h3 [|h4 hs]]]]; now injection Hs as <- <-.
    + intros X. rewrite find_end_in_string by assumption.
      destruct hs as [|h1 [|h2 [|h3 [|h4 hs]]]]; now injection Hs as <- <-.
Qed.

(** On a text the parser accepts from a state with an open container, the
    loop stops on the closing brace or bracket that completes the value:
    what follows is white space, and what the text is followed by does not
    matter. *)
Lemma scan_sim (text : jsstring) :
  forall (l : lstate) (p : pstate) (st : jstate) (v : JValue) (i : nat),
    jrun (l, p) text = Some st -> jfinish st = Some v -> 1 <= depth_of p ->
    exists pre c rest,
      text = pre ++ c :: rest
      /\ is_closer c = true
      /\ jrun (l, p) (pre ++ [c]) = Some (LNormal, PDone v)
      /\ Forall (fun x => is_json_ws x = true) rest
      /\ forall Q, find_end opener closer (text ++ Q) i (depth_of p) (fst (lex_flags l))
                     (snd (lex_flags l)) = Some (i + length pre)%nat.
Proof.
  induction text as [|c t IH]; intros l p st v i Hr Hf Hd.
  - cbn [jrun] in Hr. injection Hr as <-.
    apply jfinish_depth in Hf. lia.
  - cbn [jrun] in Hr.
    destruct (jstep (l, p) c) as [[l' p']|] eqn:Hs; [|discriminate].
    destruct (@sim_step _ _ _ _ _ i Hs Hd) as [(Hc & -> & (v0 & ->) & Hscan)|[Hd' Hscan]].
    + destruct (@after_done _ _ _ _ _ Hr Hf) as (_ & Hws & ->).
      exists [], c, t. repeat split; auto.
      * cbn [app jrun]. now rewrite Hs.
      * intros Q. cbn [app]. rewrite Hscan. f_equal. cbn [length]. lia.
    + destruct (IH _ _ _ _ (S i) Hr Hf Hd')
        as (pre & c' & rest & -> & Hc' & Hrun & Hws & Hscan').
      exists (c :: pre), c', rest. repeat split; auto.
      * cbn [app jrun]. now rewrite Hs.
      * intros Q. cbn [app]. rewrite Hscan.
        rewrite Hscan'. f_equal. cbn [length]. lia.
Qed.

End Simulation.

(** ** The text of an object or of an array *)

Section JsonCore.

Lemma jrun_ws (ws x : jsstring) (p : pstate) :
  Forall (fun c => is_json_ws c = true) ws ->
  jrun (LNormal, p) (ws ++ x) = jrun (LNormal, p) x.
Proof.
  induction 1 as [|c ws Hc _ IH]; [reflexivity|].
  cbn [app jrun jstep]. unfold start_char. now rewrite Hc.
Qed.

(** The first code unit of the text of a container is its opening brace or
    bracket. *)
Lemma first_char_opener (o : Z) (s2 : jsstring) (st : jstate) (v : JValue) :
  is_json_ws o = false ->
  jrun jinit (o :: s2) = Some st -> jfinish st = Some v ->
  is_container v = true ->
  is_opener o = true
  /\ exists p1, jstep jinit o = Some (LNormal, p1) /\ depth_of p1 = 1.
Proof.
  intros Hws Hr Hf Hv. cbn [jrun] in Hr.
  destruct (jstep jinit o) as [[l1 p1]|] eqn:Hs; [|discriminate].
  unfold jinit in Hs. cbn [jstep] in Hs. unfold start_char in Hs.
  rewrite Hws in Hs.
  destruct (punct o) as [t|] eqn:Ep.
  - destruct (feed (PValue []) t) as [p2|] eqn:Ef; [|discriminate].
    cbn in Hs. injection Hs as <- <-.
    destruct (punct_cases _ Ep) as [[Hc Ht]|[[Hc Ht]|[Hc Ht]]].
    + split; [exact Hc|]. exists p2. split; [reflexivity|].
      apply feed_depth in Ef. rewrite Ht in Ef. cbn [depth_of length] in Ef.
      lia.
    + destruct t; cbn in Ht; try discriminate; discriminate.
    + unfold punct in Ep.
      repeat match type of Ep with
             | context [if ?b then _ else _] => destruct b
             end; try discriminate; injection Ep as <-; discriminate.
  - destruct (o =? ch_quote).
    + injection Hs as <- <-.
      assert (Hn : LStr [] <> LNormal) by discriminate.
      rewrite (scalar_run _ Hn Hr Hf) in Hv. discriminate.
    + destruct (is_word_char o); [|discriminate].
      injection Hs as <- <-.
      assert (Hn : LWord [o] <> LNormal) by discriminate.
      rewrite (scalar_run _ Hn Hr Hf) in Hv. discriminate.
Qed.


Lemma closer_of_ok (o : Z) : is_closer (closer_of o) = true.
Proof. unfold closer_of. now destruct (o =? ch_lbrace). Qed.

(** A valid text of an object or of an array is white space, the text
    [core] from the opening to the closing brace or bracket, and white
    space; [core] parses to the same value, and on [core], whatever follows
    it, the loop of parseJSON stops on its last code unit. *)
Lemma json_core (s : jsstring) (v : JValue) :
  JSON_parse s = Some v -> is_container v = true ->
  exists ws1 o body c rest,
    s = ws1 ++ (o :: body ++ [c]) ++ rest
    /\ Forall (fun x => is_json_ws x = true) ws1
    /\ Forall (fun x => is_json_ws x = true) rest
    /\ is_opener o = true /\ is_closer c = true
    /\ JSON_parse (o :: body ++ [c]) = Some v
    /\ forall Q, find_end o (closer_of o) ((o :: body ++ [c]) ++ Q) 0 0
                   false false = Some (S (length body)).
Proof.
  unfold JSON_parse. intros Hp Hv.
  destruct (jrun jinit s) as [st|] eqn:Hr; [|discriminate].
  pose proof (takeWhile_dropWhile is_json_ws s) as Hs.
  pose proof (takeWhile_all is_json_ws s) as Hws1.
  rewrite <- Hs in Hr. unfold jinit in Hr. rewrite jrun_ws in Hr by exact Hws1.
  destruct (dropWhile is_json_ws s) as [|o s2] eqn:Hd.
  { cbn in Hr. injection Hr as <-. discriminate. }
  pose proof (dropWhile_head _ _ Hd) as Ho.
  destruct (@first_char_opener o s2 st v Ho Hr Hp Hv) as (Hop & p1 & Hs1 & Hd1).
  cbn [jrun] in Hr. unfold jinit in Hs1. rewrite Hs1 in Hr.
  assert (H1 : 1 <= depth_of p1) by lia.
  destruct (@scan_sim o (closer_of o) Hop (closer_of_ok o) s2 _ _ _ _ 1%nat
              Hr Hp H1)
    as (pre & c & rest & Hs2 & Hc & Hrun & Hrest & Hscan).
  assert (Hfin : jfinish (LNormal, PDone v) = Some v) by reflexivity.
  destruct (@scan_sim o (closer_of o) Hop (closer_of_ok o) (pre ++ [c]) _ _ _ _
              1%nat Hrun Hfin H1)
    as (pre' & c' & rest' & Hs2' & _ & _ & _ & Hscan').
  assert (Hlen : length pre' = length pre).
  { specialize (Hscan []). specialize (Hscan' (rest ++ [])).
    rewrite Hs2 in Hscan at 1.
    rewrite <- app_assoc in Hscan. cbn [app] in Hscan.
    replace (pre ++ c :: rest ++ []) with ((pre ++ [c]) ++ rest ++ [])
      in Hscan by (rewrite <- app_assoc; reflexivity).
    rewrite Hscan' in Hscan. injection Hscan as Hscan. lia. }
  exists (takeWhile is_json_ws s), o, pre, c, rest.
  repeat split; auto.
  - rewrite <- Hs at 1. f_equal. rewrite Hs2. cbn [app].
    now rewrite <- app_assoc.
  - cbn [jrun]. unfold jinit. rewrite Hs1, Hrun. reflexivity.
  - intros Q. cbn [app].
    rewrite find_end_opener by (auto using closer_of_ok).
    cbn [Z.add]. rewrite Hd1 in Hscan'.
    cbn [lex_flags fst snd] in Hscan'.
    rewrite Hscan'. now rewrite Hlen.
Qed.

End JsonCore.

(** ** Strings: prefixes, white space, substrings *)

Section StringFacts.

Lemma dropWhile_app_stop (p : Z -> bool) (a : jsstring) (c : Z) (b : jsstring) :
  p c = false -> dropWhile p (a ++ c :: b) = dropWhile p a ++ c :: b.
Proof.
  intros Hc. induction a as [|x a IH]; cbn [app dropWhile].
  - now rewrite Hc.
  - destruct (p x); [exact IH | reflexivity].
Qed.

Lemma takeWhile_app_stop (p : Z -> bool) (a : jsstring) (c : Z) (b : jsstring) :
  p c = false -> takeWhile p (a ++ c :: b) = takeWhile p a.
Proof.
  intros Hc. induction a as [|x a IH]; cbn [app takeWhile].
  - now rewrite Hc.
  - destruct (p x); [now rewrite IH | reflexivity].
Qed.

Lemma dropWhile_keeps (P : Z -> Prop) (p : Z -> bool) (s : jsstring) :
  Forall P s -> Forall P (dropWhile p s).
Proof.
  induction 1 as [|c t Hc Ht IH]; cbn [dropWhile]; [constructor|].
  destruct (p c); auto.
Qed.

Lemma takeWhile_length_all (p : Z -> bool) (s : jsstring) :
  length (takeWhile p s) = length s -> Forall (fun c => p c = true) s.
Proof.
  induction s as [|c t IH]; cbn [takeWhile length]; [constructor|].
  destruct (p c) eqn:E; cbn [length]; [|discriminate].
  intros [= H]. constructor; auto.
Qed.

Lemma trimEnd_around (A : jsstring) (c : Z) (Y : jsstring) :
  is_space c = false ->
  trimEnd (A ++ c :: Y) = A ++ c :: rev (dropWhile is_space (rev Y)).
Proof.
  intros Hc. unfold trimEnd.
  rewrite rev_app_distr. cbn [rev]. rewrite <- app_assoc. cbn [app].
  rewrite dropWhile_app_stop by exact Hc.
  rewrite rev_app_distr. cbn [rev]. rewrite rev_involutive.
  rewrite <- app_assoc. reflexivity.
Qed.

(** [trim] around a text that starts and ends with code units that are not
    white space. *)
Lemma trim_around (X : jsstring) (o : Z) (body : jsstring) (c : Z)
    (Y : jsstring) :
  is_space o = false -> is_space c = false ->
  trim (X ++ (o :: body ++ [c]) ++ Y)
  = dropWhile is_space X ++ (o :: body ++ [c])
    ++ rev (dropWhile is_space (rev Y)).
Proof.
  intros Ho Hc. unfold trim, trimStart.
  cbn [app]. rewrite dropWhile_app_stop by exact Ho.
  replace (dropWhile is_space X ++ o :: (body ++ [c]) ++ Y)
    with ((dropWhile is_space X ++ o :: body) ++ c :: Y)
    by (rewrite <- !app_assoc; reflexivity).
  rewrite trimEnd_around by exact Hc.
  rewrite <- !app_assoc. reflexivity.
Qed.

Lemma search_opener_app (P : jsstring) (o : Z) (R : jsstring) :
  Forall (fun c => is_opener c = false) P -> is_opener o = true ->
  search_opener (P ++ o :: R) = Some (length P).
Proof.
  intros HP Ho. induction HP as [|c t Hc _ IH]; cbn [app search_opener length].
  - now rewrite Ho.
  - now rewrite Hc, IH.
Qed.

Lemma skipn_length_app (P R : jsstring) : skipn (length P) (P ++ R) = R.
Proof. induction P; [reflexivity | assumption]. Qed.

Lemma firstn_length_app (P R : jsstring) : firstn (length P) (P ++ R) = P.
Proof. induction P as [|c P IH]; [now destruct R | cbn; now rewrite IH]. Qed.

Lemma startsWith_app (p b c : jsstring) :
  startsWith p b = true -> startsWith p (b ++ c) = true.
Proof.
  revert b; induction p as [|x p IH]; intros b; [reflexivity|].
  destruct b as [|y b]; cbn [startsWith app]; [discriminate|].
  rewrite !andb_true_iff. intros [H1 H2]. auto.
Qed.

Lemma includes_head (p s : jsstring) :
  includes p s = false -> startsWith p s = false.
Proof. destruct s; cbn [includes]; now intros H%orb_false_iff. Qed.

Lemma includes_suffix (p a b : jsstring) :
  includes p (a ++ b) = false -> includes p b = false.
Proof.
  induction a as [|x a IH]; [auto|].
  cbn [app includes]. intros H%orb_false_iff. apply IH, H.
Qed.

Lemma includes_prefix (p b c : jsstring) :
  includes p (b ++ c) = false -> includes p b = false.
Proof.
  induction b as [|x b IH]; intros H.
  - cbn [includes]. rewrite orb_false_r.
    apply includes_head in H. cbn [app] in H.
    destruct (startsWith p []) eqn:E; [|reflexivity].
    apply (startsWith_app _ _ c) in E. cbn [app] in E. congruence.
  - cbn [app includes] in *. apply orb_false_iff in H as [H1 H2].
    apply orb_false_iff. split; [|now apply IH].
    destruct (startsWith p (x :: b)) eqn:E; [|reflexivity].
    apply (startsWith_app _ _ c) in E. cbn [app] in E. congruence.
Qed.

End StringFacts.

(** ** Regular expressions: where a match can be *)

Section PatternFacts.


Lemma replace_from_flag (re : pattern) (rep : jsstring -> jsstring)
    (b : bool) (k : nat) (s : jsstring) :
  flagless re -> replace_from re rep b k s = replace_from re rep false k s.
Proof.
  intros Hf. destruct s as [|c t]; [reflexivity|].
  cbn [replace_from]. destruct k; [|reflexivity]. now rewrite (Hf b).
Qed.

(** Lemma A: the replacement before a code unit that stops the matches does
    not depend on what follows. *)
Lemma replace_before (re : pattern) (rep : jsstring -> jsstring) (o : Z)
    (R : jsstring) :
  flagless re -> bounded re -> stops_at re o ->
  forall (P : jsstring) (b : bool) (k : nat),
    (k <= length P)%nat ->
    replace_from re rep b k (P ++ o :: R)
    = replace_from re rep b k P ++ replace_from re rep false 0 (o :: R).
Proof.
  intros Hf Hb Hs. induction P as [|c t IH]; intros b k Hk.
  - cbn [length] in Hk. replace k with 0%nat by lia.
    cbn [app]. now apply replace_from_flag.
  - cbn [app replace_from]. destruct k as [|k].
    + change (c :: t ++ o :: R) with ((c :: t) ++ o :: R). rewrite Hs.
      destruct (re b (c :: t)) as [[|n]|] eqn:E.
      * now rewrite IH by (cbn [length]; lia).
      * pose proof (Hb _ _ _ E) as Hn. cbn [length] in Hn.
        rewrite IH by lia. rewrite app_assoc. f_equal. f_equal.
        change (c :: t ++ o :: R) with ((c :: t) ++ o :: R).
        rewrite firstn_app.
        replace (S n - length (c :: t))%nat with 0%nat
          by (cbn [length]; lia).
        cbn [firstn]. now rewrite app_nil_r.
      * now rewrite IH by (cbn [length]; lia).
    + apply IH. cbn [length] in Hk. lia.
Qed.

(** Lemma B: a text in which no match starts is copied. *)
Lemma replace_through (re : pattern) (rep : jsstring -> jsstring)
    (Y : jsstring) :
  flagless re ->
  forall (core : jsstring) (b : bool),
    (forall pre t, core = pre ++ t -> t <> [] -> re false (t ++ Y) = None) ->
    replace_from re rep b 0 (core ++ Y)
    = core ++ replace_from re rep false 0 Y.
Proof.
  intros Hf. induction core as [|c t IH]; intros b Hno.
  - cbn [app]. now apply replace_from_flag.
  - cbn [app replace_from]. rewrite (Hf b).
    change (c :: t ++ Y) with ((c :: t) ++ Y).
    rewrite (Hno [] (c :: t) eq_refl) by discriminate.
    f_equal. apply IH. intros pre t' -> Ht'.
    now apply (Hno (c :: pre) t').
Qed.

(** A text without any match is left as it is. *)
Lemma replace_no_match (re : pattern) (rep : jsstring -> jsstring)
    (s : jsstring) :
  forall b, test_from re b s = false -> replace_from re rep b 0 s = s.
Proof.
  induction s as [|c t IH]; intros b; [reflexivity|].
  cbn [test_from replace_from].
  destruct (re b (c :: t)) as [[|n]|]; try discriminate;
    intros H; f_equal; now apply IH.
Qed.

Lemma test_from_suffix (re : pattern) (a x : jsstring) :
  flagless re ->
  forall b b', test_from re b (a ++ x) = false -> test_from re b' x = false.
Proof.
  intros Hf. induction a as [|c a IH]; intros b b'.
  - cbn [app]. destruct x as [|y x]; [reflexivity|].
    cbn [test_from]. now rewrite (Hf b), (Hf b').
  - cbn [app test_from].
    destruct (re b (c :: a ++ x)) as [[|n]|]; try discriminate; apply IH.
Qed.

Lemma test_from_prefix (re : pattern) (z : jsstring) :
  (forall b x n, re b x = Some (S n) -> exists n', re b (x ++ z) = Some (S n')) ->
  forall x b, test_from re b (x ++ z) = false -> test_from re b x = false.
Proof.
  intros Hm. induction x as [|c x IH]; intros b; [reflexivity|].
  cbn [app test_from].
  destruct (re b (c :: x)) as [[|n]|] eqn:E.
  - destruct (re b (c :: x ++ z)) as [[|n']|]; try discriminate; apply IH.
  - destruct (Hm _ _ _ E) as [n' E']. cbn [app] in E'. now rewrite E'.
  - destruct (re b (c :: x ++ z)) as [[|n']|]; try discriminate; apply IH.
Qed.

End PatternFacts.

(** ** The patterns of parseJSON *)

Section FencePatterns.

Lemma match_units_stops (units : list (Z -> bool)) (o : Z) (R : jsstring) :
  Forall (fun p => p o = false) units ->
  forall x,
    match_units units (x ++ o :: R)
    = option_map (fun r => r ++ o :: R) (match_units units x).
Proof.
  induction 1 as [|p us Hp _ IH]; intros x; [reflexivity|].
  destruct x as [|c x]; cbn [app match_units option_map].
  - now rewrite Hp.
  - destruct (p c); [apply IH | reflexivity].
Qed.

Lemma match_units_length (units : list (Z -> bool)) :
  forall x r, match_units units x = Some r ->
              length x = (length units + length r)%nat.
Proof.
  induction units as [|p us IH]; intros x r; cbn [match_units].
  - now intros [= ->].
  - destruct x as [|c x]; [discriminate|].
    destruct (p c); [|discriminate].
    intros H%IH. cbn [length]. lia.
Qed.

Lemma fence_flagless (units : list (Z -> bool)) :
  flagless (fence_pattern units).
Proof. intros b x. reflexivity. Qed.

Lemma fence_bounded (units : list (Z -> bool)) :
  bounded (fence_pattern units).
Proof.
  intros b x n. unfold fence_pattern.
  destruct (match_units units x) as [r|] eqn:E; [|discriminate].
  intros [= <-]. apply match_units_length in E. rewrite E.
  pose proof (takeWhile_dropWhile is_space r) as H.
  apply (f_equal (@length Z)) in H. rewrite length_app in H. lia.
Qed.

Lemma fence_stops_at (units : list (Z -> bool)) (o : Z) :
  Forall (fun p => p o = false) units -> is_space o = false ->
  stops_at (fence_pattern units) o.
Proof.
  intros Hu Ho b x R. unfold fence_pattern.
  rewrite match_units_stops by exact Hu.
  destruct (match_units units x) as [r|]; cbn [option_map]; [|reflexivity].
  now rewrite takeWhile_app_stop.
Qed.

Lemma opener_not_space (o : Z) : is_opener o = true -> is_space o = false.
Proof.
  unfold is_opener. intros H%orb_true_iff.
  destruct H as [H|H]; apply Z.eqb_eq in H; subst; reflexivity.
Qed.

Lemma closer_not_space (c : Z) : is_closer c = true -> is_space c = false.
Proof.
  unfold is_closer. intros H%orb_true_iff.
  destruct H as [H|H]; apply Z.eqb_eq in H; subst; reflexivity.
Qed.

Lemma json_fence_inert (o : Z) :
  is_opener o = true -> Forall (fun p => p o = false) json_fence_units.
Proof.
  unfold is_opener. intros H%orb_true_iff.
  destruct H as [H|H]; apply Z.eqb_eq in H; subst;
    repeat constructor.
Qed.

Lemma fence_inert (o : Z) :
  is_opener o = true -> Forall (fun p => p o = false) fence_units.
Proof.
  unfold is_opener. intros H%orb_true_iff.
  destruct H as [H|H]; apply Z.eqb_eq in H; subst;
    repeat constructor.
Qed.


Lemma fence_units_start : starts_with_fence fence_units.
Proof.
  intros x r. destruct x as [|a [|b [|c x]]]; cbn [match_units fence_units];
    try discriminate;
    repeat match goal with
           | |- context [if ?t then _ else _] => destruct t eqn:?
           end; try discriminate.
  unfold is_backtick in *.
  repeat match goal with H : (_ =? _) = true |- _ => apply Z.eqb_eq in H end.
  subst. reflexivity.
Qed.

Lemma json_fence_units_start : starts_with_fence json_fence_units.
Proof.
  intros x r. unfold json_fence_units.
  destruct x as [|a [|b [|c x]]];
    cbn [match_units fence_units app]; try discriminate;
    repeat match goal with
           | |- context [if ?t then _ else _] => destruct t eqn:?
           end; try discriminate.
  unfold is_backtick in *.
  repeat match goal with H : (_ =? _) = true |- _ => apply Z.eqb_eq in H end.
  subst. reflexivity.
Qed.

(** In a text without three backticks in a row that does not end with a
    backtick, no fence starts. *)
Lemma no_fence_at (t Y : jsstring) :
  t <> [] -> includes (js "```") t = false -> last t 0 <> ch_backtick ->
  startsWith (js "```") (t ++ Y) = false.
Proof.
  intros Ht Hi Hl. apply includes_head in Hi.
  change (js "```") with [96; 96; 96] in *. unfold ch_backtick in Hl.
  destruct t as [|a [|b [|c t]]]; [congruence| | |];
    cbn [startsWith app last] in *.
  - destruct (96 =? a) eqn:E; [apply Z.eqb_eq in E; congruence|reflexivity].
  - destruct (96 =? b) eqn:E; [apply Z.eqb_eq in E; congruence|].
    now rewrite andb_false_r.
  - exact Hi.
Qed.

Lemma last_suffix (pre t : jsstring) :
  t <> [] -> last (pre ++ t) 0 = last t 0.
Proof.
  intros Ht. induction pre as [|x pre IH]; [reflexivity|].
  cbn [app]. destruct (pre ++ t) eqn:E.
  - apply app_eq_nil in E as [_ ->]. congruence.
  - rewrite <- E in *. cbn [last]. rewrite E. rewrite <- E. exact IH.
Qed.

Lemma fence_through (units : list (Z -> bool)) (core Y : jsstring) (b : bool) :
  starts_with_fence units ->
  includes (js "```") core = false -> last core 0 <> ch_backtick ->
  replace_from (fence_pattern units) erase b 0 (core ++ Y)
  = core ++ replace_from (fence_pattern units) erase false 0 Y.
Proof.
  intros Hu Hi Hl. apply replace_through; [apply fence_flagless|].
  intros pre t -> Ht. unfold fence_pattern.
  destruct (match_units units (t ++ Y)) as [r|] eqn:E; [|reflexivity].
  apply Hu in E.
  rewrite no_fence_at in E; [discriminate | exact Ht | |].
  - now apply includes_suffix in Hi.
  - now rewrite last_suffix in Hl.
Qed.

End FencePatterns.

(** ** parseJSON on a valid text inside prose *)

Section Embedded.

Lemma trailing_comma_flagless : flagless re_trailing_comma.
Proof. intros b x. reflexivity. Qed.

Lemma dropWhile_app_nonempty (p : Z -> bool) (r z : jsstring) (d : Z)
    (r' : jsstring) :
  dropWhile p r = d :: r' -> dropWhile p (r ++ z) = d :: r' ++ z.
Proof.
  induction r as [|x r IH]; cbn [dropWhile app]; [discriminate|].
  destruct (p x); [exact IH|]. now intros [= -> ->].
Qed.

Lemma trailing_comma_extends (z : jsstring) (b : bool) (x : jsstring)
    (n : nat) :
  re_trailing_comma b x = Some (S n) ->
  exists n', re_trailing_comma b (x ++ z) = Some (S n').
Proof.
  unfold re_trailing_comma. destruct x as [|c r]; [discriminate|].
  cbn [app]. destruct (c =? ch_comma); [|discriminate].
  destruct (dropWhile is_space r) as [|d r'] eqn:E; [discriminate|].
  rewrite (dropWhile_app_nonempty _ _ z E).
  destruct (is_closer d); [|discriminate]. intros _. eexists. reflexivity.
Qed.

(** A part of a text without a trailing comma has no trailing comma. *)
Lemma no_trailing_comma_inside (a x z : jsstring) :
  regex_test re_trailing_comma (a ++ x ++ z) = false ->
  strip_trailing_commas x = x.
Proof.
  unfold regex_test, strip_trailing_commas, replace_all. intros H.
  apply replace_no_match.
  apply (test_from_suffix _ _ trailing_comma_flagless true true) in H.
  revert H. apply test_from_prefix. intros b y n.
  apply trailing_comma_extends.
Qed.

Lemma json_ws_not_opener (c : Z) : is_json_ws c = true -> is_opener c = false.
Proof.
  intros H. destruct (json_ws_plain _ H) as (_ & _ & H1 & _ & H2 & _).
  unfold is_opener. apply orb_false_iff. split; now apply Z.eqb_neq.
Qed.

Lemma closer_not_backtick (c : Z) : is_closer c = true -> c <> ch_backtick.
Proof.
  unfold is_closer. intros H%orb_true_iff.
  destruct H as [H|H]; apply Z.eqb_eq in H; subst; discriminate.
Qed.

Lemma last_snoc (x : jsstring) (c : Z) : last (x ++ [c]) 0 = c.
Proof. apply last_last. Qed.

(** Stripping the fences leaves the text of the container as it is, between
    what is left of the text before and of the text after. *)
Lemma strip_fences_around (P : jsstring) (o : Z) (body : jsstring) (c : Z)
    (Q : jsstring) :
  is_opener o = true -> is_closer c = true ->
  includes (js "```") (o :: body ++ [c]) = false ->
  Forall (fun x => is_opener x = false) P ->
  exists X Y,
    strip_fences (P ++ (o :: body ++ [c]) ++ Q) = X ++ (o :: body ++ [c]) ++ Y
    /\ Forall (fun x => is_opener x = false) X.
Proof.
  intros Ho Hc Hi HP. unfold strip_fences, replace_all.
  assert (Hl : last (o :: body ++ [c]) 0 <> ch_backtick).
  { change (o :: body ++ [c]) with ((o :: body) ++ [c]).
    rewrite last_snoc. now apply closer_not_backtick. }
  pose proof (opener_not_space _ Ho) as Hos.
  assert (Hstep : forall units b A Z',
             Forall (fun p => p o = false) units ->
             starts_with_fence units ->
             replace_from (fence_pattern units) erase b 0
               (A ++ (o :: body ++ [c]) ++ Z')
             = replace_from (fence_pattern units) erase b 0 A
               ++ (o :: body ++ [c])
               ++ replace_from (fence_pattern units) erase false 0 Z').
  { intros units b A Z' Hu Hst. cbn [app].
    rewrite replace_before;
      [ | apply fence_flagless | apply fence_bounded
        | now apply fence_stops_at | lia ].
    f_equal.
    change (o :: (body ++ [c]) ++ Z') with ((o :: body ++ [c]) ++ Z').
    now apply fence_through. }
  unfold re_json_fence, re_fence.
  rewrite Hstep by (auto using json_fence_inert, json_fence_units_start).
  rewrite Hstep by (auto using fence_inert, fence_units_start).
  rewrite trim_around by (auto using closer_not_space).
  eexists; eexists; split; [reflexivity|].
  apply dropWhile_keeps, erase_keeps, erase_keeps, HP.
Qed.

(** A valid text of an object or of an array, without three backticks in a
    row and without a comma before a closing brace or bracket, is extracted
    from any text before it that has no opening brace or bracket and any
    text after it. *)
Lemma parseJSON_embedded (P s Q : jsstring) (v : JValue) :
  JSON_parse s = Some v -> is_container v = true ->
  includes (js "```") s = false ->
  regex_test re_trailing_comma s = false ->
  Forall (fun x => is_opener x = false) P ->
  parseJSON (P ++ s ++ Q) = inr v.
Proof.
  intros Hp Hv Hi Hcomma HP.
  destruct (@json_core s v Hp Hv)
    as (ws1 & o & body & c & rest & -> & Hws1 & Hrest & Ho & Hc & Hcore & Hscan).
  assert (Hi' : includes (js "```") (o :: body ++ [c]) = false)
    by (apply includes_suffix in Hi; now apply includes_prefix in Hi).
  assert (HP' : Forall (fun x => is_opener x = false) (P ++ ws1)).
  { apply Forall_app. split; [exact HP|].
    eapply Forall_impl; [|exact Hws1]. apply json_ws_not_opener. }
  destruct (@strip_fences_around (P ++ ws1) o body c (rest ++ Q) Ho Hc Hi' HP')
    as (X & Y & Hstrip & HX).
  replace (P ++ (ws1 ++ (o :: body ++ [c]) ++ rest) ++ Q)
    with ((P ++ ws1) ++ (o :: body ++ [c]) ++ rest ++ Q)
    by (rewrite <- !app_assoc; reflexivity).
  unfold parseJSON. rewrite Hstrip.
  cbn [app]. rewrite search_opener_app by assumption.
  unfold slice_from. rewrite skipn_length_app. cbn [hd].
  fold (closer_of o).
  change (o :: (body ++ [c]) ++ Y) with ((o :: body ++ [c]) ++ Y).
  rewrite Hscan. unfold slice_to.
  replace (S (length body) + 1)%nat with (length (o :: body ++ [c]))
    by (cbn [length]; rewrite length_app; cbn [length]; lia).
  rewrite firstn_length_app.
  rewrite (@no_trailing_comma_inside ws1 (o :: body ++ [c]) rest Hcomma).
  now rewrite Hcore.
Qed.

End Embedded.

(** ** parseJSON on a fenced block inside prose *)

Section Fenced.

Lemma search_opener_none (P : jsstring) :
  search_opener P = None -> Forall (fun x => is_opener x = false) P.
Proof.
  induction P as [|c P IH]; cbn [search_opener]; [constructor|].
  destruct (is_opener c) eqn:E; [discriminate|].
  destruct (search_opener P); [discriminate|]. auto.
Qed.

Lemma space_not_opener (c : Z) : is_space c = true -> is_opener c = false.
Proof.
  intros H. destruct (is_opener c) eqn:E; [|reflexivity].
  apply opener_not_space in E. congruence.
Qed.

Lemma match_units_no_opener (units : list (Z -> bool)) :
  (forall o, is_opener o = true -> Forall (fun p => p o = false) units) ->
  forall t r,
    match_units units t = Some r ->
    Forall (fun x => is_opener x = false) r ->
    Forall (fun x => is_opener x = false) t.
Proof.
  induction units as [|p us IH]; intros Hin t r; cbn [match_units].
  - now intros [= ->].
  - destruct t as [|c t]; [discriminate|].
    destruct (p c) eqn:Ep; [|discriminate].
    intros Hm Hr. constructor.
    + destruct (is_opener c) eqn:E; [|reflexivity].
      specialize (Hin c E). inversion Hin; subst. congruence.
    + apply (IH (fun o Ho => Forall_inv_tail (Hin o Ho)) _ _ Hm Hr).
Qed.

Lemma whole_match_no_opener (units : list (Z -> bool)) (t : jsstring) :
  (forall o, is_opener o = true -> Forall (fun p => p o = false) units) ->
  whole_match (fence_pattern units) t = true ->
  Forall (fun x => is_opener x = false) t.
Proof.
  intros Hin. unfold whole_match, fence_pattern.
  destruct (match_units units t) as [r|] eqn:E; [|discriminate].
  intros H%Nat.eqb_eq.
  pose proof (match_units_length _ _ E) as Hlen.
  apply (match_units_no_opener Hin _ E).
  assert (Hall : Forall (fun c => is_space c = true) r)
    by (apply takeWhile_length_all; lia).
  eapply Forall_impl; [|exact Hall]. apply space_not_opener.
Qed.

(** A fence marker has no opening brace or bracket. *)
Lemma fence_marker_no_opener (f : jsstring) :
  fence_marker f = true -> Forall (fun x => is_opener x = false) f.
Proof.
  unfold fence_marker, trimStart. intros H.
  rewrite <- (takeWhile_dropWhile is_space f). apply Forall_app. split.
  - eapply Forall_impl; [|apply takeWhile_all]. apply space_not_opener.
  - apply orb_true_iff in H as [H|H].
    + revert H. apply whole_match_no_opener, json_fence_inert.
    + revert H. apply whole_match_no_opener, fence_inert.
Qed.

(** C6, amended. For a valid JSON text [s] of an object or of an array that
    holds neither three backticks in a row nor a comma followed, after any
    white space, by a closing brace or bracket (in a valid text both can
    only be inside a string), for fence markers around it, for a prose
    before the block without opening brace or bracket and for any prose
    after it, parseJSON answers the value [JSON.parse] answers on [s]. *)
Theorem parseJSON_fenced (prose_before fence_open s fence_close prose_after
                            : jsstring) (v : JValue) :
  JSON_parse s = Some v -> is_container v = true ->
  includes (js "```") s = false ->
  regex_test re_trailing_comma s = false ->
  search_opener prose_before = None ->
  fence_marker fence_open = true -> fence_marker fence_close = true ->
  parseJSON (prose_before ++ fence_open ++ s ++ fence_close ++ prose_after)
  = inr v.
Proof.
  intros Hp Hv Hi Hc Hb Ho _.
  replace (prose_before ++ fence_open ++ s ++ fence_close ++ prose_after)
    with ((prose_before ++ fence_open) ++ s ++ (fence_close ++ prose_after))
    by (rewrite <- !app_assoc; reflexivity).
  apply parseJSON_embedded; auto.
  apply Forall_app. split.
  - now apply search_opener_none.
  - now apply fence_marker_no_opener.
Qed.

End Fenced.

Lemma parseJSON_fenced_witness :
  parseJSON (js "Voici le document demandé : " ++ Examples.fence_json
             ++ Examples.fenced_object ++ Examples.fence_end
             ++ js " Bonne lecture.")
  = inr (JObj [(js "a", JArr [JNum (js "1"); JStr (js "x, y")] [])]).
Proof.
  apply (@parseJSON_fenced (js "Voici le document demandé : ")
           Examples.fence_json Examples.fenced_object Examples.fence_end
           (js " Bonne lecture.")
           (JObj [(js "a", JArr [JNum (js "1"); JStr (js "x, y")] [])]));
    reflexivity.
Defined.

(** C6, as stated, fails.  A bracket in the prose before the block is taken
    for the start of the JSON: the text of the object parses to an object,
    the whole answer to the array of the prose.  And inside a string of a
    valid text, a comma before a closing brace is removed, and three
    backticks are removed, so that the string comes out changed. *)
Lemma parseJSON_fenced_differs :
  (JSON_parse Examples.fenced_object
   = Some (JObj [(js "a", JArr [JNum (js "1"); JStr (js "x, y")] [])])
   /\ parseJSON (js "Voici la liste [1] attendue : " ++ Examples.fence_json
                 ++ Examples.fenced_object ++ Examples.fence_end ++ js " fin")
      = inr (JArr [JNum (js "1")] []))
  /\ (JSON_parse (jsq "{'a':',}'}") = Some (JObj [(js "a", JStr (js ",}"))])
      /\ parseJSON (Examples.fence_json ++ jsq "{'a':',}'}"
                    ++ Examples.fence_end)
         = inr (JObj [(js "a", JStr (js "}"))]))
  /\ (JSON_parse (jsq "{'a':'```'}") = Some (JObj [(js "a", JStr (js "```"))])
      /\ parseJSON (Examples.fence_json ++ jsq "{'a':'```'}"
                    ++ Examples.fence_end)
         = inr (JObj [(js "a", JStr [])])).
Proof. repeat split; vm_compute; reflexivity. Qed.

(** The example of the specification: trailing commas. *)
Example trailing_commas_example :
  parseJSON (jsq "{'a':1,'b':[1,2,],}")
  = inr (JObj [(js "a", JNum (js "1"));
               (js "b", JArr [JNum (js "1"); JNum (js "2")] [])]).
Proof. vm_compute. reflexivity. Qed.

(* ================================================================== *)
(** * More properties of the pipeline *)
(* ================================================================== *)

(** ** The orchestrator: what a run does to the memory *)

Section RunFrames.
Context {B : Builtins}.

Import Orchestrator Stages.

Lemma agent1_keeps_identity :
  keeps (fun w => identity (memory w)) (Agent1.runAgent (log agent1)).
Proof. unfold Agent1.runAgent, Agent1.correction. keeps_all. Qed.

Lemma agent2_keeps_identity :
  keeps (fun w => identity (memory w)) (Agent2.runAgent (log agent2)).
Proof. unfold Agent2.runAgent, Agent2.correction. keeps_all. Qed.

Lemma agent3_keeps_identity :
  keeps (fun w => identity (memory w)) (Agent3.runAgent (log agent3)).
Proof. unfold Agent3.runAgent, Agent3.correction. keeps_all. Qed.

(** X1: a run never changes the identity of the memory. *)
Theorem run_keeps_identity (mode : jsstring) (skipPR : bool) :
  keeps (fun w => identity (memory w)) (run mode skipPR).
Proof.
  unfold run, prelude, stage1, stage2, stage3, final, before_agent1,
    before_agent2, before_agent3.
  repeat first
    [ apply agent1_keeps_identity | apply agent2_keeps_identity
    | apply agent3_keeps_identity | keeps_one ].
Qed.

End RunFrames.

Section RunRouting.
Context {B : Builtins}.

Import Orchestrator Stages.

(** An agent writes the document and the file of its own stage only. *)
Lemma agent_keeps_other (s s' : stage) :
  s <> s' -> keeps (fun w => output_of s (memory w)) (agent_of s').
Proof.
  intros H.
  destruct s, s'; try congruence; cbn [agent_of];
    unfold Agent1.runAgent, Agent1.correction, Agent2.runAgent,
      Agent2.correction, Agent3.runAgent, Agent3.correction;
    keeps_all.
Qed.

(** X2: a stage that the mode leaves out has its document and its file
    untouched by the run. *)
Theorem run_keeps_skipped_stage (mode : jsstring) (skipPR : bool) (s : stage) :
  scheduled mode skipPR s = false ->
  keeps (fun w => output_of s (memory w)) (run mode skipPR).
Proof.
  intros Hs.
  assert (H1 : forall s', s <> s' ->
             keeps (fun w => output_of s (memory w)) (agent_of s'))
    by (intros; now apply agent_keeps_other).
  unfold run, prelude, stage1, stage2, stage3, final, before_agent1,
    before_agent2, before_agent3.
  destruct s; cbn [scheduled] in Hs; [| |discriminate].
  - rewrite Hs.
    repeat first
      [ apply (H1 stage_2); discriminate | apply (H1 stage_3); discriminate
      | keeps_one ].
  - destruct (str_eqb mode (js "from_pr")); [|destruct skipPR; [|discriminate]];
    repeat first
      [ apply (H1 stage_1); discriminate | apply (H1 stage_3); discriminate
      | keeps_one ].
Qed.

End RunRouting.

Lemma run_keeps_skipped_stage_witness :
  keeps (fun w => output_of Stages.stage_1 (memory w))
        (Orchestrator.run (js "from_pa") false).
Proof.
  apply (@run_keeps_skipped_stage latin1_builtins (js "from_pa") false
           Stages.stage_1).
  reflexivity.
Defined.

(** ** Calls to the model *)

Section Calls.

Lemma calls_weaken {A} (a b : nat) (m : M A) :
  calls_within a m -> (a <= b)%nat -> calls_within b m.
Proof. intros H Hab env w. specialize (H env w). lia. Qed.

Lemma calls_ret {A} (a : A) : calls_within 0 (ret a).
Proof. intros env w; simpl; lia. Qed.

Lemma calls_throw {A} (e : exn) : calls_within 0 (@throw A e).
Proof. intros env w; simpl; lia. Qed.

Lemma calls_lift {A} (r : result A) : calls_within 0 (lift r).
Proof. destruct r; [apply calls_throw | apply calls_ret]. Qed.

Lemma calls_get_memory : calls_within 0 get_memory.
Proof. intros env w; simpl; lia. Qed.

Lemma calls_update (u : Memory -> Memory) : calls_within 0 (update_memory u).
Proof. intros env w; simpl; lia. Qed.

Lemma calls_log (a : agent_name) (t : log_type) :
  calls_within 0 (Orchestrator.log a t).
Proof. apply calls_update. Qed.

Lemma calls_step : calls_within 0 Orchestrator.step.
Proof. intros env w; simpl; lia. Qed.

Lemma calls_generate (d : document) : calls_within 0 (generate d).
Proof. intros env w; unfold generate; destruct (generator env d); simpl; lia. Qed.

Lemma calls_mkdirSync : calls_within 0 Orchestrator.mkdirSync.
Proof.
  intros env w; unfold Orchestrator.mkdirSync; destruct (mkdir env); simpl; lia.
Qed.

Lemma calls_callLLM : calls_within 1 callLLM.
Proof. intros env w; simpl; lia. Qed.

Lemma calls_bind {A C} (a b : nat) (m : M A) (k : A -> M C) :
  calls_within a m -> (forall x, calls_within b (k x)) ->
  calls_within (a + b) (bind m k).
Proof.
  intros Hm Hk env w. unfold bind.
  specialize (Hm env w). destruct (m env w) as [[e|x] w']; simpl in *; [lia|].
  specialize (Hk x env w'). lia.
Qed.

Lemma calls_when (b : bool) (m : M unit) :
  calls_within 0 m -> calls_within 0 (when b m).
Proof. destruct b; [auto | intros _; apply calls_ret]. Qed.

End Calls.

(** Through the binds, which add up the calls; a test whose branches call the
    model is left to the caller. *)
Ltac calls_one :=
  first
    [ apply calls_ret | apply calls_throw | apply calls_lift
    | apply calls_get_memory | apply calls_update | apply calls_log
    | apply calls_step | apply calls_generate | apply calls_mkdirSync
    | apply calls_callLLM | apply calls_when
    | eapply calls_bind; [|intros] ].

Ltac calls_all := repeat calls_one.

Section CallsOfRun.
Context {B : Builtins}.

Import Orchestrator Stages.

Lemma agent1_correction_calls (pa : JValue) (v1 : ValidationResult) :
  calls_within 1 (Agent1.correction (log agent1) pa v1).
Proof.
  unfold Agent1.correction. destruct (negb (valid v1)).
  - eapply calls_weaken; [calls_all | simpl; lia].
  - eapply calls_weaken; [calls_all | simpl; lia].
Qed.

Lemma agent2_correction_calls (pr : JValue) (v1 : ValidationResult) :
  calls_within 1 (Agent2.correction (log agent2) pr v1).
Proof.
  unfold Agent2.correction. destruct (negb (valid v1)).
  - eapply calls_weaken; [calls_all | simpl; lia].
  - eapply calls_weaken; [calls_all | simpl; lia].
Qed.

Lemma agent3_correction_calls (c : JValue) (v1 : ValidationResult) :
  calls_within 1 (Agent3.correction (log agent3) c v1).
Proof.
  unfold Agent3.correction. destruct (negb (valid v1)).
  - eapply calls_weaken; [calls_all | simpl; lia].
  - eapply calls_weaken; [calls_all | simpl; lia].
Qed.

Lemma agent_calls (s : stage) : calls_within 3 (agent_of s).
Proof.
  destruct s; cbn [agent_of].
  - unfold Agent1.runAgent.
    eapply calls_weaken;
      [repeat first [apply agent1_correction_calls | calls_one] | simpl; lia].
  - unfold Agent2.runAgent.
    eapply calls_weaken;
      [repeat first
         [ apply agent2_correction_calls | calls_one
         | match goal with
           | |- calls_within _ (if ?b then _ else _) =>
               apply (@calls_weaken _ 0 0); [destruct b; calls_all | lia]
           end ]
      | simpl; lia].
  - unfold Agent3.runAgent.
    eapply calls_weaken;
      [repeat first [apply agent3_correction_calls | calls_one] | simpl; lia].
Qed.

Lemma skipped_calls : calls_within 0 (log orchestrator observation ;; step).
Proof. eapply calls_weaken; [calls_all | simpl; lia]. Qed.

Lemma stage_calls (s : stage) (around after : M unit) :
  calls_within 0 around -> calls_within 0 after ->
  calls_within 3 (around ;; agent_of s ;; after).
Proof.
  intros Ha Hb.
  eapply calls_weaken;
    [eapply calls_bind; [exact Ha|intros];
     eapply calls_bind; [apply agent_calls|intros; exact Hb]
    | simpl; lia].
Qed.

(** X3: at most three calls to the model for each stage the run goes
    through. *)
Theorem run_calls_bounded (mode : jsstring) (skipPR : bool) :
  calls_within (3 * length (stages_run mode skipPR)) (run mode skipPR)
  /\ forall s, calls_within 3 (agent_of s).
Proof.
  split; [|apply agent_calls].
  assert (Hb : forall a, calls_within 0 (step ;; log orchestrator a))
    by (intros; eapply calls_weaken; [calls_all | simpl; lia]).
  assert (Hl : forall a, calls_within 0 (log orchestrator a))
    by (intros; apply calls_log).
  assert (Hp : calls_within 0 prelude)
    by (unfold prelude; eapply calls_weaken; [calls_all | simpl; lia]).
  assert (Hf : calls_within 0 final)
    by (unfold final; eapply calls_weaken; [calls_all | simpl; lia]).
  assert (H3 : calls_within 3 stage3)
    by (apply (stage_calls stage_3 (Hb action) (Hl observation))).
  unfold run, stages_run. cbn [filter scheduled].
  unfold stage1, stage2.
  destruct (str_eqb mode (js "full")); destruct (str_eqb mode (js "from_pr"));
    destruct skipPR; cbn [negb andb length];
    (eapply calls_weaken;
     [ eapply calls_bind; [exact Hp|intros];
       eapply calls_bind;
         [first [ apply (stage_calls stage_1 (Hb action) (Hl observation))
                | apply skipped_calls ]
         |intros];
       eapply calls_bind;
         [first [ apply (stage_calls stage_2 (Hb action) (Hl observation))
                | apply skipped_calls ]
         |intros];
       eapply calls_bind; [exact H3|intros; exact Hf]
     | simpl; lia ]).
Qed.

End CallsOfRun.

(** ** Lists of the memory that only grow *)

Section Grows.

Context {T : Type}.
Variable g : Memory -> list T.

Lemma grows_same {A} (m : M A) : keeps (fun w => g (memory w)) m -> grows (fun w => g (memory w)) m.
Proof. intros H env w. exists []. rewrite app_nil_r. apply H. Qed.

Lemma grows_bind {A C} (m : M A) (k : A -> M C) :
  grows (fun w => g (memory w)) m -> (forall a, grows (fun w => g (memory w)) (k a)) -> grows (fun w => g (memory w)) (bind m k).
Proof.
  intros Hm Hk env w. unfold bind.
  destruct (Hm env w) as [l1 H1].
  destruct (m env w) as [[e|a] w']; simpl in *; [eauto|].
  destruct (Hk a env w') as [l2 H2].
  exists (l1 ++ l2). now rewrite H2, H1, app_assoc.
Qed.

Lemma grows_update (u : Memory -> Memory) :
  (forall m, exists l, g (u m) = g m ++ l) -> grows (fun w => g (memory w)) (update_memory u).
Proof. intros H env w. apply H. Qed.

Lemma grows_when (b : bool) (m : M unit) :
  grows (fun w => g (memory w)) m -> grows (fun w => g (memory w)) (when b m).
Proof.
  destruct b; [auto | intros _; apply grows_same, keeps_ret].
Qed.

Lemma grows_callLLM : grows (fun w => g (memory w)) callLLM.
Proof. intros env w. exists []. now rewrite app_nil_r. Qed.

Lemma grows_step : grows (fun w => g (memory w)) Orchestrator.step.
Proof. intros env w. exists []. now rewrite app_nil_r. Qed.

End Grows.

Ltac grows_one :=
  first
    [ apply grows_same;
      first [ apply keeps_ret | apply keeps_throw | apply keeps_lift
            | apply keeps_get_memory | apply keeps_generate
            | apply keeps_mkdirSync ]
    | apply grows_callLLM | apply grows_step
    | apply grows_update; intros;
      first [ exists []; now rewrite app_nil_r | eexists; reflexivity ]
    | apply grows_when
    | apply grows_bind; [|intros]
    | match goal with
      | |- grows _ (if ?b then _ else _) => destruct b
      end ].

Ltac grows_all := repeat grows_one.

Section RunGrows.
Context {B : Builtins}.

Import Orchestrator Stages.

(** X4: a run only appends to the journal and to the list of coherence
    warnings of the memory, whether it answers or throws. *)
Theorem run_appends (mode : jsstring) (skipPR : bool) :
  grows (fun w => logs (memory w)) (run mode skipPR)
  /\ grows (fun w => coherenceWarnings (memory w)) (run mode skipPR).
Proof.
  split;
    unfold run, prelude, stage1, stage2, stage3, final, before_agent1,
      before_agent2, before_agent3, Agent1.runAgent, Agent1.correction,
      Agent2.runAgent, Agent2.correction, Agent3.runAgent, Agent3.correction,
      log;
    grows_all.
Qed.

End RunGrows.

(** ** What a stage that returns has written *)

Section Ensures.


End Ensures.



Section StageOutputs.
Context {B : Builtins}.

Import Orchestrator Stages.




End StageOutputs.


(** ** A run that needs a Prosit Aller and finds none *)

Section MissingPrositAller.
Context {B : Builtins}.

Import Orchestrator Stages.

(** X6: in a mode that skips stage 1 and runs stage 2, a memory without
    Prosit Aller makes the run throw the error of agent 2 before any call to
    the model; no document and no file is written. *)
Theorem run_without_prosit_aller (mode : jsstring) (env : Env) (w : World) :
  scheduled mode false stage_1 = false ->
  scheduled mode false stage_2 = true ->
  truthy (prositAller (memory w)) = false ->
  mkdir env = None ->
  fst (run mode false env w) = inl ErrNoPrositAller
  /\ llm_calls (snd (run mode false env w)) = llm_calls w
  /\ forall s, output_of s (memory (snd (run mode false env w)))
               = output_of s (memory w).
Proof.
  cbn [scheduled]. intros H1 H2 Hpa Hm.
  apply andb_true_iff in H2 as [H2 _]. apply negb_true_iff in H2.
  unfold run, prelude, stage1, stage2, before_agent2, Agent2.runAgent.
  rewrite H1, H2.
  unfold bind, mkdirSync, log, step, update_memory, get_memory, when, throw.
  rewrite Hm. cbn [memory llm_calls steps prositAller push_log fst snd].
  rewrite Hpa. cbn [negb fst snd memory llm_calls].
  repeat split.
Qed.

End MissingPrositAller.

Lemma run_without_prosit_aller_witness :
  fst (Orchestrator.run (js "from_pa") false Examples.env_no_plan
         Examples.world_theme) = inl ErrNoPrositAller.
Proof.
  apply (@run_without_prosit_aller latin1_builtins (js "from_pa")
           Examples.env_no_plan Examples.world_theme);
    reflexivity.
Defined.

(** ** Stage 2 and the coherence warnings *)

Section Returns.

Lemma bind_returns {A C} (m : M A) (k : A -> M C) (env : Env) (w w' : World)
    (c : C) :
  bind m k env w = (inr c, w') ->
  exists a w1, m env w = (inr a, w1) /\ k a env w1 = (inr c, w').
Proof.
  unfold bind. destruct (m env w) as [[e|a] w1]; [discriminate|]. eauto.
Qed.

Lemma lift_returns {A} (r : result A) (env : Env) (w w' : World) (a : A) :
  lift r env w = (inr a, w') -> r = inr a /\ w' = w.
Proof. destruct r; cbn; intros [= -> ->]; auto. Qed.

End Returns.

(** One more step of a computation that returns: the step has returned. *)
Ltac forward H :=
  let E := fresh "E" in
  apply bind_returns in H; destruct H as (? & ? & E & H);
  first
    [ apply lift_returns in E; destruct E as [E ->]
    | unfold Orchestrator.log, update_memory, get_memory in E;
      injection E as <- <-
    | unfold callLLM in E; injection E as E <-
    | idtac ];
  cbv beta zeta in H; cbn [memory llm_calls steps] in H.

Section Stage2Warnings.
Context {B : Builtins}.

Import Orchestrator Agent2.

Lemma coherent_no_issue (pa pr : JValue) (c : CoherenceResult) :
  check_coherence pa pr = inr c -> coherent c = true -> issues c = [].
Proof.
  unfold check_coherence.
  destruct (negb (truthy pa)); [intros [= <-]; discriminate|].
  repeat match goal with
         | |- context [rbind ?r _] => destruct r; cbn [rbind]; [discriminate|]
         end.
  intros [= <-]. cbn [coherent issues]. intros Hc.
  apply Nat.eqb_eq in Hc. now apply length_zero_iff_nil.
Qed.

(** X7: when stage 2 returns, the coherence warnings of the memory are the
    ones it found followed by the issues of the checker on the Prosit Aller
    and the draft, the second answer of the model with its theme. *)
Theorem agent2_appends_issues (env : Env) (w w' : World) (d : JValue) :
  runAgent (log agent2) env w = (inr d, w') ->
  exists raw v draft c,
    llm env (S (llm_calls w)) = inr raw
    /\ parseJSON raw = inr v
    /\ assign_theme v (or_else (prop v (js "theme"))
                               (prop (prositAller (memory w)) (js "theme")))
       = inr draft
    /\ check_coherence (prositAller (memory w)) draft = inr c
    /\ coherenceWarnings (memory w')
       = coherenceWarnings (memory w) ++ issues c.
Proof.
  intros H. unfold runAgent in H.
  forward H.
  forward H. destruct (truthy (prositAller (memory w))) eqn:Hpa;
    [|discriminate]. injection E as <- <-.
  do 25 forward H.
  forward H.
  match type of H with
  | ?m env ?wk = _ =>
      assert (K : keeps (fun w => coherenceWarnings (memory w)) m)
        by (unfold correction; keeps_all);
      specialize (K env wk); rewrite H in K
  end.
  cbn [snd] in K.
  match goal with
  | Hraw : llm env (S (llm_calls w)) = inr ?raw,
    Hv : parseJSON ?raw = inr ?v,
    Hd : assign_theme ?v _ = inr ?draft,
    Hc : check_coherence _ ?draft = inr ?c |- _ =>
      exists raw, v, draft, c;
      split; [exact Hraw|]; split; [exact Hv|]; split; [exact Hd|];
      split; [exact Hc|]; rewrite K;
      destruct (negb (coherent c)) eqn:Hn
  end.
  - match goal with
    | HE : bind _ (fun _ => update_memory (push_warnings _)) _ _ = _ |- _ =>
        forward HE; unfold update_memory in HE;
        injection HE as <- <-
    end.
    reflexivity.
  - match goal with
    | HE : log agent2 observation _ _ = _ |- _ =>
        unfold log, update_memory in HE;
        injection HE as <- <-
    end.
    apply negb_false_iff in Hn.
    match goal with
    | Hc : check_coherence _ _ = inr ?c |- context [issues ?c] =>
        rewrite (coherent_no_issue _ _ Hc Hn), app_nil_r
    end.
    reflexivity.
Qed.

End Stage2Warnings.

Lemma agent2_appends_issues_witness :
  exists raw v draft c,
    llm env_other_theme (S (llm_calls world_pa)) = inr raw
    /\ parseJSON raw = inr v
    /\ assign_theme v (or_else (prop v (js "theme"))
                               (prop (prositAller (memory world_pa))
                                     (js "theme")))
       = inr draft
    /\ Agent2.check_coherence (prositAller (memory world_pa)) draft = inr c
    /\ coherenceWarnings
         (memory (snd (Agent2.runAgent (Orchestrator.log agent2)
                         env_other_theme world_pa)))
       = coherenceWarnings (memory world_pa) ++ Agent2.issues c.
Proof.
  assert (H : Agent2.runAgent (Orchestrator.log agent2) env_other_theme
                world_pa
              = (inr (match fst (Agent2.runAgent (Orchestrator.log agent2)
                                   env_other_theme world_pa) with
                      | inr d => d
                      | inl _ => JNull
                      end),
                 snd (Agent2.runAgent (Orchestrator.log agent2)
                        env_other_theme world_pa)))
    by (vm_compute; reflexivity).
  exact (@agent2_appends_issues latin1_builtins env_other_theme world_pa
           _ _ H).
Defined.

(** The warnings of the example: the theme and the keywords. *)
Example agent2_warnings_example :
  coherenceWarnings
    (memory (snd (Agent2.runAgent (Orchestrator.log agent2)
                    env_other_theme world_pa)))
  = [jsq "Thème incohérent : PA='Réseaux' vs PR='Cloud'";
     js "Mots clés PA non définis dans PR : pare-feu, vpn, chiffrement"].
Proof. vm_compute. reflexivity. Qed.

(** ** The validators: the score and a missing field *)

Section ValidatorScores.

Lemma score_spec_range (total failed : nat) :
  In total [8; 9; 12]%nat -> (failed <= total)%nat ->
  0 <= score_spec total failed <= 100
  /\ (score_spec total failed = 100 <-> failed = 0%nat).
Proof.
  intros Ht Hf.
  assert (H : forallb (fun t =>
                forallb (fun f =>
                           (0 <=? score_spec t f) && (score_spec t f <=? 100)
                           && Bool.eqb (score_spec t f =? 100) (f =? 0)%nat)
                        (seq 0 (S t)))
              [8; 9; 12]%nat = true) by (vm_compute; reflexivity).
  rewrite forallb_forall in H. specialize (H _ Ht).
  rewrite forallb_forall in H.
  assert (Hin : In failed (seq 0 (S total))) by (apply in_seq; lia).
  specialize (H _ Hin).
  apply andb_true_iff in H as [H H3]. apply andb_true_iff in H as [H1 H2].
  apply Z.leb_le in H1. apply Z.leb_le in H2. apply eqb_prop in H3.
  split; [lia|]. split; intros E.
  - apply Z.eqb_eq in E. rewrite E in H3. symmetry in H3.
    now apply Nat.eqb_eq in H3.
  - apply Nat.eqb_eq in E. rewrite E in H3. now apply Z.eqb_eq.
Qed.

Lemma validate_score (rules : list rule) (data : JValue) :
  Forall total_check rules -> In (length rules) [8; 9; 12]%nat ->
  data <> JNull -> data <> JUndef ->
  exists r,
    validate rules data = inr r
    /\ 0 <= score r <= 100
    /\ (valid r = true <-> score r = 100).
Proof.
  intros Htot Hlen Hn Hu.
  destruct (@validate_spec rules data Htot Hlen Hn Hu) as (r & Hr & He & Hs & Hv).
  exists r. split; [exact Hr|].
  assert (Hle : (length (errors r) <= length rules)%nat).
  { rewrite He, length_map. apply filter_length_le. }
  destruct (@score_spec_range _ _ Hlen Hle) as [H1 H2].
  rewrite Hs. split; [exact H1|].
  rewrite Hv, H2. split.
  - intros ->. reflexivity.
  - apply length_zero_iff_nil.
Qed.

(** X8: the score of each validator lies between 0 and 100, and the
    document is valid exactly when the score is 100. *)
Theorem validate_structure_score (data : JValue) :
  data <> JNull -> data <> JUndef ->
  (exists r, Agent1.validate_structure data = inr r
             /\ 0 <= score r <= 100 /\ (valid r = true <-> score r = 100))
  /\ (exists r, Agent2.validate_structure data = inr r
                /\ 0 <= score r <= 100 /\ (valid r = true <-> score r = 100))
  /\ (exists r, Agent3.validate_structure data = inr r
                /\ 0 <= score r <= 100 /\ (valid r = true <-> score r = 100)).
Proof.
  intros Hn Hu. repeat split.
  - apply validate_score; auto using agent1_rules_total. simpl; tauto.
  - apply validate_score; auto using agent2_rules_total. simpl; tauto.
  - apply validate_score; auto using agent3_rules_total. simpl; tauto.
Qed.

(** On the empty string, which a missing field is read as, no check of the
    three lists of rules holds. *)
Lemma rules_fail_on_missing (rules : list rule) :
  rules = Agent1.rules \/ rules = Agent2.rules \/ rules = Agent3.rules ->
  Forall (fun r => check r (JStr []) = inr false) rules.
Proof.
  intros [-> | [-> | ->]]; repeat constructor.
Qed.

Lemma missing_field_reported (rules : list rule) (data : JValue) (r : rule) :
  Forall total_check rules -> In (length rules) [8; 9; 12]%nat ->
  Forall (fun r => check r (JStr []) = inr false) rules ->
  data <> JNull -> data <> JUndef ->
  In r rules ->
  prop data (field r) = JUndef \/ prop data (field r) = JNull ->
  exists v,
    validate rules data = inr v
    /\ In (error_text r) (errors v) /\ valid v = false.
Proof.
  intros Htot Hlen Hempty Hn Hu Hin Hmiss.
  destruct (@validate_spec rules data Htot Hlen Hn Hu) as (v & Hv & He & _ & Hval).
  exists v. split; [exact Hv|].
  assert (Hr : In (error_text r) (errors v)).
  { rewrite He. apply in_map, filter_In. split; [exact Hin|].
    unfold rule_holds.
    rewrite Forall_forall in Hempty. specialize (Hempty _ Hin).
    destruct Hmiss as [-> | ->]; cbn [nullish]; now rewrite Hempty. }
  split; [exact Hr|].
  destruct (valid v); [|reflexivity].
  rewrite (proj1 Hval eq_refl) in Hr. destruct Hr.
Qed.

(** X9: a field that a rule reads and that the document does not have, or
    has as [null], is reported: the error of the rule is among the errors,
    and the document is not valid. *)
Theorem validate_structure_missing_field (data : JValue) (r : rule) :
  data <> JNull -> data <> JUndef ->
  prop data (field r) = JUndef \/ prop data (field r) = JNull ->
  (In r Agent1.rules ->
   exists v, Agent1.validate_structure data = inr v
             /\ In (error_text r) (errors v) /\ valid v = false)
  /\ (In r Agent2.rules ->
      exists v, Agent2.validate_structure data = inr v
                /\ In (error_text r) (errors v) /\ valid v = false)
  /\ (In r Agent3.rules ->
      exists v, Agent3.validate_structure data = inr v
                /\ In (error_text r) (errors v) /\ valid v = false).
Proof.
  intros Hn Hu Hm. repeat split; intros Hin.
  - apply missing_field_reported;
      auto using agent1_rules_total, rules_fail_on_missing. simpl; tauto.
  - apply missing_field_reported;
      auto using agent2_rules_total, rules_fail_on_missing. simpl; tauto.
  - apply missing_field_reported;
      auto using agent3_rules_total, rules_fail_on_missing. simpl; tauto.
Qed.

End ValidatorScores.

Lemma validate_structure_score_witness :
  exists r, Agent1.validate_structure (JObj []) = inr r
            /\ 0 <= score r <= 100 /\ (valid r = true <-> score r = 100).
Proof.
  apply (@validate_structure_score (JObj [])); discriminate.
Defined.

Lemma validate_structure_missing_field_witness :
  exists v,
    Agent2.validate_structure
      (JObj [(js "bilan", JNull); (js "besoins", JArr [] [])]) = inr v
    /\ In (js "[bilan] bilan trop court") (errors v) /\ valid v = false.
Proof.
  apply (@validate_structure_missing_field
           (JObj [(js "bilan", JNull); (js "besoins", JArr [] [])])
           {| field := js "bilan"; check := string_min 60;
              msg := js "bilan trop court" |}).
  - discriminate.
  - discriminate.
  - right. reflexivity.
  - simpl. tauto.
Defined.

(** ** parseJSON: an answer without JSON, and what an answer is *)

Section NoJson.

Lemma search_opener_spec (s : jsstring) :
  search_opener s = None <-> Forall (fun c => is_opener c = false) s.
Proof.
  induction s as [|c t IH]; simpl.
  - split; [constructor | reflexivity].
  - destruct (is_opener c) eqn:E.
    + split; [discriminate|]. intros H. inversion H; congruence.
    + destruct (search_opener t); simpl.
      * split; [discriminate|]. intros H. inversion H as [|? ? _ Ht].
        apply IH in Ht. discriminate.
      * split; [|reflexivity]. intros _. constructor; [exact E|].
        now apply IH.
Qed.

(** What a fence pattern matches holds no opening brace or bracket. *)
Lemma fence_match_no_opener (units : list (Z -> bool)) :
  (forall o, is_opener o = true -> Forall (fun p => p o = false) units) ->
  forall b x n, fence_pattern units b x = Some n ->
                Forall (fun c => is_opener c = false) (firstn n x).
Proof.
  intros Hu b x n. unfold fence_pattern.
  destruct (match_units units x) as [r|] eqn:E; [|discriminate].
  intros [= <-]. revert x r E.
  induction units as [|p units IH]; intros x r E; cbn [match_units] in E.
  - injection E as ->. cbn [length Nat.add].
    rewrite firstn_takeWhile.
    eapply Forall_impl; [|apply takeWhile_all].
    intros c Hc. now apply space_not_opener.
  - destruct x as [|c t]; [discriminate|].
    destruct (p c) eqn:Ep; [|discriminate].
    cbn [length Nat.add firstn]. constructor.
    + destruct (is_opener c) eqn:Eo; [|reflexivity].
      specialize (Hu c Eo). inversion Hu; congruence.
    + apply IH; [|exact E].
      intros o Ho. specialize (Hu o Ho). now inversion Hu.
Qed.

(** Erasing the fences keeps the opening braces and brackets. *)
Lemma erase_fences_keeps_opener (units : list (Z -> bool)) :
  (forall o, is_opener o = true -> Forall (fun p => p o = false) units) ->
  forall n s b, (length s <= n)%nat ->
    Exists (fun c => is_opener c = true) s ->
    Exists (fun c => is_opener c = true)
           (replace_from (fence_pattern units) erase b 0 s).
Proof.
  intros Hu. induction n as [|n IH]; intros s b Hn Hs.
  - destruct s; [inversion Hs | simpl in Hn; lia].
  - destruct s as [|c t]; [inversion Hs|].
    rewrite replace_from_cons.
    destruct (fence_pattern units b (c :: t)) as [[|k]|] eqn:E.
    + inversion Hs; subst; [now constructor|].
      apply Exists_cons_tl. apply IH; [simpl in Hn; lia | assumption].
    + pose proof (@fence_match_no_opener units Hu _ _ _ E) as Hf.
      cbn [erase app]. apply IH.
      * rewrite length_skipn. simpl in Hn. lia.
      * cbn [firstn] in Hf. inversion Hf as [|? ? Hc Hk]; subst.
        inversion Hs as [? ? Hc'|? ? Ht]; subst; [congruence|].
        rewrite <- (firstn_skipn k t) in Ht.
        apply Exists_app in Ht as [Ht|Ht]; [|exact Ht].
        exfalso. apply Exists_exists in Ht as (x & Hx & Hox).
        rewrite Forall_forall in Hk. specialize (Hk _ Hx). congruence.
    + inversion Hs; subst; [now constructor|].
      apply Exists_cons_tl. apply IH; [simpl in Hn; lia | assumption].
Qed.

Lemma dropWhile_keeps_opener (s : jsstring) :
  Exists (fun c => is_opener c = true) s ->
  Exists (fun c => is_opener c = true) (dropWhile is_space s).
Proof.
  induction s as [|c t IH]; intros H; [inversion H|]. simpl.
  destruct (is_space c) eqn:E; [|exact H].
  inversion H; subst; [|auto].
  apply space_not_opener in E. congruence.
Qed.

Lemma trim_keeps_opener (s : jsstring) :
  Exists (fun c => is_opener c = true) s ->
  Exists (fun c => is_opener c = true) (trim s).
Proof.
  intros H. unfold trim, trimEnd, trimStart.
  apply Exists_rev, dropWhile_keeps_opener, Exists_rev.
  now apply dropWhile_keeps_opener.
Qed.

Lemma strip_fences_no_opener (raw : jsstring) :
  search_opener (strip_fences raw) = None <-> search_opener raw = None.
Proof.
  rewrite !search_opener_spec. split.
  - intros H. apply Forall_forall. intros c Hc.
    destruct (is_opener c) eqn:E; [|reflexivity]. exfalso.
    assert (Hex : Exists (fun c => is_opener c = true) raw)
      by (apply Exists_exists; eauto).
    apply (@erase_fences_keeps_opener json_fence_units json_fence_inert
             (length raw) raw true (Nat.le_refl _)) in Hex.
    apply (@erase_fences_keeps_opener fence_units fence_inert _ _ true
             (Nat.le_refl _)) in Hex.
    apply trim_keeps_opener in Hex. fold (strip_fences raw) in Hex.
    apply Exists_exists in Hex as (x & Hx & Hox).
    rewrite Forall_forall in H. specialize (H _ Hx). congruence.
  - intros H. unfold strip_fences, trim, trimEnd, trimStart.
    apply Forall_rev, dropWhile_keeps, Forall_rev, dropWhile_keeps.
    unfold replace_all. now apply erase_keeps, erase_keeps.
Qed.

(** X10: parseJSON throws the error of an answer without JSON exactly when
    the answer holds no opening brace and no opening bracket. *)
Theorem parseJSON_no_json (raw : jsstring) :
  parseJSON raw = inl ErrNoJson <-> search_opener raw = None.
Proof.
  rewrite <- strip_fences_no_opener. unfold parseJSON.
  destruct (search_opener (strip_fences raw)) as [start|];
    [|split; reflexivity].
  split; [|discriminate].
  match goal with
  | |- context [JSON_parse (strip_trailing_commas ?x)] =>
      generalize x; intros s1
  end.
  destruct (JSON_parse (strip_trailing_commas s1)); [discriminate|].
  destruct (JSON_parse _); discriminate.
Qed.

End NoJson.

Lemma parseJSON_no_json_witness :
  parseJSON Examples.no_json = inl ErrNoJson.
Proof.
  apply (proj2 (parseJSON_no_json Examples.no_json)). reflexivity.
Defined.

(** ** parseJSON answers an object or an array *)

Section Containers.

Lemma value_done_inside (v : JValue) (st : list frame) :
  st <> [] \/ is_container v = true -> inside_container (value_done v st).
Proof.
  destruct st as [|[es|ms k] st]; cbn; [|trivial|trivial].
  intros [H|H]; [congruence | exact H].
Qed.

Lemma feed_value_inside (st : list frame) (t : token) (p' : pstate) :
  st <> [] -> feed_value st t = Some p' -> inside_container p'.
Proof.
  intros Hst. destruct t; cbn; try discriminate; intros [= <-];
    try exact I; apply value_done_inside; now left.
Qed.

Lemma feed_inside (p : pstate) (t : token) (p' : pstate) :
  inside_container p -> feed p t = Some p' -> inside_container p'.
Proof.
  destruct p as [st|st|st|ms st|ms k st|es st|ms st|v]; cbn [feed].
  - intros Hp. apply feed_value_inside. now destruct st.
  - intros _. destruct t; try (apply feed_value_inside; discriminate).
    intros [= <-]. apply value_done_inside. now right.
  - intros _. destruct t; try discriminate; intros [= <-]; [|exact I].
    apply value_done_inside. now right.
  - intros _. destruct t; try discriminate. intros [= <-]. exact I.
  - intros _. destruct t; try discriminate. intros [= <-]. exact I.
  - intros _. destruct t; try discriminate; intros [= <-]; [|exact I].
    apply value_done_inside. now right.
  - intros _. destruct t; try discriminate; intros [= <-]; [|exact I].
    apply value_done_inside. now right.
  - intros _. destruct t; discriminate.
Qed.

Lemma start_char_inside (p : pstate) (c : Z) (l' : lstate) (p' : pstate) :
  inside_container p -> start_char p c = Some (l', p') -> inside_container p'.
Proof.
  intros Hp. unfold start_char.
  destruct (is_json_ws c); [now intros [= _ <-]|].
  destruct (punct c) as [t|].
  - destruct (feed p t) as [p1|] eqn:E; [|discriminate].
    cbn. intros [= _ <-]. eapply feed_inside; eauto.
  - destruct (c =? ch_quote); [now intros [= _ <-]|].
    destruct (is_word_char c); [now intros [= _ <-] | discriminate].
Qed.

Lemma end_word_inside (p : pstate) (acc : jsstring) (p' : pstate) :
  inside_container p -> end_word p acc = Some p' -> inside_container p'.
Proof.
  intros Hp. unfold end_word. destruct (classify acc); [|discriminate].
  now apply feed_inside.
Qed.

Lemma jstep_inside (l : lstate) (p : pstate) (c : Z) (l' : lstate)
    (p' : pstate) :
  inside_container p -> jstep (l, p) c = Some (l', p') -> inside_container p'.
Proof.
  intros Hp. destruct l as [|acc|acc|acc|acc hs]; cbn [jstep].
  - now apply start_char_inside.
  - destruct (is_word_char c); [now intros [= _ <-]|].
    destruct (end_word p acc) as [p1|] eqn:E; [|discriminate].
    apply start_char_inside. eapply end_word_inside; eauto.
  - destruct (c =? ch_quote).
    + destruct (feed p (TStr acc)) as [p1|] eqn:E; [|discriminate].
      cbn. intros [= _ <-]. eapply feed_inside; eauto.
    + destruct (c =? ch_backslash); [now intros [= _ <-]|].
      destruct (c <? 32); [discriminate | now intros [= _ <-]].
  - destruct (c =? 117); [now intros [= _ <-]|].
    destruct (escape_char c); [now intros [= _ <-] | discriminate].
  - destruct (hex_value c); [|discriminate].
    destruct hs as [|h1 [|h2 [|h3 [|h4 hs]]]]; now intros [= _ <-].
Qed.

Lemma jrun_inside (text : jsstring) :
  forall l p l' p',
    inside_container p -> jrun (l, p) text = Some (l', p') ->
    inside_container p'.
Proof.
  induction text as [|c t IH]; intros l p l' p' Hp; cbn [jrun].
  - now intros [= _ <-].
  - destruct (jstep (l, p) c) as [[l1 p1]|] eqn:E; [|discriminate].
    apply IH. eapply jstep_inside; eauto.
Qed.

Lemma JSON_parse_container (s : jsstring) (v : JValue) :
  starts_open s -> JSON_parse s = Some v -> is_container v = true.
Proof.
  destruct s as [|o t]; [intros []|]. cbn [starts_open]. intros Ho.
  unfold JSON_parse, jinit. cbn [jrun].
  destruct (jstep (LNormal, PValue []) o) as [[l1 p1]|] eqn:E1;
    [|discriminate].
  assert (H1 : inside_container p1).
  { cbn [jstep] in E1. unfold start_char in E1.
    destruct (is_json_ws o) eqn:Ew.
    - apply json_ws_not_opener in Ew. congruence.
    - unfold is_opener in Ho. unfold punct in E1.
      destruct (o =? ch_lbrace); [injection E1 as _ <-; exact I|].
      cbn [orb] in Ho.
      destruct (o =? ch_rbrace); [discriminate|].
      rewrite Ho in E1. injection E1 as _ <-. exact I. }
  destruct (jrun (l1, p1) t) as [[l2 p2]|] eqn:E2; [|discriminate].
  pose proof (@jrun_inside _ _ _ _ _ H1 E2) as H2.
  destruct l2; cbn [jfinish]; try discriminate.
  - destruct p2; try discriminate. now intros [= <-].
  - destruct (end_word p2 acc) as [p3|] eqn:E3; [|discriminate].
    pose proof (@end_word_inside _ _ _ H2 E3) as H3.
    destruct p3; try discriminate. now intros [= <-].
Qed.

(** What parseJSON hands to [JSON.parse] starts with the opening brace or
    bracket found first. *)
Lemma search_opener_starts (s : jsstring) (n : nat) :
  search_opener s = Some n -> starts_open (slice_from n s).
Proof.
  revert n; induction s as [|c t IH]; intros n; cbn [search_opener];
    [discriminate|].
  destruct (is_opener c) eqn:E.
  - intros [= <-]. exact E.
  - destruct (search_opener t) as [k|]; [|discriminate].
    cbn. intros [= <-]. now apply IH.
Qed.

Lemma strip_commas_starts (s : jsstring) :
  starts_open s -> starts_open (strip_trailing_commas s).
Proof.
  destruct s as [|o t]; [intros []|]. cbn [starts_open]. intros Ho.
  unfold strip_trailing_commas, replace_all. rewrite replace_from_cons.
  unfold re_trailing_comma.
  assert (E : (o =? ch_comma) = false).
  { apply Z.eqb_neq. intros ->. discriminate. }
  rewrite E. exact Ho.
Qed.

Lemma repair_loop_starts (s : jsstring) :
  forall stack inStr escape acc r st,
    repair_loop s stack inStr escape acc = (r, st) ->
    exists x, r = acc ++ x.
Proof.
  induction s as [|c t IH]; intros stack inStr escape acc r st;
    cbn [repair_loop].
  - intros [= <- _]. exists []. now rewrite app_nil_r.
  - assert (Hk : forall stack inStr escape,
               repair_loop t stack inStr escape (acc ++ [c]) = (r, st) ->
               exists x, r = acc ++ x).
    { intros s1 i1 e1 H. apply IH in H as [x ->].
      exists (c :: x). now rewrite <- app_assoc. }
    destruct escape; [apply Hk|].
    destruct (c =? ch_backslash); [apply Hk|].
    destruct (c =? ch_quote).
    + destruct (negb (negb inStr) && (length stack =? 0)%nat).
      * intros [= <- _]. eauto.
      * apply Hk.
    + destruct inStr; [apply Hk|].
      destruct (c =? ch_lbrace); [apply Hk|].
      destruct (c =? ch_lbracket); [apply Hk|].
      destruct (_ && _); apply Hk.
Qed.

Lemma replace_first_starts (re : pattern) (rep : jsstring -> jsstring)
    (o : Z) (t : jsstring) :
  re true (o :: t) = None ->
  exists t', replace_first re rep (o :: t) = o :: t'.
Proof.
  intros H. unfold replace_first. cbn [replace_first_from]. rewrite H. eauto.
Qed.

Lemma repairTruncated_starts (s : jsstring) :
  starts_open s -> starts_open (repairTruncated s).
Proof.
  destruct s as [|o t]; [intros []|]. cbn [starts_open]. intros Ho.
  unfold repairTruncated.
  destruct (repair_loop (o :: t) [] false false []) as [r st] eqn:E.
  cbn [repair_loop] in E.
  assert (Hq : (o =? ch_quote) = false).
  { apply Z.eqb_neq. intros ->. discriminate. }
  assert (Hb : (o =? ch_backslash) = false).
  { apply Z.eqb_neq. intros ->. discriminate. }
  assert (Hc : (o =? ch_comma) = false).
  { apply Z.eqb_neq. intros ->. discriminate. }
  assert (Hn : (o =? ch_colon) = false).
  { apply Z.eqb_neq. intros ->. discriminate. }
  rewrite Hb, Hq in E.
  assert (Hr : exists x, r = o :: x).
  { destruct (o =? ch_lbrace);
      [apply repair_loop_starts in E as [x ->]; now exists x|].
    destruct (o =? ch_lbracket);
      [apply repair_loop_starts in E as [x ->]; now exists x|].
    destruct (_ && _); apply repair_loop_starts in E as [x ->];
      now exists x. }
  destruct Hr as [x ->].
  change (o :: x) with ([] ++ o :: x).
  rewrite (@trimEnd_around [] o x (opener_not_space _ Ho)). cbn [app].
  destruct (@replace_first_starts re_comma_end erase o
              (rev (dropWhile is_space (rev x)))) as [t1 ->].
  { unfold re_comma_end. now rewrite Hc. }
  destruct (@replace_first_starts re_colon_end (fun _ => jsq ": ''") o t1)
    as [t2 ->].
  { unfold re_colon_end. now rewrite Hn. }
  destruct (@replace_first_starts re_open_string (fun _ => jsq "'...'") o t2)
    as [t3 ->].
  { unfold re_open_string. now rewrite Hq. }
  exact Ho.
Qed.

Lemma slice_to_starts (n : nat) (s : jsstring) :
  starts_open s -> starts_open (slice_to (n + 1) s).
Proof.
  destruct s; [intros []|]. rewrite Nat.add_1_r. exact (fun H => H).
Qed.

(** X11: what parseJSON answers is an object or an array, never a string, a
    number, a boolean or [null]; so the assignment of the theme on its
    answer does not throw. *)
Theorem parseJSON_container (raw : jsstring) (v : JValue) :
  parseJSON raw = inr v ->
  is_container v = true /\ forall x, exists v', assign_theme v x = inr v'.
Proof.
  intros H.
  assert (Hc : is_container v = true).
  { revert H. unfold parseJSON.
    destruct (search_opener (strip_fences raw)) as [start|] eqn:Es;
      [|discriminate].
    apply search_opener_starts in Es.
    set (s1 := slice_from start (strip_fences raw)) in *.
    set (s2 := match find_end _ _ s1 0 0 false false with
               | Some e => slice_to (e + 1) s1
               | None => repairTruncated s1
               end).
    assert (H2 : starts_open s2).
    { unfold s2. destruct (find_end _ _ s1 0 0 false false).
      - now apply slice_to_starts.
      - now apply repairTruncated_starts. }
    destruct (JSON_parse (strip_trailing_commas s2)) as [v1|] eqn:E1.
    - intros [= <-].
      eapply JSON_parse_container; [|exact E1].
      now apply strip_commas_starts.
    - destruct (JSON_parse (strip_trailing_commas
                              (repairTruncated (strip_trailing_commas s2))))
        as [v2|] eqn:E2; [|discriminate].
      intros [= <-].
      eapply JSON_parse_container; [|exact E2].
      now apply strip_commas_starts, repairTruncated_starts,
        strip_commas_starts. }
  split; [exact Hc|].
  intros x. destruct v; try discriminate; cbn; eauto.
Qed.

End Containers.

Lemma parseJSON_container_witness :
  is_container (JObj [(js "theme", JStr (js "Autre thème"))]) = true
  /\ forall x, exists v',
       assign_theme (JObj [(js "theme", JStr (js "Autre thème"))]) x = inr v'.
Proof.
  apply (@parseJSON_container Examples.repair_answer). reflexivity.
Defined.

(** ** The coherence checker: a Prosit Aller alone, and a coherent pair *)

Section CoherenceMore.
Context {B : Builtins}.

Import Agent2.

Lemma filter_all {A} (f : A -> bool) (l : list A) :
  (forall x, In x l -> f x = true) -> filter f l = l.
Proof.
  induction l as [|a l IH]; intros H; [reflexivity|]. cbn.
  rewrite (H a (or_introl eq_refl)). f_equal. apply IH.
  intros x Hx. apply H. now right.
Qed.

Lemma filter_none {A} (f : A -> bool) (l : list A) :
  (forall x, In x l -> f x = false) -> filter f l = [].
Proof.
  induction l as [|a l IH]; intros H; [reflexivity|]. cbn.
  rewrite (H a (or_introl eq_refl)). apply IH.
  intros x Hx. apply H. now right.
Qed.

(** X12: on a Prosit Aller alone (no Prosit Retour), the checker has the
    keywords of the Prosit Aller only to complain about: it answers
    [coherent] exactly when there are at most two distinct keywords. *)
Theorem check_coherence_alone (pa : JValue) (ms : list jsstring) :
  toLowerCase [] = [] ->
  truthy pa = true ->
  printable (prop pa (js "theme")) = true ->
  lowered_keywords (prop pa (js "mots_cles")) = inr ms ->
  check_coherence pa JNull
  = inr {| coherent := (length (dedupe ms) <=? 2)%nat;
           issues := if (2 <? length (dedupe ms))%nat
                     then [keywords_issue (dedupe ms)] else [] |}.
Proof.
  intros Hl Hpa Ht Hk. unfold check_coherence.
  rewrite Hpa. cbn [negb opt_prop or_else truthy to_string rbind].
  destruct (printable_to_string _ (printable_or_empty _ Ht)) as [t1 ->].
  cbn [rbind]. rewrite Hl. cbn [nonempty andb array_length].
  rewrite Hk. cbn [rbind Object_keys own_props map dedupe existsb negb].
  rewrite Nat.ltb_irrefl, andb_false_r. cbn [app].
  rewrite (filter_all _ (dedupe ms)) by reflexivity.
  f_equal.
  destruct (2 <? length (dedupe ms))%nat eqn:E; cbn [length Nat.eqb].
  - apply Nat.ltb_lt in E. f_equal. symmetry. apply Nat.leb_gt. exact E.
  - apply Nat.ltb_ge in E. f_equal. symmetry. now apply Nat.leb_le.
Qed.

Lemma str_eqb_refl (s : jsstring) : str_eqb s s = true.
Proof.
  induction s as [|c t IH]; [reflexivity|]. cbn. now rewrite Z.eqb_refl.
Qed.

Lemma dedupe_subset (l : list jsstring) (x : jsstring) :
  In x (dedupe l) -> In x l.
Proof.
  revert x. induction l as [|a l IH]; intros x; cbn; [auto|].
  intros [<-|H]; [now left|]. right. apply IH.
  apply filter_In in H. apply H.
Qed.

Lemma str_eqb_eq (a b : jsstring) : str_eqb a b = true -> a = b.
Proof.
  revert b. induction a as [|x a IH]; intros [|y b]; cbn; try discriminate;
    [reflexivity|].
  intros H. apply andb_true_iff in H as [H1 H2].
  apply Z.eqb_eq in H1. subst. f_equal. now apply IH.
Qed.

Lemma dedupe_complete (l : list jsstring) (x : jsstring) :
  In x l -> In x (dedupe l).
Proof.
  induction l as [|a l IH]; cbn; [auto|].
  intros [<-|H]; [now left|].
  destruct (str_eqb a x) eqn:E.
  - left. now apply str_eqb_eq.
  - right. apply filter_In. split; [now apply IH|]. now rewrite E.
Qed.

(** X13: a Prosit Retour with the theme of the Prosit Aller, at least as many
    validations as the Prosit Aller has hypotheses, and, for each keyword, a
    definition whose name holds the first five code units of the keyword,
    is coherent with it: the checker finds no issue. *)
Theorem check_coherence_consistent (pa pr : JValue) (t : jsstring)
    (xs ys : list JValue) (xp yp kp : list (jsstring * JValue))
    (keywords : list jsstring) (defs : list (jsstring * JValue)) :
  truthy pa = true ->
  prop pa (js "theme") = JStr t ->
  prop pr (js "theme") = JStr t ->
  prop pa (js "pistes_solution") = JArr xs xp ->
  prop pr (js "validation_hypotheses") = JArr ys yp ->
  (length xs <= length ys)%nat ->
  prop pa (js "mots_cles") = JArr (map JStr keywords) kp ->
  prop pr (js "definitions") = JObj defs ->
  (forall m, In m keywords ->
     exists k, In k (map fst defs)
               /\ includes (slice_to 5 (toLowerCase m)) (toLowerCase k)
                  = true) ->
  check_coherence pa pr = inr {| coherent := true; issues := [] |}.
Proof.
  intros Hpa Ht1 Ht2 Hx Hy Hle Hk Hd Hdef.
  assert (Hpr : forall k, opt_prop pr k = prop pr k).
  { intros k. destruct pr; try reflexivity; cbn in Ht2; discriminate. }
  unfold check_coherence. rewrite Hpa, !Hpr, Ht1, Ht2, Hx, Hy, Hk, Hd.
  cbn [negb]. unfold or_else.
  destruct (truthy (JStr t)); cbn [to_string rbind];
    rewrite str_eqb_refl; cbn [negb andb array_length];
    rewrite andb_false_r; cbn [rbind].
  all: assert (E3 : (length ys <? length xs)%nat = false)
         by (apply Nat.ltb_ge; exact Hle);
       rewrite E3, andb_false_r; cbn [app truthy];
       unfold lowered_keywords, or_else; cbn [truthy];
       assert (Em : map_result
                      (fun m => let? t0 := to_string m in inr (toLowerCase t0))
                      (map JStr keywords)
                    = inr (map toLowerCase keywords))
         by (clear; induction keywords as [|a l IH]; cbn; [reflexivity|];
             cbn in IH; now rewrite IH);
       rewrite Em; cbn [rbind Object_keys];
       rewrite filter_none;
         [reflexivity|];
       intros m Hm; apply dedupe_subset in Hm;
       apply in_map_iff in Hm as (m0 & <- & Hm0);
       destruct (Hdef _ Hm0) as (k & Hk1 & Hk2);
       apply negb_false_iff, existsb_exists;
       exists (toLowerCase k); split; [|exact Hk2];
       apply dedupe_complete, in_map, dedupe_complete; exact Hk1.
Qed.

End CoherenceMore.

Lemma check_coherence_alone_witness :
  Agent2.check_coherence Examples.pa_three_keywords JNull
  = inr {| Agent2.coherent := false;
           Agent2.issues :=
             [js "Mots clés PA non définis dans PR : pare-feu, vpn, chiffrement"] |}.
Proof.
  exact (@check_coherence_alone latin1_builtins Examples.pa_three_keywords
           [js "pare-feu"; js "vpn"; js "chiffrement"]
           eq_refl eq_refl eq_refl eq_refl).
Defined.

Lemma check_coherence_consistent_witness :
  Agent2.check_coherence
    (JObj [(js "theme", JStr (js "Réseaux"));
           (js "pistes_solution", JArr [JStr (js "Segmenter ?")] []);
           (js "mots_cles", JArr (map JStr [js "Pare-feu"; js "VPN"]) [])])
    (JObj [(js "theme", JStr (js "Réseaux"));
           (js "validation_hypotheses", JArr [JObj []; JObj []] []);
           (js "definitions",
            JObj [(js "VPN d'entreprise", JStr (js "tunnel"));
                  (js "pare-feu", JStr (js "filtre"))])])
  = inr {| Agent2.coherent := true; Agent2.issues := [] |}.
Proof.
  apply (@check_coherence_consistent latin1_builtins _ _ (js "Réseaux")
           [JStr (js "Segmenter ?")] [JObj []; JObj []] [] [] []
           [js "Pare-feu"; js "VPN"]
           [(js "VPN d'entreprise", JStr (js "tunnel"));
            (js "pare-feu", JStr (js "filtre"))]);
    try reflexivity.
  - cbn [length]. lia.
  - intros m [<- | [<- | []]].
    + exists (js "pare-feu"). split; [cbn; tauto | vm_compute; reflexivity].
    + exists (js "VPN d'entreprise").
      split; [cbn; tauto | vm_compute; reflexivity].
Defined.

(** ** createMemory: the underscores of the slug *)

Section SlugUnderscores.
Context {B : Builtins}.

Import Orchestrator.

Lemma no_double_cons (a b : Z) (t : jsstring) :
  no_double_underscore (a :: b :: t)
  = negb ((a =? ch_underscore) && (b =? ch_underscore))
    && no_double_underscore (b :: t).
Proof. reflexivity. Qed.

Lemma no_double_prefix (a z : jsstring) :
  no_double_underscore (a ++ z) = true -> no_double_underscore a = true.
Proof.
  induction a as [|x a IH]; [reflexivity|].
  destruct a as [|y a]; [reflexivity|].
  cbn [app] in *. rewrite !no_double_cons. intros H.
  apply andb_true_iff in H as [H1 H2]. rewrite H1. now apply IH.
Qed.

Lemma no_double_tail (c : Z) (t : jsstring) :
  no_double_underscore (c :: t) = true -> no_double_underscore t = true.
Proof.
  destruct t as [|d t]; [reflexivity|]. rewrite no_double_cons.
  intros H. now apply andb_true_iff in H as [_ H].
Qed.

Lemma collapse_alnum_head (c : Z) (t : jsstring) (b : bool) :
  is_slug_alnum c = true ->
  replace_from re_not_alnum (fun _ => [ch_underscore]) b 0 (c :: t)
  = c :: replace_from re_not_alnum (fun _ => [ch_underscore]) false 0 t.
Proof.
  intros H. rewrite replace_from_cons. unfold re_not_alnum. now rewrite H.
Qed.

Lemma collapse_other_head (c : Z) (t : jsstring) (b : bool) :
  is_slug_alnum c = false ->
  replace_from re_not_alnum (fun _ => [ch_underscore]) b 0 (c :: t)
  = ch_underscore
    :: replace_from re_not_alnum (fun _ => [ch_underscore]) false 0
         (dropWhile (fun d => negb (is_slug_alnum d)) t).
Proof.
  intros H. rewrite replace_from_cons.
  change (re_not_alnum b (c :: t))
    with (if negb (is_slug_alnum c)
          then Some (1 + length (takeWhile
                                   (fun d => negb (is_slug_alnum d)) t))%nat
          else None).
  rewrite H. cbn [negb Nat.add app]. now rewrite skipn_takeWhile.
Qed.

Lemma alnum_not_underscore (c : Z) :
  is_slug_alnum c = true -> (c =? ch_underscore) = false.
Proof. intros H. apply Z.eqb_neq. intros ->. discriminate. Qed.

Lemma collapse_no_double (n : nat) :
  forall s b, (length s <= n)%nat ->
    no_double_underscore
      (replace_from re_not_alnum (fun _ => [ch_underscore]) b 0 s) = true.
Proof.
  induction n as [|n IH]; intros s b Hn.
  - destruct s; [reflexivity | simpl in Hn; lia].
  - destruct s as [|c t]; [reflexivity|].
    destruct (is_slug_alnum c) eqn:Ec.
    + rewrite (@collapse_alnum_head c t b Ec).
      assert (Ht : no_double_underscore
                     (replace_from re_not_alnum (fun _ => [ch_underscore])
                        false 0 t) = true)
        by (apply IH; simpl in Hn; lia).
      destruct (replace_from _ _ false 0 t) as [|d r]; [reflexivity|].
      rewrite no_double_cons.
      now rewrite (@alnum_not_underscore c Ec), Ht.
    + rewrite (@collapse_other_head c t b Ec).
      destruct (dropWhile (fun d => negb (is_slug_alnum d)) t)
        as [|d r] eqn:Ed; [reflexivity|].
      pose proof (@dropWhile_head _ _ _ _ Ed) as Hd.
      apply negb_false_iff in Hd.
      assert (Hlen : (length (d :: r) <= n)%nat).
      { rewrite <- Ed, <- skipn_takeWhile, length_skipn. simpl in Hn. lia. }
      pose proof (IH (d :: r) false Hlen) as Hr.
      rewrite (@collapse_alnum_head d r false Hd) in Hr |- *.
      rewrite no_double_cons.
      rewrite (@alnum_not_underscore d Hd), andb_false_r. exact Hr.
Qed.

(** The pattern matches one code unit at most. *)
Lemma edge_match (b : bool) (c : Z) (t : jsstring) (n : nat) :
  re_edge_underscore b (c :: t) = Some (S n) ->
  n = 0%nat /\ (b = true \/ t = []).
Proof.
  unfold re_edge_underscore.
  destruct ((c =? ch_underscore) && (b || negb (nonempty t))) eqn:E;
    [|discriminate].
  intros [= <-]. split; [reflexivity|].
  apply andb_true_iff in E as [_ E]. apply orb_true_iff in E as [E|E];
    [now left|]. right. now destruct t.
Qed.

(** Without its last underscore, or as it is. *)
Lemma edge_prefix (s : jsstring) :
  exists z, s = replace_from re_edge_underscore erase false 0 s ++ z.
Proof.
  induction s as [|c t [z IH]]; [now exists []|].
  rewrite replace_from_cons.
  destruct (re_edge_underscore false (c :: t)) as [[|n]|] eqn:E.
  - exists z. cbn [app]. now rewrite <- IH.
  - apply edge_match in E as [-> [E | ->]]; [discriminate|].
    now exists [c].
  - exists z. cbn [app]. now rewrite <- IH.
Qed.

Lemma edge_no_double (s : jsstring) :
  no_double_underscore s = true ->
  no_double_underscore (replace_all re_edge_underscore erase s) = true.
Proof.
  intros H. unfold replace_all. destruct s as [|c t]; [reflexivity|].
  rewrite replace_from_cons.
  destruct (edge_prefix t) as [z Hz].
  destruct (re_edge_underscore true (c :: t)) as [[|n]|] eqn:E.
  - rewrite Hz in H. now apply (@no_double_prefix (c :: _) z).
  - apply edge_match in E as [-> _]. cbn [skipn erase app].
    apply no_double_tail in H. rewrite Hz in H.
    now apply no_double_prefix in H.
  - rewrite Hz in H. now apply (@no_double_prefix (c :: _) z).
Qed.

(** X14: in the slug of a memory no underscore is followed by another one. *)
Theorem createMemory_slug_underscores (dirname : jsstring) (params : Params) :
  no_double_underscore (slug (createMemory dirname params)) = true.
Proof.
  cbn [slug createMemory]. unfold slug_of, slice_to.
  match goal with
  | |- no_double_underscore (firstn ?n ?s) = true =>
      apply (@no_double_prefix (firstn n s) (skipn n s));
      rewrite firstn_skipn
  end.
  apply edge_no_double. unfold replace_all.
  eapply collapse_no_double. apply Nat.le_refl.
Qed.

End SlugUnderscores.

(** ** server.js: the kind of a document that a validator accepts *)

Section DetectType.
Context {B : Builtins}.

Import Server.

Lemma valid_rules_hold (rules : list rule) (data : JValue)
    (v : ValidationResult) :
  Forall total_check rules ->
  validate rules data = inr v -> valid v = true ->
  forall r, In r rules -> rule_holds r data = true.
Proof.
  intros Htot Hv Hvalid r Hr. unfold validate in Hv.
  rewrite (failing_is_filter data Htot) in Hv.
  assert (Hf : filter (fun x => negb (rule_holds x data)) rules = []).
  { destruct data; try discriminate; injection Hv as <-;
      cbn [valid] in Hvalid; apply Nat.eqb_eq in Hvalid;
      rewrite length_map in Hvalid; now apply length_zero_iff_nil. }
  destruct (rule_holds r data) eqn:E; [reflexivity|].
  assert (Hin : In r (filter (fun x => negb (rule_holds x data)) rules))
    by (apply filter_In; split; [exact Hr | now rewrite E]).
  rewrite Hf in Hin. destruct Hin.
Qed.

Lemma array_rule_truthy (data : JValue) (f m : jsstring) (n : nat) :
  rule_holds {| field := f; check := array_min n; msg := m |} data = true ->
  truthy (prop data f) = true.
Proof.
  unfold rule_holds. cbn [field check].
  destruct (prop data f); cbn; try discriminate. reflexivity.
Qed.

Lemma object_rule_truthy (data : JValue) (f m : jsstring) (n : nat) :
  rule_holds {| field := f; check := object_min_keys n; msg := m |} data
  = true ->
  truthy (prop data f) = true.
Proof.
  unfold rule_holds. cbn [field check].
  destruct (prop data f); cbn; try discriminate; reflexivity.
Qed.

(** X15: a document that the validator of stage 2 accepts is taken for a
    Prosit Retour by the import of the server; one that the validator of
    stage 3 accepts is taken for a CER, unless it has definitions, with
    which it is taken for a Prosit Retour. *)
Theorem detectJsonType_of_valid (data : JValue) (v : ValidationResult) :
  valid v = true ->
  (Agent2.validate_structure data = inr v ->
   detectJsonType data = js "prosit_retour")
  /\ (Agent3.validate_structure data = inr v ->
      detectJsonType data
      = if truthy (prop data (js "definitions")) then js "prosit_retour"
        else js "cer").
Proof.
  intros Hvalid. split; intros Hv.
  - pose proof (@valid_rules_hold _ data v agent2_rules_total Hv Hvalid) as H.
    unfold detectJsonType.
    rewrite (@array_rule_truthy data (js "validation_hypotheses")
               (js "≥2 validations d'hypothèses requises") 2)
      by (apply H; cbn; tauto).
    rewrite (@object_rule_truthy data (js "definitions")
               (js "≥4 définitions requises") 4)
      by (apply H; cbn; tauto).
    reflexivity.
  - pose proof (@valid_rules_hold _ data v agent3_rules_total Hv Hvalid) as H.
    unfold detectJsonType.
    rewrite (@array_rule_truthy data (js "validation_hypotheses")
               (js "≥2 validations d'hypothèses") 2)
      by (apply H; cbn; tauto).
    rewrite (@array_rule_truthy data (js "objectifs_savoir")
               (js "≥4 objectifs savoir requis") 4)
      by (apply H; cbn; tauto).
    cbn [andb orb]. reflexivity.
Qed.

End DetectType.

Lemma detectJsonType_of_valid_witness :
  Server.detectJsonType valid_pr = js "prosit_retour".
Proof.
  apply (proj1 (@detectJsonType_of_valid latin1_builtins valid_pr
                  {| valid := true; errors := []; score := 100 |} eq_refl)).
  vm_compute. reflexivity.
Defined.

(** ** UCAC_MultiAgents.jsx: an object inside a text *)

Section ImportedFile.

Import Ui.

Lemma upto_last_none (c : Z) (s : jsstring) :
  Forall (fun x => x <> c) s -> upto_last c s = None.
Proof.
  induction 1 as [|x t Hx _ IH]; [reflexivity|]. cbn. rewrite IH.
  apply Z.eqb_neq in Hx. now rewrite Hx.
Qed.

Lemma upto_last_app (c : Z) (x after : jsstring) :
  Forall (fun y => y <> c) after ->
  upto_last c (x ++ c :: after) = Some (x ++ [c]).
Proof.
  intros Ha. induction x as [|y x IH]; cbn.
  - rewrite (upto_last_none Ha). now rewrite Z.eqb_refl.
  - now rewrite IH.
Qed.

Lemma match_braces_skip (before rest : jsstring) :
  Forall (fun y => y <> ch_lbrace) before ->
  match_braces (before ++ rest) = match_braces rest.
Proof.
  induction 1 as [|y t Hy _ IH]; [reflexivity|].
  cbn [app match_braces braces_at].
  apply Z.eqb_neq in Hy. now rewrite Hy.
Qed.

(** X16: in a text that is not JSON as a whole, the text of an object
    between the first opening brace and the last closing brace of the text
    is read, provided something stands between its braces; an empty object
    is not found, and the answer is [null]. *)
Theorem parseImportedFile_embedded (before after : jsstring) :
  Forall (fun y => y <> ch_lbrace) before ->
  Forall (fun y => y <> ch_rbrace) after ->
  (forall body v,
     body <> [] ->
     JSON_parse (before ++ (ch_lbrace :: body ++ [ch_rbrace]) ++ after) = None ->
     JSON_parse (ch_lbrace :: body ++ [ch_rbrace]) = Some v ->
     parseImportedFile (before ++ (ch_lbrace :: body ++ [ch_rbrace]) ++ after)
     = v)
  /\ (Forall (fun y => y <> ch_lbrace) after ->
      JSON_parse (before ++ [ch_lbrace; ch_rbrace] ++ after) = None ->
      parseImportedFile (before ++ [ch_lbrace; ch_rbrace] ++ after) = JNull).
Proof.
  intros Hb Ha. split.
  - intros body v Hbody Hnone Hv. unfold parseImportedFile.
    rewrite Hnone, (match_braces_skip _ Hb).
    cbn [app match_braces braces_at]. rewrite Z.eqb_refl.
    rewrite <- app_assoc. cbn [app]. rewrite (upto_last_app _ Ha).
    assert (Hl : (2 <=? length (body ++ [ch_rbrace]))%nat = true).
    { apply Nat.leb_le. rewrite length_app. cbn [length].
      destruct body; [congruence | cbn [length]; lia]. }
    rewrite Hl. now rewrite Hv.
  - intros Ha2 Hnone. unfold parseImportedFile.
    rewrite Hnone, (match_braces_skip _ Hb).
    cbn [app match_braces braces_at]. rewrite Z.eqb_refl.
    pose proof (@upto_last_app ch_rbrace [] after Ha) as Hu.
    cbn [app] in Hu. rewrite Hu. cbn [app length Nat.leb].
    assert (E : (ch_rbrace =? ch_lbrace) = false) by reflexivity.
    rewrite E.
    rewrite <- (app_nil_r after), (match_braces_skip [] Ha2). reflexivity.
Qed.

End ImportedFile.

Lemma parseImportedFile_embedded_witness :
  Ui.parseImportedFile (js "Voici : " ++ jsq "{'theme':'Cloud'}" ++ js " fin")
  = JObj [(js "theme", JStr (js "Cloud"))].
Proof.
  apply (proj1 (@parseImportedFile_embedded (js "Voici : ") (js " fin")
                  ltac:(repeat constructor; discriminate)
                  ltac:(repeat constructor; discriminate))
           (jsq "'theme':'Cloud'") (JObj [(js "theme", JStr (js "Cloud"))]));
    [discriminate | reflexivity | reflexivity].
Defined.

(** ** structurer.js *)

Section StructureDocument.

Import Structurer.

Variable platform : exn -> jsstring.





End StructureDocument.



(** ** structurer.js: a blank text *)

Section SimpleExtract.

Import Structurer.

Lemma split_lines_all (P : Z -> Prop) (s : jsstring) :
  Forall P s -> Forall (Forall P) (split_lines s).
Proof.
  induction 1 as [|c t Hc _ IH]; cbn [split_lines]; [repeat constructor|].
  destruct (c =? ch_lf); [constructor; [constructor | exact IH]|].
  destruct (split_lines t) as [|l ls]; [repeat constructor; exact Hc|].
  inversion IH; subst. constructor; [constructor|]; assumption.
Qed.

Lemma dropWhile_all (p : Z -> bool) (s : jsstring) :
  Forall (fun c => p c = true) s -> dropWhile p s = [].
Proof. induction 1 as [|c t Hc _ IH]; cbn; [reflexivity | now rewrite Hc]. Qed.

Lemma trim_blank (s : jsstring) :
  Forall (fun c => is_space c = true) s -> trim s = [].
Proof.
  intros H. unfold trim, trimStart, trimEnd. now rewrite (dropWhile_all _ H).
Qed.

Lemma text_lines_blank (s : jsstring) :
  Forall (fun c => is_space c = true) s -> text_lines s = [].
Proof.
  intros H. unfold text_lines.
  pose proof (split_lines_all H) as Hl.
  induction Hl as [|l ls Hl _ IH]; [reflexivity|].
  cbn [map filter]. now rewrite (trim_blank Hl).
Qed.

Lemma theme_match_blank (s : jsstring) :
  Forall (fun c => is_space c = true) s -> theme_match s = None.
Proof.
  induction 1 as [|c t Hc _ IH]; [reflexivity|].
  cbn [theme_match]. rewrite IH.
  assert (E : ci 116 c = false).
  { unfold ci. destruct (c =? 116) eqn:E1;
      [apply Z.eqb_eq in E1; subst; discriminate|].
    destruct (c =? 116 - 32) eqn:E2;
      [apply Z.eqb_eq in E2; subst; discriminate | reflexivity]. }
  unfold theme_at. destruct t as [|h [|e [|m r]]]; try reflexivity.
  now rewrite E.
Qed.

(** X20: on a blank text (empty, or white space only), [simpleExtract] finds
    no theme and answers the theme that says so; the raw text is the
    text, cut at 4000 code units. *)
Theorem simpleExtract_blank (text : jsstring) :
  Forall (fun c => is_space c = true) text ->
  simpleExtract text
  = JObj [(js "theme", JStr (js "Thème non détecté"));
          (js "raw_text", JStr (slice_to 4000 text))].
Proof.
  intros H. unfold simpleExtract.
  rewrite (text_lines_blank H), (theme_match_blank H). cbn [find].
  reflexivity.
Qed.

End SimpleExtract.

Lemma simpleExtract_blank_witness :
  Structurer.simpleExtract [ch_space; ch_lf; ch_tab]
  = JObj [(js "theme", JStr (js "Thème non détecté"));
          (js "raw_text", JStr [ch_space; ch_lf; ch_tab])].
Proof.
  apply (@simpleExtract_blank [ch_space; ch_lf; ch_tab]).
  repeat constructor.
Defined.

(** The title of a text, and the heading that is passed over. *)
Example simpleExtract_example :
  Structurer.simpleExtract
    (js "PROSIT RETOUR" ++ [ch_lf] ++ js "  Migration vers le cloud  " ++ [ch_lf])
  = JObj [(js "theme", JStr (js "Migration vers le cloud"));
          (js "raw_text",
           JStr (js "PROSIT RETOUR" ++ [ch_lf]
                 ++ js "  Migration vers le cloud  " ++ [ch_lf]))].
Proof. vm_compute. reflexivity. Qed.
